(** * genieparser: the [ifconfig] text parser, the asm-bypass REST reader and
      the schema descriptors they declare.

    The development embeds

    - [src/genie/libs/parser/linux/ifconfig.py]
      ([IfconfigSchema.schema], [Ifconfig.cli]) and
    - [src/genie/libs/parser/bigip/get_analytics_asm_bypassreport_results.py]
      ([AnalyticsAsmbypassReportresultsSchema.schema],
       [AnalyticsAsmbypassReportresults.rest]).

    Text is a [string] whose characters are read as the code points
    U+0000..U+00FF; every statement about "all output strings" ranges over
    such texts.  The character tables of the interpreter ([str.isspace],
    [str.isdigit], the decimal digits accepted by [int] and by the pattern
    [\d], the line boundaries of [str.splitlines]) are written out for that
    range. *)

From Stdlib Require Import String Ascii List ZArith NArith Bool Lia.
From Stdlib Require Import Floats DecimalString.
Import ListNotations.

Set Warnings "-register-all".
Set Warnings "-automation".
Set Warnings "-default".

Local Open Scope string_scope.
Local Open Scope list_scope.

(* ================================================================== *)
(** ** Characters *)
(* ================================================================== *)

Module Char.

Definition code (c : ascii) : N := N_of_ascii c.

Definition between (lo hi : N) (c : ascii) : bool :=
  (N.leb lo (code c) && N.leb (code c) hi)%bool.

Definition at_code (n : N) (c : ascii) : bool := N.eqb (code c) n.

Definition TAB : ascii := "009"%char.
Definition LF : ascii := "010"%char.
Definition CR : ascii := "013"%char.
Definition SPACE : ascii := " "%char.

(** [str.isspace] on one character, also the class [\s] of [re]:
    U+0009..U+000D, U+001C..U+001F, U+0020, U+0085, U+00A0. *)
Definition isspace (c : ascii) : bool :=
  (between 9 13 c || between 28 31 c || at_code 32 c || at_code 133 c || at_code 160 c)%bool.

(** The decimal digits: the class [\d] of [re], and the only characters
    [int] reads as digits. *)
Definition isdecimal (c : ascii) : bool := between 48 57 c.

(** [str.isdigit] on one character: the decimal digits and the
    superscripts U+00B2, U+00B3, U+00B9. *)
Definition isdigit (c : ascii) : bool :=
  (isdecimal c || at_code 178 c || at_code 179 c || at_code 185 c)%bool.

(** The line boundaries of [str.splitlines]:
    U+000A..U+000D, U+001C..U+001E, U+0085. *)
Definition islinebreak (c : ascii) : bool :=
  (between 10 13 c || between 28 30 c || at_code 133 c)%bool.

Definition digit_value (c : ascii) : Z := Z.of_N (code c) - 48.

End Char.

(* ================================================================== *)
(** ** The string methods the parser calls *)
(* ================================================================== *)

Module Str.

Fixpoint all (p : ascii -> bool) (s : string) : bool :=
  match s with
  | EmptyString => true
  | String c s' => (p c && all p s')%bool
  end.

(** [s.isdigit()]: at least one character, all of them digits. *)
Definition isdigit (s : string) : bool :=
  match s with
  | EmptyString => false
  | _ => all Char.isdigit s
  end.

(** [bool(s)] of a string. *)
Definition truthy (s : string) : bool :=
  match s with
  | EmptyString => false
  | _ => true
  end.

Fixpoint int_acc (acc : Z) (s : string) : option Z :=
  match s with
  | EmptyString => Some acc
  | String c s' =>
      if Char.isdecimal c
      then int_acc (10 * acc + Char.digit_value c) s'
      else None
  end.

(** [sys.get_int_max_str_digits()] as the interpreter starts with it:
    [int] refuses a text of more digits with a ValueError. *)
Definition int_max_str_digits : N := 4300.

(** [int(s)]; [None] stands for the ValueError.  Every call site passes
    a text of [str.isdigit] characters, so the sign, the surrounding
    blanks and the underscores [int] would also accept cannot occur; they
    are rejected here like every other character that is not a decimal
    digit.  A text of decimal digits is refused when it has more than
    [int_max_str_digits] of them, leading zeros counted. *)
Definition int (s : string) : option Z :=
  match s with
  | EmptyString => None
  | _ =>
      if N.leb (N.of_nat (String.length s)) int_max_str_digits
      then int_acc 0 s
      else None
  end.

(** [s.replace('\t', '    ')]. *)
Fixpoint replace_tab (s : string) : string :=
  match s with
  | EmptyString => EmptyString
  | String c s' =>
      if Ascii.eqb c Char.TAB
      then "    " ++ replace_tab s'
      else String c (replace_tab s')
  end.

Fixpoint lstrip (s : string) : string :=
  match s with
  | EmptyString => EmptyString
  | String c s' => if Char.isspace c then lstrip s' else s
  end.

Fixpoint rstrip (s : string) : string :=
  match s with
  | EmptyString => EmptyString
  | String c s' =>
      match rstrip s' with
      | EmptyString => if Char.isspace c then EmptyString else String c EmptyString
      | r => String c r
      end
  end.

(** [s.strip()]. *)
Definition strip (s : string) : string := rstrip (lstrip s).

(** [s.splitlines()]: a line ends at a line boundary, [\r\n] counts as
    one boundary, the boundaries are dropped and no empty line follows
    the last boundary. *)
Fixpoint splitlines (s : string) : list string :=
  match s with
  | EmptyString => []
  | String c s' =>
      if Char.islinebreak c then
        EmptyString ::
          match s' with
          | String c2 s'' =>
              if (Ascii.eqb c Char.CR && Ascii.eqb c2 Char.LF)%bool
              then splitlines s''
              else splitlines s'
          | EmptyString => splitlines s'
          end
      else
        match splitlines s' with
        | [] => [String c EmptyString]
        | l :: ls => String c l :: ls
        end
  end.

(** [s[len(t):]] when [s.startswith(t)]. *)
Fixpoint drop_prefix (t s : string) : option string :=
  match t with
  | EmptyString => Some s
  | String a t' =>
      match s with
      | String b s' => if Ascii.eqb a b then drop_prefix t' s' else None
      | EmptyString => None
      end
  end.

(** [s[:n]]. *)
Fixpoint take (n : nat) (s : string) : string :=
  match n, s with
  | S n', String c s' => String c (take n' s')
  | _, _ => EmptyString
  end.

End Str.

(* ================================================================== *)
(** ** Regular expressions: the fragment of [re] the parser uses *)
(* ================================================================== *)

Module Re.

(** Sets of characters. *)
Inductive cset : Type :=
| CChar (c : ascii)      (* a literal character *)
| CDigit                 (* \d *)
| CNonSpace              (* \S *)
| CDot.                  (* .  (no DOTALL) *)

Definition mem (cs : cset) (c : ascii) : bool :=
  match cs with
  | CChar a => Ascii.eqb a c
  | CDigit => Char.isdecimal c
  | CNonSpace => negb (Char.isspace c)
  | CDot => negb (Ascii.eqb c Char.LF)
  end.

Inductive regex : Type :=
| Bol                                  (* ^ *)
| Eol                                  (* $ *)
| Plus (cs : cset)                     (* cs+, greedy *)
| Star (cs : cset)                     (* cs*, greedy *)
| Lit (t : string)                     (* literal text *)
| Seq (r1 r2 : regex)
| Opt (r : regex)                      (* (r)?, greedy; the group is unnamed *)
| Group (name : string) (r : regex).   (* (?P<name>r) *)

(** The named groups that took part in the match, with their text. *)
Definition marks : Type := list (string * string).

Fixpoint get (name : string) (g : marks) : option string :=
  match g with
  | [] => None
  | (n, v) :: g' => if String.eqb n name then Some v else get name g'
  end.

Definition captured (s rest : string) : string :=
  Str.take (String.length s - String.length rest) s.

Section Matcher.
Context {A : Type}.

(** Greedy repetition of one character set: the longest run first,
    giving one character back at a time when the rest fails. *)
Fixpoint rep (cs : cset) (s : string) (k : string -> option A) : option A :=
  match s with
  | String c s' =>
      if mem cs c then
        match rep cs s' k with
        | Some r => Some r
        | None => k s
        end
      else k s
  | EmptyString => k s
  end.

(** Backtracking matcher in continuation-passing style.  [n0] is the
    length of the whole subject, [s] what is left of it, [g] the marks
    set so far, [k] the rest of the pattern. *)
Fixpoint run (r : regex) (n0 : nat) (s : string) (g : marks)
         (k : string -> marks -> option A) : option A :=
  match r with
  | Bol => if Nat.eqb (String.length s) n0 then k s g else None
  | Eol =>
      match s with
      | EmptyString => k s g
      | String c EmptyString => if Ascii.eqb c Char.LF then k s g else None
      | _ => None
      end
  | Plus cs =>
      match s with
      | String c s' => if mem cs c then rep cs s' (fun s'' => k s'' g) else None
      | EmptyString => None
      end
  | Star cs => rep cs s (fun s' => k s' g)
  | Lit t =>
      match Str.drop_prefix t s with
      | Some s' => k s' g
      | None => None
      end
  | Seq r1 r2 => run r1 n0 s g (fun s' g' => run r2 n0 s' g' k)
  | Opt r1 =>
      match run r1 n0 s g k with
      | Some e => Some e
      | None => k s g
      end
  | Group name r1 =>
      run r1 n0 s g (fun s' g' => k s' ((name, captured s s') :: g'))
  end.
End Matcher.

(** [p.match(line)]: [None] when the pattern does not match at the start
    of [line]. *)
Definition rmatch (p : regex) (line : string) : option marks :=
  run p (String.length line) line [] (fun _ g => Some g).

Fixpoint group_names (r : regex) : list string :=
  match r with
  | Seq r1 r2 => group_names r1 ++ group_names r2
  | Opt r1 => group_names r1
  | Group name r1 => name :: group_names r1
  | _ => []
  end.

(** [m.groupdict()]: every named group of the pattern, in the order of
    the pattern, [None] for a group that took no part in the match. *)
Definition groupdict (p : regex) (g : marks) : list (string * option string) :=
  map (fun n => (n, get n g)) (group_names p).

End Re.

(* ================================================================== *)
(** ** Values and dictionaries *)
(* ================================================================== *)

(** The nested values a parser returns and the schema engine validates:
    scalars ([str], [int], [float], [bool]), sequences, and mappings with
    text keys.  A mapping is kept as the list of its items in insertion
    order, as a [dict] keeps them. *)
Inductive Value : Type :=
| VStr (s : string)
| VInt (z : Z)
| VFloat (f : float)
| VBool (b : bool)
| VSeq (l : list Value)
| VMap (m : list (string * Value)).

Module Dict.

Definition t : Type := list (string * Value).

(** [d.get(k)]. *)
Fixpoint get {V : Type} (k : string) (d : list (string * V)) : option V :=
  match d with
  | [] => None
  | (k', v) :: d' => if String.eqb k' k then Some v else get k d'
  end.

(** [d[k] = v]: an existing key keeps its place, a new key goes last. *)
Fixpoint set (k : string) (v : Value) (d : t) : t :=
  match d with
  | [] => [(k, v)]
  | (k', v') :: d' =>
      if String.eqb k' k then (k', v) :: d' else (k', v') :: set k v d'
  end.

(** [d.update(items)]. *)
Fixpoint update (d : t) (items : list (string * Value)) : t :=
  match items with
  | [] => d
  | (k, v) :: items' => update (set k v d) items'
  end.

Definition keys (d : t) : list string := map fst d.

End Dict.

(* ================================================================== *)
(** ** Exceptions *)
(* ================================================================== *)

Inductive exn : Type :=
| UnboundLocalError (name : string)   (* a local read before assignment *)
| ValueError (literal : string)       (* int() of a text that is no number *)
| AttributeError                      (* a method looked up on the wrong type *)
| TypeError                           (* None where a text is needed *)
| KeyError (key : string).            (* d[key] of a missing key *)

Inductive result (A : Type) : Type :=
| Ok (a : A)
| Raise (e : exn).

Arguments Ok {A} a.
Arguments Raise {A} e.

Definition bind {A B : Type} (x : result A) (f : A -> result B) : result B :=
  match x with
  | Ok a => f a
  | Raise e => Raise e
  end.

Notation "x <- e ;; k" := (bind e (fun x => k))
  (at level 61, e at next level, right associativity).

(* ================================================================== *)
(** ** [Ifconfig.cli] *)
(* ================================================================== *)

Module Ifconfig.

Import Re.

Infix "@@" := Seq (at level 60, right associativity).

(** [ +] *)
Definition sp : regex := Plus (CChar " ").

(** [^(?P<interface>\S+): +flags=(?P<flags>\S+) +mtu +(?P<mtu>\d+)$] *)
Definition p1 : regex :=
  Bol @@ Group "interface" (Plus CNonSpace) @@ Lit ":" @@ sp @@
  Lit "flags=" @@ Group "flags" (Plus CNonSpace) @@ sp @@
  Lit "mtu" @@ sp @@ Group "mtu" (Plus CDigit) @@ Eol.

(** [^inet +(?P<ip>\S+) +netmask +(?P<netmask>\S+) +broadcast +(?P<broadcast>\S+)$] *)
Definition p2 : regex :=
  Bol @@ Lit "inet" @@ sp @@ Group "ip" (Plus CNonSpace) @@ sp @@
  Lit "netmask" @@ sp @@ Group "netmask" (Plus CNonSpace) @@ sp @@
  Lit "broadcast" @@ sp @@ Group "broadcast" (Plus CNonSpace) @@ Eol.

(** [^inet6 +(?P<ip>\S+) +prefixlen +(?P<prefixlen>\d+) +scopeid +(?P<scopeid>\S+)$] *)
Definition p3 : regex :=
  Bol @@ Lit "inet6" @@ sp @@ Group "ip" (Plus CNonSpace) @@ sp @@
  Lit "prefixlen" @@ sp @@ Group "prefixlen" (Plus CDigit) @@ sp @@
  Lit "scopeid" @@ sp @@ Group "scopeid" (Plus CNonSpace) @@ Eol.

(** [^(?P<type>\S+)( +(?P<mac>\S+))?( +txqueuelen +(?P<txqueuelen>\d+))? +\((?P<destription>.* )\)$]
    (the blank after [.*] is not part of the pattern) *)
Definition p4 : regex :=
  Bol @@ Group "type" (Plus CNonSpace) @@
  Opt (sp @@ Group "mac" (Plus CNonSpace)) @@
  Opt (sp @@ Lit "txqueuelen" @@ sp @@ Group "txqueuelen" (Plus CDigit)) @@
  sp @@ Lit "(" @@ Group "destription" (Star CDot) @@ Lit ")" @@ Eol.

(** [^RX +packets +(?P<rx_pkts>\d+) +bytes +(?P<rx_bytes>\d+) +\((?P<rx_value>.* )\)$]
    (the blank after [.*] is not part of the pattern) *)
Definition p5 : regex :=
  Bol @@ Lit "RX" @@ sp @@ Lit "packets" @@ sp @@
  Group "rx_pkts" (Plus CDigit) @@ sp @@ Lit "bytes" @@ sp @@
  Group "rx_bytes" (Plus CDigit) @@ sp @@
  Lit "(" @@ Group "rx_value" (Star CDot) @@ Lit ")" @@ Eol.

(** [^RX +errors +(?P<rx_errors>\d+) +dropped +(?P<rx_dropped>\d+) +overruns +(?P<rx_overruns>\d+) +frame +(?P<rx_frame>\d+)$] *)
Definition p6 : regex :=
  Bol @@ Lit "RX" @@ sp @@ Lit "errors" @@ sp @@
  Group "rx_errors" (Plus CDigit) @@ sp @@ Lit "dropped" @@ sp @@
  Group "rx_dropped" (Plus CDigit) @@ sp @@ Lit "overruns" @@ sp @@
  Group "rx_overruns" (Plus CDigit) @@ sp @@ Lit "frame" @@ sp @@
  Group "rx_frame" (Plus CDigit) @@ Eol.

(** [^TX +packets +(?P<tx_pkts>\d+) +bytes +(?P<tx_bytes>\d+) +\((?P<tx_value>.* )\)$]
    (the blank after [.*] is not part of the pattern) *)
Definition p7 : regex :=
  Bol @@ Lit "TX" @@ sp @@ Lit "packets" @@ sp @@
  Group "tx_pkts" (Plus CDigit) @@ sp @@ Lit "bytes" @@ sp @@
  Group "tx_bytes" (Plus CDigit) @@ sp @@
  Lit "(" @@ Group "tx_value" (Star CDot) @@ Lit ")" @@ Eol.

(** [^TX +errors +(?P<tx_errors>\d+) +dropped +(?P<tx_dropped>\d+) +overruns +(?P<tx_overruns>\d+) +carrier +(?P<tx_carrier>\d+) +collisions +(?P<tx_collisions>\d+)$] *)
Definition p8 : regex :=
  Bol @@ Lit "TX" @@ sp @@ Lit "errors" @@ sp @@
  Group "tx_errors" (Plus CDigit) @@ sp @@ Lit "dropped" @@ sp @@
  Group "tx_dropped" (Plus CDigit) @@ sp @@ Lit "overruns" @@ sp @@
  Group "tx_overruns" (Plus CDigit) @@ sp @@ Lit "carrier" @@ sp @@
  Group "tx_carrier" (Plus CDigit) @@ sp @@ Lit "collisions" @@ sp @@
  Group "tx_collisions" (Plus CDigit) @@ Eol.

(** [^device( +interrupt +(?P<device_interrupt>\d+))? +memory +(?P<device_memory>\S+)$] *)
Definition p9 : regex :=
  Bol @@ Lit "device" @@
  Opt (sp @@ Lit "interrupt" @@ sp @@ Group "device_interrupt" (Plus CDigit)) @@
  sp @@ Lit "memory" @@ sp @@ Group "device_memory" (Plus CNonSpace) @@ Eol.

(** The dictionary [m.groupdict()] of a match. *)
Definition groups : Type := list (string * option string).

(** [group[name]]; [None] is Python's None, the value of a group that took
    no part in the match. *)
Definition item (name : string) (group : groups) : option string :=
  match Dict.get name group with
  | Some v => v
  | None => None
  end.

(** [int(v)]. *)
Definition int_of (v : option string) : result Value :=
  match v with
  | None => Raise TypeError
  | Some s =>
      match Str.int s with
      | Some z => Ok (VInt z)
      | None => Raise (ValueError s)
      end
  end.

(** [int(v) if v.isdigit() else v]. *)
Definition int_if_digit (v : option string) : result Value :=
  match v with
  | None => Raise AttributeError
  | Some s => if Str.isdigit s then int_of v else Ok (VStr s)
  end.

(** [v] kept as it is.  The groups read this way lie outside every
    optional part of their pattern and always hold a text. *)
Definition text_of (v : option string) : result Value :=
  match v with
  | None => Raise TypeError
  | Some s => Ok (VStr s)
  end.

(** [{k: f(v) for k, v in group.items()}] *)
Fixpoint comprehension (f : option string -> result Value) (group : groups)
  : result (list (string * Value)) :=
  match group with
  | [] => Ok []
  | (k, v) :: group' =>
      x <- f v ;;
      rest <- comprehension f group' ;;
      Ok ((k, x) :: rest)
  end.

(** [d.setdefault(k, {})], read as a dictionary: the dictionary stored
    under [k], or a new empty one.  A value that is no dictionary has none
    of the methods called on the result. *)
Definition setdefault (k : string) (d : Dict.t) : result Dict.t :=
  match Dict.get k d with
  | None => Ok []
  | Some (VMap m) => Ok m
  | Some _ => Raise AttributeError
  end.

(** The locals of [cli] that live across iterations of the loop.

    [result_dict] owns every dictionary the loop creates.  A dictionary
    stored under a key is never replaced or removed, so the two references
    are kept as the place of the object they point to:
    [intf_dict = Some n] is the object [result_dict[n]] and
    [counter_dict = Some n] is the object [result_dict[n]['counters']];
    [None] is a local that is not bound yet.  A write through a reference
    is a write at that place, whichever interface the loop has reached. *)
Record locals : Type := mkLocals {
  result_dict : Dict.t;
  intf_dict : option string;
  counter_dict : option string
}.

(** The object [result_dict[n]]. *)
Definition deref (n : string) (rd : Dict.t) : result Dict.t :=
  match Dict.get n rd with
  | Some (VMap d) => Ok d
  | Some _ => Raise AttributeError
  | None => Raise (KeyError n)
  end.

(** Run [f] on the object [intf_dict] points to and store what it leaves. *)
Definition with_intf (st : locals) (f : Dict.t -> result Dict.t) : result locals :=
  match intf_dict st with
  | None => Raise (UnboundLocalError "intf_dict")
  | Some n =>
      d <- deref n (result_dict st) ;;
      d' <- f d ;;
      Ok (mkLocals (Dict.set n (VMap d') (result_dict st))
                   (intf_dict st) (counter_dict st))
  end.

(** Run [f] on the object [counter_dict] points to. *)
Definition with_counter (st : locals) (f : Dict.t -> result Dict.t) : result locals :=
  match counter_dict st with
  | None => Raise (UnboundLocalError "counter_dict")
  | Some n =>
      d <- deref n (result_dict st) ;;
      c <- deref "counters" d ;;
      c' <- f c ;;
      Ok (mkLocals (Dict.set n (VMap (Dict.set "counters" (VMap c') d)) (result_dict st))
                   (intf_dict st) (counter_dict st))
  end.

(** Lines 135-139. *)
Definition on_p1 (st : locals) (group : groups) : result locals :=
  match item "interface" group with
  | None => Raise AttributeError
  | Some interface =>
      d <- setdefault interface (result_dict st) ;;
      items <- comprehension int_if_digit group ;;
      Ok (mkLocals (Dict.set interface (VMap (Dict.update d items)) (result_dict st))
                   (Some interface) (counter_dict st))
  end.

(** Lines 144-148. *)
Definition on_p2 (st : locals) (group : groups) : result locals :=
  with_intf st (fun d =>
    match item "ip" group with
    | None => Raise TypeError
    | Some ip =>
        v4 <- setdefault "ipv4" d ;;
        ipv4_dict <- setdefault ip v4 ;;
        items <- comprehension text_of group ;;
        Ok (Dict.set "ipv4" (VMap (Dict.set ip (VMap (Dict.update ipv4_dict items)) v4)) d)
    end).

(** Lines 153-157. *)
Definition on_p3 (st : locals) (group : groups) : result locals :=
  with_intf st (fun d =>
    match item "ip" group with
    | None => Raise AttributeError
    | Some ip =>
        v6 <- setdefault "ipv6" d ;;
        ipv6_dict <- setdefault ip v6 ;;
        items <- comprehension int_if_digit group ;;
        Ok (Dict.set "ipv6" (VMap (Dict.set ip (VMap (Dict.update ipv6_dict items)) v6)) d)
    end).

(** Lines 162-173. *)
Definition on_p4 (st : locals) (group : groups) : result locals :=
  with_intf st (fun d =>
    ty <- text_of (item "type" group) ;;
    destription <- text_of (item "destription" group) ;;
    let d1 := Dict.update d [("type", ty); ("destription", destription)] in
    let mac := item "mac" group in
    let txqueuelen := item "txqueuelen" group in
    let d2 :=
      match mac with
      | Some s => if Str.truthy s then Dict.update d1 [("mac", VStr s)] else d1
      | None => d1
      end in
    match txqueuelen with
    | Some s =>
        if Str.truthy s
        then n <- int_of txqueuelen ;; Ok (Dict.update d2 [("txqueuelen", n)])
        else Ok d2
    | None => Ok d2
    end).

(** Lines 178-181.  [counter_dict] is bound to the counters of the
    interface [intf_dict] points to at this line. *)
Definition on_p5 (st : locals) (group : groups) : result locals :=
  match intf_dict st with
  | None => Raise (UnboundLocalError "intf_dict")
  | Some n =>
      d <- deref n (result_dict st) ;;
      c <- setdefault "counters" d ;;
      items <- comprehension int_if_digit group ;;
      Ok (mkLocals
            (Dict.set n (VMap (Dict.set "counters" (VMap (Dict.update c items)) d))
                      (result_dict st))
            (intf_dict st) (Some n))
  end.

(** Lines 186-188 and 200-202. *)
Definition on_p6 (st : locals) (group : groups) : result locals :=
  with_counter st (fun c =>
    items <- comprehension int_of group ;;
    Ok (Dict.update c items)).

(** Lines 193-195. *)
Definition on_p7 (st : locals) (group : groups) : result locals :=
  with_counter st (fun c =>
    items <- comprehension int_if_digit group ;;
    Ok (Dict.update c items)).

(** Lines 207-214. *)
Definition on_p9 (st : locals) (group : groups) : result locals :=
  let interrupt := item "device_interrupt" group in
  let memory := item "device_memory" group in
  st1 <-
    match interrupt with
    | Some s =>
        if Str.truthy s
        then with_intf st (fun d =>
               n <- int_of interrupt ;; Ok (Dict.update d [("device_interrupt", n)]))
        else Ok st
    | None => Ok st
    end ;;
  match memory with
  | Some s =>
      if Str.truthy s
      then with_intf st1 (fun d => Ok (Dict.update d [("device_memory", VStr s)]))
      else Ok st1
  | None => Ok st1
  end.

(** The first pattern that matches decides what the line does; a line no
    pattern matches does nothing. *)
Fixpoint dispatch (rules : list (regex * (locals -> groups -> result locals)))
         (st : locals) (line : string) : result locals :=
  match rules with
  | [] => Ok st
  | (p, action) :: rules' =>
      match rmatch p line with
      | Some m => action st (groupdict p m)
      | None => dispatch rules' st line
      end
  end.

Definition rules : list (regex * (locals -> groups -> result locals)) :=
  [ (p1, on_p1); (p2, on_p2); (p3, on_p3); (p4, on_p4); (p5, on_p5);
    (p6, on_p6); (p7, on_p7); (p8, on_p6); (p9, on_p9) ].

(** One iteration of the loop, lines 127-214. *)
Definition body (st : locals) (line : string) : result locals :=
  let line := Str.replace_tab line in
  let line := Str.strip line in
  if negb (Str.truthy line) then Ok st
  else dispatch rules st line.

Fixpoint loop (st : locals) (lines : list string) : result locals :=
  match lines with
  | [] => Ok st
  | line :: lines' => st' <- body st line ;; loop st' lines'
  end.

(** Lines 84-216: the parse of a text [out]. *)
Definition parse (out : string) : result Value :=
  st <- loop (mkLocals [] None None) (Str.splitlines out) ;;
  Ok (VMap (result_dict st)).

(** [cli_command = ['ifconfig {interface}', 'ifconfig']] *)
Definition cli_command_0 (interface : string) : string := "ifconfig " ++ interface.
Definition cli_command_1 : string := "ifconfig".

Section Device.

(** [self.device]: an object with state; [execute] runs a command on it
    and returns the text the device printed together with the state the
    device is left in. *)
Variable Device : Type.
Variable execute : Device -> string -> string * Device.

(** Lines 74-216.  [interface] and [output] are [None] when the caller
    leaves them out. *)
Definition cli (device : Device) (interface : option string) (output : option string)
  : result Value * Device :=
  let '(out, device') :=
    match output with
    | None =>
        let cmd :=
          match interface with
          | Some i => if Str.truthy i then cli_command_0 i else cli_command_1
          | None => cli_command_1
          end in
        execute device cmd
    | Some o => (o, device)
    end in
  (parse out, device').

End Device.

End Ifconfig.

(* ================================================================== *)
(** ** The schema engine *)
(* ================================================================== *)

(** The parsers import [Schema], [Any] and [Optional] from
    [genie.metaparser.util.schemaengine], which is not among the sources;
    the descriptor model and the validation below follow the
    specification of the engine. *)
Module Schema.

Inductive ScalarKind : Type := KString | KInt | KFloat | KBool.

Inductive Shape : Type :=
| SScalar (k : ScalarKind)
| SSequence
| SMapping.

Definition shape_of (v : Value) : Shape :=
  match v with
  | VStr _ => SScalar KString
  | VInt _ => SScalar KInt
  | VFloat _ => SScalar KFloat
  | VBool _ => SScalar KBool
  | VSeq _ => SSequence
  | VMap _ => SMapping
  end.

Definition kind_eqb (a b : ScalarKind) : bool :=
  match a, b with
  | KString, KString | KInt, KInt | KFloat, KFloat | KBool, KBool => true
  | _, _ => false
  end.

Definition has_kind (k : ScalarKind) (v : Value) : bool :=
  match shape_of v with
  | SScalar k' => kind_eqb k k'
  | _ => false
  end.

(** Modelled from the spec: the key matchers of a mapping descriptor
    ([Optional] and [Any] of the missing engine module). *)
Inductive KeyMatcher : Type :=
| Literal (name : string)
| Optional (name : string)
| Wildcard.

(** Modelled from the spec: the schema descriptor; a key spec of
    [MappingOf] is the triple (matcher, value descriptor, required). *)
Inductive Descriptor : Type :=
| ScalarType (kind : ScalarKind)
| SequenceOf (element : Descriptor)
| MappingOf (keySpecs : list (KeyMatcher * Descriptor * bool)).

Inductive Seg : Type :=
| Key (name : string)
| Index (i : nat).

Definition Path : Type := list Seg.

(** Modelled from the spec: the error model. *)
Inductive PathError : Type :=
| TypeMismatch (path : Path) (expected : ScalarKind) (actual : Shape)
| ShapeMismatch (path : Path) (expected : Shape)
| MissingRequiredKey (path : Path) (name : string)
| UnexpectedKey (path : Path) (name : string).

Record ValidationResult : Type := mkResult {
  ok : bool;
  errors : list PathError
}.

(** The dot/bracket-qualified text of a path. *)
Definition seg_string (first : bool) (s : Seg) : string :=
  match s with
  | Key name => if first then name else "." ++ name
  | Index i => "[" ++ NilEmpty.string_of_uint (Nat.to_uint i) ++ "]"
  end.

Fixpoint path_tail (p : Path) : string :=
  match p with
  | [] => ""
  | s :: p' => seg_string false s ++ path_tail p'
  end.

Definition path_string (p : Path) : string :=
  match p with
  | [] => ""
  | s :: p' => seg_string true s ++ path_tail p'
  end.

(** A validator of one node: the errors found below [path]. *)
Definition checker : Type := Path -> Value -> list PathError.

Definition matcher_name (k : KeyMatcher) : option string :=
  match k with
  | Literal name | Optional name => Some name
  | Wildcard => None
  end.

Section KeyResolution.

(** One mapping level: the key specs with the validator of each value
    descriptor, the path of the mapping and its items. *)
Variable specs : list (KeyMatcher * checker).
Variable path : Path.
Variable m : Dict.t.

(** Steps 1 and 2, in the order of the key specs. *)
Fixpoint declared (l : list (KeyMatcher * checker)) : list PathError :=
  match l with
  | [] => []
  | (Literal name, chk) :: l' =>
      match Dict.get name m with
      | Some v => chk (path ++ [Key name]) v
      | None => [MissingRequiredKey path name]
      end ++ declared l'
  | (Optional name, chk) :: l' =>
      match Dict.get name m with
      | Some v => chk (path ++ [Key name]) v
      | None => []
      end ++ declared l'
  | (Wildcard, _) :: l' => declared l'
  end.

(** A key is claimed when a Literal or Optional spec names it. *)
Fixpoint claimed (l : list (KeyMatcher * checker)) (k : string) : bool :=
  match l with
  | [] => false
  | (km, _) :: l' =>
      match matcher_name km with
      | Some name => (String.eqb name k || claimed l' k)%bool
      | None => claimed l' k
      end
  end.

Fixpoint wildcard (l : list (KeyMatcher * checker)) : option checker :=
  match l with
  | [] => None
  | (Wildcard, chk) :: _ => Some chk
  | _ :: l' => wildcard l'
  end.

(** Step 3, in the order of the value. *)
Fixpoint leftover (items : Dict.t) : list PathError :=
  match items with
  | [] => []
  | (k, v) :: items' =>
      (if claimed specs k then []
       else match wildcard specs with
            | Some chk => chk (path ++ [Key k]) v
            | None => [UnexpectedKey path k]
            end) ++ leftover items'
  end.

Definition resolve : list PathError := declared specs ++ leftover m.

End KeyResolution.

Fixpoint elements (chk : checker) (path : Path) (i : nat) (l : list Value)
  : list PathError :=
  match l with
  | [] => []
  | v :: l' => chk (path ++ [Index i]) v ++ elements chk path (S i) l'
  end.

(** Modelled from the spec: the Matcher Engine, recursive descent on
    the descriptor. *)
Fixpoint check (d : Descriptor) : checker :=
  match d with
  | ScalarType kind => fun path v =>
      if has_kind kind v then [] else [TypeMismatch path kind (shape_of v)]
  | SequenceOf element => fun path v =>
      match v with
      | VSeq l => elements (check element) path 0 l
      | _ => [ShapeMismatch path SSequence]
      end
  | MappingOf keySpecs => fun path v =>
      match v with
      | VMap m =>
          resolve (map (fun spec => (fst (fst spec), check (snd (fst spec)))) keySpecs)
                  path m
      | _ => [ShapeMismatch path SMapping]
      end
  end.

(** Modelled from the spec: [validate(v, d)]. *)
Definition validate (v : Value) (d : Descriptor) : ValidationResult :=
  let errs := check d [] v in
  mkResult (match errs with [] => true | _ => false end) errs.

(** The construction invariants of a descriptor: at most one wildcard
    per mapping level, Literal and Optional names unique per level. *)
Fixpoint wildcards (l : list (KeyMatcher * Descriptor * bool)) : nat :=
  match l with
  | [] => 0
  | (Wildcard, _, _) :: l' => S (wildcards l')
  | _ :: l' => wildcards l'
  end.

Fixpoint names (l : list (KeyMatcher * Descriptor * bool)) : list string :=
  match l with
  | [] => []
  | (km, _, _) :: l' =>
      match matcher_name km with
      | Some name => name :: names l'
      | None => names l'
      end
  end.

Fixpoint unique (l : list string) : bool :=
  match l with
  | [] => true
  | x :: l' => (negb (existsb (String.eqb x) l') && unique l')%bool
  end.

Fixpoint well_formed (d : Descriptor) : bool :=
  match d with
  | ScalarType _ => true
  | SequenceOf element => well_formed element
  | MappingOf keySpecs =>
      (Nat.leb (wildcards keySpecs) 1 && unique (names keySpecs) &&
       forallb (fun spec => well_formed (snd (fst spec))) keySpecs)%bool
  end.

(** The mapping levels of a descriptor: the key specs of every
    [MappingOf] in it, the outermost first. *)
Fixpoint levels (d : Descriptor) : list (list (KeyMatcher * Descriptor * bool)) :=
  match d with
  | ScalarType _ => []
  | SequenceOf element => levels element
  | MappingOf keySpecs =>
      keySpecs :: flat_map (fun spec => levels (snd (fst spec))) keySpecs
  end.

Definition level_ok (l : list (KeyMatcher * Descriptor * bool)) : bool :=
  (Nat.leb (wildcards l) 1 && unique (names l))%bool.

(** The names a descriptor declares with the leaf [int], in the order
    of the descriptor. *)
Fixpoint declared_int (d : Descriptor) : list string :=
  match d with
  | ScalarType _ => []
  | SequenceOf element => declared_int element
  | MappingOf keySpecs =>
      flat_map
        (fun spec =>
           match snd (fst spec), matcher_name (fst (fst spec)) with
           | ScalarType KInt, Some name => [name]
           | _, _ => declared_int (snd (fst spec))
           end) keySpecs
  end.

(** What a key of a mapping is paired with: the entry of the Literal or
    Optional spec that names it, else the entry of the wildcard. *)
Fixpoint named {X : Type} (l : list (KeyMatcher * X)) (k : string) : option X :=
  match l with
  | [] => None
  | (km, x) :: l' =>
      match matcher_name km with
      | Some name => if String.eqb name k then Some x else named l' k
      | None => named l' k
      end
  end.

Fixpoint wild {X : Type} (l : list (KeyMatcher * X)) : option X :=
  match l with
  | [] => None
  | (Wildcard, x) :: _ => Some x
  | _ :: l' => wild l'
  end.

Definition select {X : Type} (l : list (KeyMatcher * X)) (k : string) : option X :=
  match named l k with
  | Some x => Some x
  | None => wild l
  end.

(** The descriptor the value under key [k] is validated against. *)
Definition descriptor_of (l : list (KeyMatcher * Descriptor * bool)) (k : string)
  : option Descriptor :=
  select (map fst l) k.

Definition is_int (v : Value) : bool :=
  match v with
  | VInt _ => true
  | _ => false
  end.

(** [ints_stored d v]: wherever the descriptor [d] declares [int], the
    value [v] holds an integer, and every mapping or sequence of [d] on
    the way to such a place is a mapping or a sequence in [v].  Leaves
    declared with another kind are not looked at. *)
Fixpoint ints_stored (d : Descriptor) : Value -> bool :=
  match d with
  | ScalarType kind => fun v =>
      match kind with
      | KInt => is_int v
      | _ => true
      end
  | SequenceOf element => fun v =>
      match v with
      | VSeq l => forallb (ints_stored element) l
      | _ => false
      end
  | MappingOf keySpecs => fun v =>
      match v with
      | VMap m =>
          forallb
            (fun kv =>
               match select (map (fun spec => (fst (fst spec),
                                               ints_stored (snd (fst spec))))
                                 keySpecs) (fst kv) with
               | Some chk => chk (snd kv)
               | None => true
               end) m
      | _ => false
      end
  end.

(** How the parsers write a descriptor: [str] and [int] leaves, a [dict]
    whose keys are plain names, [Optional(name)] or [Any()]. *)
Definition str : Descriptor := ScalarType KString.
Definition int : Descriptor := ScalarType KInt.
Definition key (name : string) (d : Descriptor) : KeyMatcher * Descriptor * bool :=
  (Literal name, d, true).
Definition optional (name : string) (d : Descriptor) : KeyMatcher * Descriptor * bool :=
  (Optional name, d, false).
Definition any (d : Descriptor) : KeyMatcher * Descriptor * bool :=
  (Wildcard, d, false).

End Schema.

(* ================================================================== *)
(** ** The schemas the two parsers declare *)
(* ================================================================== *)

Module IfconfigSchema.

Import Schema.

(** Lines 44-60. *)
Definition counters : Descriptor :=
  MappingOf
    [ key "rx_pkts" int; key "rx_bytes" int; key "rx_value" str;
      key "rx_errors" int; key "rx_dropped" int; key "rx_overruns" int;
      key "rx_frame" int; key "tx_pkts" int; key "tx_bytes" int;
      key "tx_value" str; key "tx_errors" int; key "tx_dropped" int;
      key "tx_overruns" int; key "tx_carrier" int; key "tx_collisions" int ].

(** Lines 26-32. *)
Definition ipv4 : Descriptor :=
  MappingOf
    [ any (MappingOf [ key "ip" str; key "netmask" str; key "broadcast" str ]) ].

(** Lines 33-39. *)
Definition ipv6 : Descriptor :=
  MappingOf
    [ any (MappingOf [ key "ip" str; key "prefixlen" int; key "scopeid" str ]) ].

(** Lines 22-63: the descriptor of one interface. *)
Definition interface : Descriptor :=
  MappingOf
    [ key "interface" str;
      key "flags" str;
      key "mtu" int;
      optional "ipv4" ipv4;
      optional "ipv6" ipv6;
      key "type" str;
      optional "txqueuelen" int;
      optional "mac" str;
      key "destription" str;
      key "counters" counters;
      optional "device_interrupt" int;
      optional "device_memory" str ].

(** Lines 21-64. *)
Definition schema : Descriptor := MappingOf [ any interface ].

End IfconfigSchema.

Module AnalyticsAsmbypassReportresultsSchema.

(** Line 15: [schema = {}]. *)
Definition schema : Schema.Descriptor := Schema.MappingOf [].

End AnalyticsAsmbypassReportresultsSchema.

(* ================================================================== *)
(** ** [AnalyticsAsmbypassReportresults.rest] *)
(* ================================================================== *)

Module AnalyticsAsmbypassReportresults.

(** What [response.json()] can return. *)
Inductive Json : Type :=
| JNull
| JBool (b : bool)
| JInt (z : Z)
| JFloat (f : float)
| JStr (s : string)
| JList (l : list Json)
| JDict (m : list (string * Json)).

(** [bool(x)]. *)
Definition truthy (x : Json) : bool :=
  match x with
  | JNull => false
  | JBool b => b
  | JInt z => negb (Z.eqb z 0)
  | JFloat f => negb (PrimFloat.eqb f PrimFloat.zero)
  | JStr s => Str.truthy s
  | JList l => match l with [] => false | _ => true end
  | JDict m => match m with [] => false | _ => true end
  end.

Definition cli_command : string := "/mgmt/tm/analytics/asm-bypass/report-results".

Section Device.

(** [self.device.get(url).json()]: the decoded answer of the device. *)
Variable Device : Type.
Variable get_json : Device -> string -> Json.

(** Lines 24-33. *)
Definition rest (device : Device) : Json :=
  let response_json := get_json device cli_command in
  if negb (truthy response_json) then JDict []
  else response_json.

End Device.

End AnalyticsAsmbypassReportresults.

(* ================================================================== *)
(** ** Vocabulary of the properties *)
(* ================================================================== *)

Import Re Ifconfig Schema.

(** The names of the fields [IfconfigSchema] declares as [int]. *)
Definition int_fields : list string := declared_int IfconfigSchema.schema.

Definition is_int_field (n : string) : bool := existsb (String.eqb n) int_fields.

(** A non-empty text of decimal digits. *)
Definition decimal (v : string) : bool :=
  (Str.truthy v && Str.all Char.isdecimal v)%bool.

(** [int] takes a text of this length: no more digits than the limit. *)
Definition within_limit (v : string) : bool :=
  N.leb (N.of_nat (String.length v)) Str.int_max_str_digits.

(** The pattern [\d+]. *)
Definition is_digits (r : regex) : bool :=
  match r with
  | Plus CDigit => true
  | _ => false
  end.

(** Every group of [r] named after an [int] field is [\d+]. *)
Fixpoint digit_groups (r : regex) : bool :=
  match r with
  | Seq r1 r2 => (digit_groups r1 && digit_groups r2)%bool
  | Opt r1 => digit_groups r1
  | Group name r1 =>
      ((if is_int_field name then is_digits r1 else true) && digit_groups r1)%bool
  | _ => true
  end.

(** The marks of the groups named after an [int] field hold decimal
    digits. *)
Definition digit_marks (g : marks) : Prop :=
  forall n v, get n g = Some v -> is_int_field n = true -> decimal v = true.

(** One item of a mapping against the key specs of its level. *)
Definition entry_ok (specs : list (KeyMatcher * Descriptor * bool))
           (kv : string * Value) : bool :=
  match descriptor_of specs (fst kv) with
  | Some d => ints_stored d (snd kv)
  | None => true
  end.

(** The invariant of the loop: the [int] fields of the dictionary built
    so far are integers. *)
Definition stored (st : locals) : Prop :=
  ints_stored IfconfigSchema.schema (VMap (result_dict st)) = true.

(** The value under [k], when there is one, is an integer. *)
Definition int_at (d : Dict.t) (k : string) : Prop :=
  forall x, Dict.get k d = Some x -> exists z, x = VInt z.

(** The [int] fields of [IfconfigSchema], place by place: in the record
    of every interface [mtu], [txqueuelen] and [device_interrupt]; in
    every entry of its [ipv6] mapping [prefixlen]; in its [counters]
    mapping the thirteen packet, byte and error counts. *)
Definition int_fields_are_integers (res : Value) : Prop :=
  exists rd, res = VMap rd /\
  forall n rec, Dict.get n rd = Some rec ->
  exists d, rec = VMap d /\
    Forall (int_at d) ["mtu"; "txqueuelen"; "device_interrupt"] /\
    (forall v6, Dict.get "ipv6" d = Some v6 ->
       exists m6, v6 = VMap m6 /\
       forall ip e, Dict.get ip m6 = Some e ->
         exists em, e = VMap em /\ int_at em "prefixlen") /\
    (forall c, Dict.get "counters" d = Some c ->
       exists cm, c = VMap cm /\
       Forall (int_at cm)
         ["rx_pkts"; "rx_bytes"; "rx_errors"; "rx_dropped"; "rx_overruns";
          "rx_frame"; "tx_pkts"; "tx_bytes"; "tx_errors"; "tx_dropped";
          "tx_overruns"; "tx_carrier"; "tx_collisions"]).

(** The exceptions [cli] can raise on a text. *)
Definition expected (e : exn) : Prop :=
  e = UnboundLocalError "intf_dict" \/
  e = UnboundLocalError "counter_dict" \/
  exists s, e = ValueError s.

(** A step that raises none but those. *)
Definition safe {A : Type} (x : result A) : Prop :=
  forall e, x = Raise e -> expected e.

(** The groups of [r] outside every optional part. *)
Fixpoint sure (r : regex) : list string :=
  match r with
  | Seq r1 r2 => sure r1 ++ sure r2
  | Group name r1 => name :: sure r1
  | _ => []
  end.

(** [intf_dict = Some n]: [result_dict[n]] is a dictionary. *)
Definition intf_ok (rd : Dict.t) (n : string) : Prop :=
  exists d, Dict.get n rd = Some (VMap d).

(** [counter_dict = Some n]: [result_dict[n]['counters']] is a dictionary. *)
Definition counter_ok (rd : Dict.t) (n : string) : Prop :=
  exists d c, Dict.get n rd = Some (VMap d) /\ Dict.get "counters" d = Some (VMap c).

(** The two references of the loop point to dictionaries. *)
Definition refs_valid (st : locals) : Prop :=
  (forall n, intf_dict st = Some n -> intf_ok (result_dict st) n) /\
  (forall n, counter_dict st = Some n -> counter_ok (result_dict st) n).

(** [d'] still has a dictionary under [counters] when [d] has one. *)
Definition keeps (d d' : Dict.t) : Prop :=
  forall c, Dict.get "counters" d = Some (VMap c) ->
            exists c', Dict.get "counters" d' = Some (VMap c').

(** The interface a line is the header of. *)
Definition header_name (line : string) : option string :=
  match rmatch p1 (Str.strip (Str.replace_tab line)) with
  | Some m => get "interface" m
  | None => None
  end.

(** A line that changes nothing: blank, or matched by no pattern. *)
Definition inert (line : string) : Prop := forall st, body st line = Ok st.

(** The loop left the record of [n] as it was and points to it by
    neither reference. *)
Definition apart (n : string) (st st' : locals) : Prop :=
  Dict.get n (result_dict st') = Dict.get n (result_dict st) /\
  intf_dict st' <> Some n /\ counter_dict st' <> Some n.

(** The text made of the given lines. *)
Definition unlines (lines : list string) : string :=
  String.concat (String Char.LF EmptyString) lines.

(** The two type lines of C10. *)
Definition loop_line : string := "loop  txqueuelen 1000  (Local Loopback)".
Definition ether_line : string := "ether 00:50:b6:ff:4b:83  (Ethernet)".

(** An interface with an [ipv6] address, a type line and counters, and
    the dictionary [cli] returns for it. *)
Definition eth0_lines : list string :=
  [ "eth0: flags=4163<UP,BROADCAST,RUNNING,MULTICAST>  mtu 1500";
    "        inet6 fe80::39:1a5c:726d:b23e  prefixlen 64  scopeid 0x20<link>";
    "        ether 48:2a:e3:ff:58:55  txqueuelen 1000  (Ethernet)";
    "        RX packets 66766  bytes 4274334 (4.0 MiB)" ].

Definition eth0_result : Value :=
  VMap [("eth0",
         VMap [("interface", VStr "eth0");
               ("flags", VStr "4163<UP,BROADCAST,RUNNING,MULTICAST>");
               ("mtu", VInt 1500);
               ("ipv6", VMap [("fe80::39:1a5c:726d:b23e",
                               VMap [("ip", VStr "fe80::39:1a5c:726d:b23e");
                                     ("prefixlen", VInt 64);
                                     ("scopeid", VStr "0x20<link>")])]);
               ("type", VStr "ether");
               ("destription", VStr "Ethernet");
               ("mac", VStr "48:2a:e3:ff:58:55");
               ("txqueuelen", VInt 1000);
               ("counters", VMap [("rx_pkts", VInt 66766);
                                  ("rx_bytes", VInt 4274334);
                                  ("rx_value", VStr "4.0 MiB")])])].

(** The first pattern of the loop that matches [l], as [dispatch] finds
    it, with the marks of the match. *)
Fixpoint first_match (rs : list (regex * (locals -> groups -> result locals)))
         (l : string) : option (regex * marks) :=
  match rs with
  | [] => None
  | (p, _) :: rs' =>
      match rmatch p l with
      | Some m => Some (p, m)
      | None => first_match rs' l
      end
  end.

(** The dictionary [d] holds under [k], when it holds one there. *)
Definition sub (k : string) (d : Dict.t) : option Dict.t :=
  match Dict.get k d with
  | Some (VMap m) => Some m
  | _ => None
  end.

(** The [int] fields the schema puts in the record of an interface. *)
Definition record_field (k : string) : bool :=
  existsb (String.eqb k) ["mtu"; "txqueuelen"; "device_interrupt"].

(** The dictionary of [rd] the schema puts the [int] field [k] of the
    interface [n] in: the record of [n]; for [prefixlen] the entry of the
    address [ip] in its [ipv6] mapping; for the counts its [counters]. *)
Definition holder (k : string) (ip : option string) (n : string) (rd : Dict.t)
  : option Dict.t :=
  match sub n rd with
  | None => None
  | Some d =>
      if record_field k then Some d
      else if String.eqb k "prefixlen" then
        match sub "ipv6" d, ip with
        | Some v6, Some a => sub a v6
        | _, _ => None
        end
      else sub "counters" d
  end.

(** The reference the loop writes the [int] field [k] through:
    [counter_dict] for the counts, [intf_dict] for the others. *)
Definition reference (k : string) (st : locals) : option string :=
  if (record_field k || String.eqb k "prefixlen")%bool
  then intf_dict st
  else counter_dict st.

(** The conclusion of the step lemmas: after the line the dictionary the
    schema puts [k] in, reached through the reference of [k], holds the
    integer of the text [v]. *)
Definition written (k v : string) (m : marks) (st' : locals) : Prop :=
  exists z n d,
    Str.int v = Some z /\ reference k st' = Some n /\
    holder k (get "ip" m) n (result_dict st') = Some d /\
    Dict.get k d = Some (VInt z).

(** [c'] has every key of [c]. *)
Definition keys_kept (c c' : Dict.t) : Prop :=
  forall k, Dict.get k c <> None -> Dict.get k c' <> None.

(** The record [d'] has what the record [d] has: its keys, its counters
    with their keys, and the entries of its [ipv6] mapping with their
    keys. *)
Definition record_kept (d d' : Dict.t) : Prop :=
  keys_kept d d' /\
  (forall c, sub "counters" d = Some c ->
     exists c', sub "counters" d' = Some c' /\ keys_kept c c') /\
  (forall v6, sub "ipv6" d = Some v6 ->
     exists v6', sub "ipv6" d' = Some v6' /\
       forall ip e, sub ip v6 = Some e ->
         exists e', sub ip v6' = Some e' /\ keys_kept e e').

(** [rd'] has the records of [rd] and what they have. *)
Definition records_kept (rd rd' : Dict.t) : Prop :=
  forall n d, sub n rd = Some d ->
    exists d', sub n rd' = Some d' /\ record_kept d d'.

(** The dictionary of [rd] the schema puts the field [k] of the
    interface [n] in holds a value under [k]. *)
Definition present (k : string) (ip : option string) (n : string) (rd : Dict.t) : Prop :=
  exists d x, holder k ip n rd = Some d /\ Dict.get k d = Some x.

(** ** Vocabulary of the further properties *)

(** [k] put last unless it is there already. *)
Definition add_new (k : string) (l : list string) : list string :=
  if existsb (String.eqb k) l then l else l ++ [k].

(** The interfaces named by the header lines of [lines], each once, in
    the order of their first header, after the names [seen]. *)
Fixpoint header_names (seen : list string) (lines : list string) : list string :=
  match lines with
  | [] => seen
  | l :: lines' =>
      header_names
        match header_name l with
        | Some n => add_new n seen
        | None => seen
        end lines'
  end.

(** A text of blanks: every character satisfies [str.isspace]. *)
Definition blank (w : string) : bool := Str.all Char.isspace w.

(** A character of ASCII: a code point below U+0080. *)
Definition ascii_char (c : ascii) : bool := N.ltb (Char.code c) 128.

(** [s.isascii()]. *)
Definition isascii (s : string) : bool := Str.all ascii_char s.

(** The number of decimal digits in [s]. *)
Fixpoint digits (s : string) : nat :=
  match s with
  | EmptyString => 0
  | String c s' => (if Char.isdecimal c then 1 else 0) + digits s'
  end.

(** A line with no more decimal digits, all counted, than [int] takes. *)
Definition few_digits (line : string) : bool :=
  N.leb (N.of_nat (digits line)) Str.int_max_str_digits.

(** No mark has more than [n] decimal digits. *)
Definition marks_digits (n : nat) (g : marks) : Prop :=
  forall k v, get k g = Some v -> digits v <= n.

(** Every mark is a text of characters in [P]. *)
Definition marks_all (P : ascii -> bool) (g : marks) : Prop :=
  forall n v, get n g = Some v -> Str.all P v = true.

(** [r] has the form [cs+]. *)
Definition is_plus (r : regex) : bool :=
  match r with
  | Plus _ => true
  | _ => false
  end.

(** Every group of [r] whose name is in [F] has the form [cs+]. *)
Fixpoint plus_groups (F : string -> bool) (r : regex) : bool :=
  match r with
  | Seq r1 r2 => (plus_groups F r1 && plus_groups F r2)%bool
  | Opt r1 => plus_groups F r1
  | Group name r1 =>
      ((if F name then is_plus r1 else true) && plus_groups F r1)%bool
  | _ => true
  end.

(** The marks of the groups named in [F] are not empty. *)
Definition marks_truthy (F : string -> bool) (g : marks) : Prop :=
  forall n v, get n g = Some v -> F n = true -> Str.truthy v = true.

(** A reference that has been assigned, a match that is not [None]. *)
Definition bound {A : Type} (o : option A) : bool :=
  match o with
  | Some _ => true
  | None => false
  end.

(** [p.match(l)] is truthy. *)
Definition matches (p : regex) (l : string) : bool := bound (rmatch p l).

(** What a line does to the two references: with [intf] and [counter]
    telling whether [intf_dict] and [counter_dict] are bound before the
    line, [scan] gives the same after it, or [None] when the line reads a
    reference that is not bound. *)
Definition scan (intf counter : bool) (line : string) : option (bool * bool) :=
  let l := Str.strip (Str.replace_tab line) in
  if negb (Str.truthy l) then Some (intf, counter)
  else if matches p1 l then Some (true, counter)
  else if (matches p2 l || matches p3 l || matches p4 l)%bool then
    if intf then Some (intf, counter) else None
  else if matches p5 l then
    if intf then Some (intf, true) else None
  else if (matches p6 l || matches p7 l || matches p8 l)%bool then
    if counter then Some (intf, counter) else None
  else if matches p9 l then
    if intf then Some (intf, counter) else None
  else Some (intf, counter).

(** Every line finds the references it reads bound: a header comes
    before the first detail line, an [RX packets] line before the first
    [RX errors], [TX packets] or [TX errors] line. *)
Fixpoint ordered (intf counter : bool) (lines : list string) : bool :=
  match lines with
  | [] => true
  | line :: lines' =>
      match scan intf counter line with
      | Some (i, c) => ordered i c lines'
      | None => false
      end
  end.

(** The record [d] of the interface [n] holds what a header line of [n]
    stores: its own name under [interface] (as an integer when the name
    is made of digits), a value under [flags] and an integer under
    [mtu]. *)
Definition header_fields (n : string) (d : Dict.t) : Prop :=
  (exists x, int_if_digit (Some n) = Ok x /\ Dict.get "interface" d = Some x) /\
  (exists f, Dict.get "flags" d = Some f) /\
  (exists z, Dict.get "mtu" d = Some (VInt z)).

(** The entry [e] stored under the address [ip] of an [ipv4] mapping:
    the three fields of an [inet] line, kept as texts, [ip] being the
    address itself. *)
Definition ipv4_entry (ip : string) (e : Dict.t) : Prop :=
  Dict.get "ip" e = Some (VStr ip) /\
  (exists nm, Dict.get "netmask" e = Some (VStr nm)) /\
  (exists bc, Dict.get "broadcast" e = Some (VStr bc)).

(** The entry [e] stored under the address [ip] of an [ipv6] mapping:
    the three fields of an [inet6] line, [ip] being the address itself
    (as an integer when it is made of digits). *)
Definition ipv6_entry (ip : string) (e : Dict.t) : Prop :=
  (exists x, int_if_digit (Some ip) = Ok x /\ Dict.get "ip" e = Some x) /\
  (exists z, Dict.get "prefixlen" e = Some (VInt z)) /\
  (exists s, Dict.get "scopeid" e = Some s).

(** Whatever [m] holds under an address is a dictionary with [Q]. *)
Definition all_entries (Q : string -> Dict.t -> Prop) (m : Dict.t) : Prop :=
  forall ip x, Dict.get ip m = Some x -> exists e, x = VMap e /\ Q ip e.

(** Whatever [d] holds under [key] is a mapping of addresses to
    dictionaries with [Q]. *)
Definition entries (Q : string -> Dict.t -> Prop) (key : string) (d : Dict.t) : Prop :=
  forall v, Dict.get key d = Some v -> exists m, v = VMap m /\ all_entries Q m.

(** What the loop keeps true of the record of every interface. *)
Definition record_ok (n : string) (d : Dict.t) : Prop :=
  header_fields n d /\ entries ipv4_entry "ipv4" d /\ entries ipv6_entry "ipv6" d.

(** Every value of [rd] is such a record. *)
Definition records_ok (rd : Dict.t) : Prop :=
  forall n v, Dict.get n rd = Some v -> exists d, v = VMap d /\ record_ok n d.

(** [d'] has under the keys of [record_ok] what [d] has. *)
Definition same_fields (d d' : Dict.t) : Prop :=
  forall k, In k ["interface"; "flags"; "mtu"; "ipv4"; "ipv6"] ->
            Dict.get k d' = Dict.get k d.

(** A line the loop handles in the [RX errors], [TX packets] or
    [TX errors] branch: not blank, matched by none of [p1] to [p5] and
    matched by [p6], [p7] or [p8]. *)
Definition counter_line (line : string) : bool :=
  let l := Str.strip (Str.replace_tab line) in
  (Str.truthy l &&
   negb (matches p1 l) && negb (matches p2 l) && negb (matches p3 l) &&
   negb (matches p4 l) && negb (matches p5 l) &&
   (matches p6 l || matches p7 l || matches p8 l))%bool.

(** Two interfaces, the first with an [inet] line, the second with an
    [inet6] line, and the dictionary [cli] returns for them. *)
Definition two_lines : list string :=
  [ "eth0: flags=4163<UP,BROADCAST>  mtu 1500";
    "        inet 10.0.0.5  netmask 255.255.255.0  broadcast 10.0.0.255";
    "lo: flags=73<UP,LOOPBACK,RUNNING>  mtu 65536";
    "        inet6 ::1  prefixlen 128  scopeid 0x10<host>" ].

Definition two_result : Value :=
  VMap [("eth0",
         VMap [("interface", VStr "eth0");
               ("flags", VStr "4163<UP,BROADCAST>");
               ("mtu", VInt 1500);
               ("ipv4", VMap [("10.0.0.5",
                               VMap [("ip", VStr "10.0.0.5");
                                     ("netmask", VStr "255.255.255.0");
                                     ("broadcast", VStr "10.0.0.255")])])]);
        ("lo",
         VMap [("interface", VStr "lo");
               ("flags", VStr "73<UP,LOOPBACK,RUNNING>");
               ("mtu", VInt 65536);
               ("ipv6", VMap [("::1",
                               VMap [("ip", VStr "::1");
                                     ("prefixlen", VInt 128);
                                     ("scopeid", VStr "0x10<host>")])])])].

(** The state after the header and the [RX packets] line of [eth0] and
    the header of [lo]: [intf_dict] points to [lo], [counter_dict] still
    to [eth0]. *)
Definition stale_state : locals :=
  mkLocals
    [("eth0", VMap [("interface", VStr "eth0"); ("flags", VStr "4163<UP>");
                    ("mtu", VInt 1500);
                    ("counters", VMap [("rx_pkts", VInt 66766);
                                       ("rx_bytes", VInt 4274334);
                                       ("rx_value", VStr "4.0 MiB")])]);
     ("lo", VMap [("interface", VStr "lo"); ("flags", VStr "73<UP>");
                  ("mtu", VInt 65536)])]
    (Some "lo") (Some "eth0").

(** An [RX errors] line, and the state it leaves: the counters went to
    [eth0]. *)
Definition rx_errors_line : string :=
  "        RX errors 0  dropped 0  overruns 0  frame 7".

Definition stale_state_after : locals :=
  mkLocals
    [("eth0", VMap [("interface", VStr "eth0"); ("flags", VStr "4163<UP>");
                    ("mtu", VInt 1500);
                    ("counters", VMap [("rx_pkts", VInt 66766);
                                       ("rx_bytes", VInt 4274334);
                                       ("rx_value", VStr "4.0 MiB");
                                       ("rx_errors", VInt 0);
                                       ("rx_dropped", VInt 0);
                                       ("rx_overruns", VInt 0);
                                       ("rx_frame", VInt 7)])]);
     ("lo", VMap [("interface", VStr "lo"); ("flags", VStr "73<UP>");
                  ("mtu", VInt 65536)])]
    (Some "lo") (Some "eth0").



(** An interface with a header line only, followed by another one, and
    the dictionary [cli] returns for them. *)
Definition bare_lines : list string :=
  [ "eth0: flags=4163<UP,BROADCAST>  mtu 1500"; "";
    "lo: flags=73<UP,LOOPBACK,RUNNING>  mtu 65536";
    "        inet6 ::1  prefixlen 128  scopeid 0x10<host>" ].

Definition bare_result : Value :=
  VMap [("eth0", VMap [("interface", VStr "eth0");
                       ("flags", VStr "4163<UP,BROADCAST>");
                       ("mtu", VInt 1500)]);
        ("lo", VMap [("interface", VStr "lo");
                     ("flags", VStr "73<UP,LOOPBACK,RUNNING>");
                     ("mtu", VInt 65536);
                     ("ipv6", VMap [("::1", VMap [("ip", VStr "::1");
                                                  ("prefixlen", VInt 128);
                                                  ("scopeid", VStr "0x10<host>")])])])].

(** A device that is never asked: the text is given. *)
Definition no_device : unit -> string -> string * unit := fun d _ => (EmptyString, d).

(** What the loop looks at in a line: the line after
    [line.replace('\t', '    ')] and [line.strip()]. *)
Definition normal (line : string) : string := Str.strip (Str.replace_tab line).

(** A line the loop acts on: not blank, and matched by one of the nine
    patterns. *)
Definition recognised (line : string) : bool :=
  (Str.truthy (normal line) &&
   existsb (fun rule => matches (fst rule) (normal line)) rules)%bool.

(** The same text with an indentation of tabs, a line no pattern matches
    and an empty line. *)
Definition noisy_lines : list string :=
  [ "eth0: flags=4163<UP,BROADCAST>  mtu 1500";
    String Char.TAB "inet 10.0.0.5  netmask 255.255.255.0  broadcast 10.0.0.255";
    "        unspec 00-00-00-00  (UNSPEC)  extra";
    "";
    "lo: flags=73<UP,LOOPBACK,RUNNING>  mtu 65536   ";
    "  inet6 ::1  prefixlen 128  scopeid 0x10<host>" ].

(** What the update of a counters dictionary [c] with the groups of the
    match [m] of [p] leaves in [c']: under the name of every group the
    text of the group, as an integer when it is made of digits, and under
    every other key what [c] has. *)
Definition updated (p : regex) (m : marks) (c c' : Dict.t) : Prop :=
  (forall k, In k (group_names p) ->
     exists v x, get k m = Some v /\ int_if_digit (Some v) = Ok x /\
                 Dict.get k c' = Some x /\
                 (is_int_field k = true -> exists z, Str.int v = Some z /\ x = VInt z)) /\
  (forall k, ~ In k (group_names p) -> Dict.get k c' = Dict.get k c).

(* ================================================================== *)
(** * Properties *)
(* ================================================================== *)

(** ** Dictionaries *)

Lemma get_set_same (k : string) (v : Value) (d : Dict.t) :
  Dict.get k (Dict.set k v d) = Some v.
Proof.
  induction d as [|[k' v'] d IH]; simpl.
  - now rewrite String.eqb_refl.
  - destruct (String.eqb k' k) eqn:E; simpl; rewrite E; auto.
Qed.

Lemma get_set_other (k k' : string) (v : Value) (d : Dict.t) :
  k <> k' -> Dict.get k' (Dict.set k v d) = Dict.get k' d.
Proof.
  intros Hne. induction d as [|[k0 v0] d IH]; simpl.
  - destruct (String.eqb_spec k k'); congruence.
  - destruct (String.eqb_spec k0 k) as [->|E]; simpl.
    + destruct (String.eqb_spec k k'); congruence.
    + now rewrite IH.
Qed.

Lemma keys_set_present (k : string) (v v0 : Value) (d : Dict.t) :
  Dict.get k d = Some v0 -> Dict.keys (Dict.set k v d) = Dict.keys d.
Proof.
  induction d as [|[k' v'] d IH]; simpl; [discriminate|].
  destruct (String.eqb k' k); simpl; intros H; [reflexivity|].
  f_equal. now apply IH.
Qed.

Lemma keys_set_absent (k : string) (v : Value) (d : Dict.t) :
  Dict.get k d = None -> Dict.keys (Dict.set k v d) = Dict.keys d ++ [k].
Proof.
  induction d as [|[k' v'] d IH]; simpl; [reflexivity|].
  destruct (String.eqb k' k); simpl; intros H; [discriminate|].
  f_equal. now apply IH.
Qed.

(** ** The groups of a match *)

(** The seventeen fields [IfconfigSchema] declares as [int]. *)
Lemma int_fields_listed :
  int_fields
  = [ "mtu"; "prefixlen"; "txqueuelen";
      "rx_pkts"; "rx_bytes"; "rx_errors"; "rx_dropped"; "rx_overruns";
      "rx_frame"; "tx_pkts"; "tx_bytes"; "tx_errors"; "tx_dropped";
      "tx_overruns"; "tx_carrier"; "tx_collisions"; "device_interrupt" ].
Proof. reflexivity. Qed.

Lemma rep_inv {A : Type} (cs : cset) (s : string) (k : string -> option A) (e : A) :
  rep cs s k = Some e ->
  exists v s', s = String.append v s' /\ Str.all (mem cs) v = true /\ k s' = Some e.
Proof.
  induction s as [|c s IH]; simpl; intros H.
  - exists "", "". auto.
  - destruct (mem cs c) eqn:Hc.
    + destruct (rep cs s k) as [r|] eqn:Hr.
      * destruct (IH H) as (v & s' & -> & Hv & Hk).
        exists (String c v), s'. simpl. rewrite Hc, Hv. repeat split. exact Hk.
      * exists "", (String c s). auto.
    + exists "", (String c s). auto.
Qed.

Lemma take_append (v s : string) : Str.take (String.length v) (String.append v s) = v.
Proof. induction v as [|c v IH]; simpl; [destruct s|]; congruence. Qed.

Lemma length_append (v s : string) :
  String.length (String.append v s) = String.length v + String.length s.
Proof. induction v as [|c v IH]; simpl; congruence. Qed.

Lemma captured_append (v s : string) : captured (String.append v s) s = v.
Proof.
  unfold captured. rewrite length_append.
  replace (String.length v + String.length s - String.length s) with (String.length v) by lia.
  apply take_append.
Qed.

Lemma digit_marks_cons (name v : string) (g : marks) :
  digit_marks g ->
  (is_int_field name = true -> decimal v = true) ->
  digit_marks ((name, v) :: g).
Proof.
  intros Hg Hv n w. simpl. destruct (String.eqb_spec name n) as [->|Hne].
  - intros [= ->]. exact Hv.
  - apply Hg.
Qed.

Lemma run_digit_marks {A : Type} (r : regex) :
  digit_groups r = true ->
  forall (n0 : nat) (s : string) (g : marks) (k : string -> marks -> option A) (e : A),
    digit_marks g ->
    run r n0 s g k = Some e ->
    exists s' g', digit_marks g' /\ k s' g' = Some e.
Proof.
  induction r as [| |cs|cs|t|r1 IH1 r2 IH2|r1 IH1|name r1 IH1];
    intros Hr n0 s g k e Hg H; simpl in H.
  - destruct (Nat.eqb _ _); [eauto|discriminate].
  - destruct s as [|c [|c' s']]; [eauto| |discriminate].
    destruct (Ascii.eqb c Char.LF); [eauto|discriminate].
  - destruct s as [|c s]; [discriminate|].
    destruct (mem cs c); [|discriminate].
    apply rep_inv in H. destruct H as (v & s' & _ & _ & Hk). eauto.
  - apply rep_inv in H. destruct H as (v & s' & _ & _ & Hk). eauto.
  - destruct (Str.drop_prefix t s); [eauto|discriminate].
  - simpl in Hr. apply andb_true_iff in Hr. destruct Hr as [Hr1 Hr2].
    destruct (IH1 Hr1 _ _ _ _ _ Hg H) as (s1 & g1 & Hg1 & H1).
    exact (IH2 Hr2 _ _ _ _ _ Hg1 H1).
  - simpl in Hr.
    destruct (run r1 n0 s g k) as [e'|] eqn:E.
    + injection H as ->. exact (IH1 Hr _ _ _ _ _ Hg E).
    + eauto.
  - cbn [digit_groups] in Hr. apply andb_true_iff in Hr. destruct Hr as [Hn Hr1].
    destruct (is_int_field name) eqn:Hf; rewrite ?Hf in Hn.
    + destruct r1 as [| |[| | |]| | | | |]; try discriminate Hn.
      cbn [run] in H. destruct s as [|c s]; [discriminate|].
      destruct (mem CDigit c) eqn:Hc; [|discriminate].
      apply rep_inv in H. destruct H as (v & s' & -> & Hv & Hk).
      change (String c (String.append v s')) with (String.append (String c v) s') in Hk.
      rewrite captured_append in Hk.
      eexists _, _. split; [|exact Hk].
      apply digit_marks_cons; [assumption|]. intros _.
      unfold decimal. cbn [Str.truthy Str.all andb].
      cbn [mem] in Hc. rewrite Hc. exact Hv.
    + destruct (IH1 Hr1 _ _ _ _ _ Hg H) as (s1 & g1 & Hg1 & H1).
      eexists _, _. split; [|exact H1].
      apply digit_marks_cons; [assumption|]. congruence.
Qed.

(** The text a match leaves in a group named after an [int] field is a
    non-empty text of decimal digits. *)
Lemma rmatch_digit_marks (p : regex) (line : string) (m : marks) :
  digit_groups p = true -> rmatch p line = Some m -> digit_marks m.
Proof.
  intros Hp H. unfold rmatch in H.
  assert (H0 : digit_marks []) by (intros n v; discriminate).
  destruct (run_digit_marks p Hp _ _ _ _ _ H0 H) as (s' & g' & Hg & [= <-]).
  exact Hg.
Qed.

(** ** Digits, [isdigit] and [int] *)

Lemma isdecimal_isdigit (c : ascii) : Char.isdecimal c = true -> Char.isdigit c = true.
Proof. unfold Char.isdigit. intros ->. reflexivity. Qed.

Lemma all_decimal_isdigit (v : string) :
  Str.all Char.isdecimal v = true -> Str.all Char.isdigit v = true.
Proof.
  induction v as [|c v IH]; simpl; [reflexivity|].
  intros H. apply andb_true_iff in H. destruct H as [Hc Hv].
  now rewrite (isdecimal_isdigit c Hc), IH.
Qed.

Lemma int_acc_decimal (v : string) :
  Str.all Char.isdecimal v = true -> forall acc, exists z, Str.int_acc acc v = Some z.
Proof.
  induction v as [|c v IH]; simpl; intros H acc; [eauto|].
  apply andb_true_iff in H. destruct H as [Hc Hv]. rewrite Hc. apply IH, Hv.
Qed.

Lemma decimal_isdigit (v : string) : decimal v = true -> Str.isdigit v = true.
Proof.
  unfold decimal, Str.isdigit. intros H. apply andb_true_iff in H.
  destruct H as [Ht Hv]. destruct v; [discriminate|].
  now apply all_decimal_isdigit.
Qed.

Lemma decimal_int (v : string) :
  decimal v = true -> within_limit v = true -> exists z, Str.int v = Some z.
Proof.
  unfold decimal, within_limit, Str.int. intros H Hn. apply andb_true_iff in H.
  destruct H as [Ht Hv]. destruct v; [discriminate|].
  rewrite Hn. now apply int_acc_decimal.
Qed.

Lemma int_of_is_int (ov : option string) (x : Value) :
  int_of ov = Ok x -> is_int x = true.
Proof.
  unfold int_of. destruct ov as [s|]; [|discriminate].
  destruct (Str.int s); [|discriminate]. now intros [= <-].
Qed.

Lemma int_if_digit_is_int (ov : option string) (x : Value) :
  (forall v, ov = Some v -> decimal v = true) ->
  int_if_digit ov = Ok x -> is_int x = true.
Proof.
  unfold int_if_digit. destruct ov as [s|]; [|discriminate].
  intros H. rewrite (decimal_isdigit s (H s eq_refl)). apply int_of_is_int.
Qed.

(** ** The error monad *)

Lemma bind_ok {A B : Type} (x : result A) (f : A -> result B) (b : B) :
  bind x f = Ok b -> exists a, x = Ok a /\ f a = Ok b.
Proof. destruct x; simpl; [eauto|discriminate]. Qed.

Ltac inv_bind H :=
  let a := fresh "a" in
  let Ha := fresh "Ha" in
  apply bind_ok in H; destruct H as (a & Ha & H).

(** ** One mapping level *)

Section SelectMap.
Context {X : Type} (f : Descriptor -> X).

Let lift (specs : list (KeyMatcher * Descriptor * bool)) : list (KeyMatcher * X) :=
  map (fun spec => (fst (fst spec), f (snd (fst spec)))) specs.

Lemma named_map specs k :
  named (lift specs) k = option_map f (named (map fst specs) k).
Proof.
  induction specs as [|[[km d] r] specs IH]; simpl; [reflexivity|].
  destruct (matcher_name km); [|exact IH].
  destruct (String.eqb s k); [reflexivity|exact IH].
Qed.

Lemma wild_map specs :
  wild (lift specs) = option_map f (wild (map fst specs)).
Proof.
  induction specs as [|[[km d] r] specs IH]; simpl; [reflexivity|].
  destruct km; auto.
Qed.

Lemma select_map specs k :
  select (lift specs) k = option_map f (select (map fst specs) k).
Proof.
  unfold select. rewrite named_map, wild_map.
  destruct (named (map fst specs) k); reflexivity.
Qed.
End SelectMap.

Lemma ints_stored_mapping specs m :
  ints_stored (MappingOf specs) (VMap m) = forallb (entry_ok specs) m.
Proof.
  cbn [ints_stored]. induction m as [|[k v] m IH]; [reflexivity|].
  cbn [forallb]. rewrite IH. f_equal.
  unfold entry_ok, descriptor_of. cbn [fst snd].
  rewrite (select_map ints_stored). now destruct (select (map fst specs) k).
Qed.

Lemma forallb_get (P : string * Value -> bool) (m : Dict.t) (k : string) (v : Value) :
  forallb P m = true -> Dict.get k m = Some v -> P (k, v) = true.
Proof.
  induction m as [|[k' v'] m IH]; simpl; [discriminate|].
  intros H. apply andb_true_iff in H. destruct H as [H1 H2].
  destruct (String.eqb_spec k' k) as [->|Hne]; [now intros [= <-]|auto].
Qed.

Lemma forallb_set (P : string * Value -> bool) (m : Dict.t) (k : string) (v : Value) :
  forallb P m = true -> P (k, v) = true -> forallb P (Dict.set k v m) = true.
Proof.
  intros Hm Hv. induction m as [|[k' v'] m IH]; simpl.
  - now rewrite Hv.
  - simpl in Hm. apply andb_true_iff in Hm. destruct Hm as [H1 H2].
    destruct (String.eqb_spec k' k) as [->|Hne]; simpl.
    + now rewrite Hv, H2.
    + now rewrite H1, IH.
Qed.

Lemma forallb_update (P : string * Value -> bool) (items : list (string * Value)) :
  forallb P items = true ->
  forall m, forallb P m = true -> forallb P (Dict.update m items) = true.
Proof.
  induction items as [|[k v] items IH]; simpl; intros H m Hm; [exact Hm|].
  apply andb_true_iff in H. destruct H as [H1 H2].
  apply IH; [exact H2|]. now apply forallb_set.
Qed.

Lemma level_get specs m k v d :
  ints_stored (MappingOf specs) (VMap m) = true ->
  Dict.get k m = Some v -> descriptor_of specs k = Some d ->
  ints_stored d v = true.
Proof.
  rewrite ints_stored_mapping. intros Hm Hk Hd.
  pose proof (forallb_get _ _ _ _ Hm Hk) as H.
  unfold entry_ok in H. cbn [fst snd] in H. now rewrite Hd in H.
Qed.

Lemma level_set specs m k v d :
  ints_stored (MappingOf specs) (VMap m) = true ->
  descriptor_of specs k = Some d -> ints_stored d v = true ->
  ints_stored (MappingOf specs) (VMap (Dict.set k v m)) = true.
Proof.
  rewrite !ints_stored_mapping. intros Hm Hd Hv.
  apply forallb_set; [exact Hm|].
  unfold entry_ok. cbn [fst snd]. now rewrite Hd.
Qed.

Lemma level_update specs m items :
  ints_stored (MappingOf specs) (VMap m) = true ->
  forallb (entry_ok specs) items = true ->
  ints_stored (MappingOf specs) (VMap (Dict.update m items)) = true.
Proof.
  rewrite !ints_stored_mapping. intros Hm Hi. now apply forallb_update.
Qed.

Lemma level_setdefault specs m k sub m' :
  ints_stored (MappingOf specs) (VMap m) = true ->
  setdefault k m = Ok m' ->
  descriptor_of specs k = Some (MappingOf sub) ->
  ints_stored (MappingOf sub) (VMap m') = true.
Proof.
  intros Hm H Hd. revert H. unfold setdefault.
  destruct (Dict.get k m) as [v|] eqn:Hk.
  - destruct v; try discriminate. intros [= <-].
    exact (level_get _ _ _ _ _ Hm Hk Hd).
  - now intros [= <-].
Qed.

Lemma level_deref specs m k sub m' :
  ints_stored (MappingOf specs) (VMap m) = true ->
  deref k m = Ok m' ->
  descriptor_of specs k = Some (MappingOf sub) ->
  ints_stored (MappingOf sub) (VMap m') = true.
Proof.
  intros Hm H Hd. revert H. unfold deref.
  destruct (Dict.get k m) as [v|] eqn:Hk; [|discriminate].
  destruct v; try discriminate. intros [= <-].
  exact (level_get _ _ _ _ _ Hm Hk Hd).
Qed.

(** ** Comprehensions over the groups of a match *)

Lemma comprehension_forallb (P : string * Value -> bool)
      (f : option string -> result Value) (group : groups) :
  (forall k ov x, In (k, ov) group -> f ov = Ok x -> P (k, x) = true) ->
  forall items, comprehension f group = Ok items -> forallb P items = true.
Proof.
  induction group as [|[k ov] group IH]; simpl; intros HP items H.
  - now injection H as <-.
  - inv_bind H. inv_bind H. injection H as <-. simpl.
    rewrite (HP k ov a (or_introl eq_refl) Ha).
    apply IH; [|assumption].
    intros k' ov' x' Hin. apply HP. now right.
Qed.

(** ** The loop keeps every [int] field an integer *)

Lemma top_descriptor (n : string) :
  descriptor_of [any IfconfigSchema.interface] n = Some IfconfigSchema.interface.
Proof. reflexivity. Qed.

Ltac group_entries Hd :=
  let k := fresh "k" in
  let ov := fresh "ov" in
  let x := fresh "x" in
  let Hin := fresh "Hin" in
  let Hf := fresh "Hf" in
  intros k ov x Hin Hf;
  cbv [groupdict group_names p1 p2 p3 p4 p5 p6 p7 p8 p9 sp app map] in Hin;
  repeat (destruct Hin as [Hin|Hin]; [injection Hin as <- <-|]);
  [.. | contradiction Hin];
  first
    [ reflexivity
    | change (is_int x = true);
      first [ exact (int_of_is_int _ _ Hf)
            | eapply int_if_digit_is_int; [|exact Hf];
              let v := fresh "v" in
              let Hv := fresh "Hv" in
              intros v Hv; apply (Hd _ v Hv); reflexivity ] ].

Lemma with_intf_stored (st st' : locals) (f : Dict.t -> result Dict.t) :
  stored st ->
  (forall d d', ints_stored IfconfigSchema.interface (VMap d) = true ->
                f d = Ok d' ->
                ints_stored IfconfigSchema.interface (VMap d') = true) ->
  with_intf st f = Ok st' -> stored st'.
Proof.
  intros Hst Hf H. unfold with_intf in H.
  destruct (intf_dict st) as [n|]; [|discriminate].
  inv_bind H. inv_bind H. injection H as <-.
  unfold stored in *. cbn [result_dict].
  unfold IfconfigSchema.schema in *.
  eapply level_set; [exact Hst|apply top_descriptor|].
  eapply Hf; [|exact Ha0].
  eapply level_deref; [exact Hst|exact Ha|apply top_descriptor].
Qed.

Lemma with_counter_stored (st st' : locals) (f : Dict.t -> result Dict.t) :
  stored st ->
  (forall c c', ints_stored IfconfigSchema.counters (VMap c) = true ->
                f c = Ok c' ->
                ints_stored IfconfigSchema.counters (VMap c') = true) ->
  with_counter st f = Ok st' -> stored st'.
Proof.
  intros Hst Hf H. unfold with_counter in H.
  destruct (counter_dict st) as [n|]; [|discriminate].
  inv_bind H. inv_bind H. inv_bind H. injection H as <-.
  unfold stored in *. cbn [result_dict].
  unfold IfconfigSchema.schema in *.
  assert (Hd : ints_stored IfconfigSchema.interface (VMap a) = true)
    by (eapply level_deref; [exact Hst|exact Ha|apply top_descriptor]).
  eapply level_set; [exact Hst|apply top_descriptor|].
  eapply level_set; [exact Hd|reflexivity|].
  eapply Hf; [|exact Ha1].
  eapply level_deref; [exact Hd|exact Ha0|reflexivity].
Qed.

Section Line.
Variable line : string.

Lemma on_p1_stored st m st' :
  stored st -> rmatch p1 line = Some m -> on_p1 st (groupdict p1 m) = Ok st' ->
  stored st'.
Proof.
  intros Hst Hm H.
  pose proof (rmatch_digit_marks p1 line m eq_refl Hm) as Hd.
  unfold on_p1 in H. destruct (item "interface" _) as [interface|]; [|discriminate].
  inv_bind H. inv_bind H. injection H as <-.
  unfold stored in *. cbn [result_dict]. unfold IfconfigSchema.schema in *.
  eapply level_set; [exact Hst|apply top_descriptor|].
  eapply level_update.
  - eapply level_setdefault; [exact Hst|exact Ha|apply top_descriptor].
  - eapply comprehension_forallb; [|exact Ha0]. group_entries Hd.
Qed.

Lemma on_p2_stored st m st' :
  stored st -> rmatch p2 line = Some m -> on_p2 st (groupdict p2 m) = Ok st' ->
  stored st'.
Proof.
  intros Hst Hm H.
  pose proof (rmatch_digit_marks p2 line m eq_refl Hm) as Hd.
  unfold on_p2 in H. eapply with_intf_stored; [exact Hst| |exact H].
  clear H. intros d d' Hi H. cbv beta in H.
  destruct (item "ip" _) as [ip|]; [|discriminate].
  inv_bind H. inv_bind H. inv_bind H. injection H as <-.
  assert (H4 : ints_stored IfconfigSchema.ipv4 (VMap a) = true)
    by (eapply level_setdefault; [exact Hi|exact Ha|reflexivity]).
  eapply level_set; [exact Hi|reflexivity|].
  eapply level_set; [exact H4|reflexivity|].
  eapply level_update.
  - eapply level_setdefault; [exact H4|exact Ha0|reflexivity].
  - eapply comprehension_forallb; [|exact Ha1]. group_entries Hd.
Qed.

Lemma on_p3_stored st m st' :
  stored st -> rmatch p3 line = Some m -> on_p3 st (groupdict p3 m) = Ok st' ->
  stored st'.
Proof.
  intros Hst Hm H.
  pose proof (rmatch_digit_marks p3 line m eq_refl Hm) as Hd.
  unfold on_p3 in H. eapply with_intf_stored; [exact Hst| |exact H].
  clear H. intros d d' Hi H. cbv beta in H.
  destruct (item "ip" _) as [ip|]; [|discriminate].
  inv_bind H. inv_bind H. inv_bind H. injection H as <-.
  assert (H6 : ints_stored IfconfigSchema.ipv6 (VMap a) = true)
    by (eapply level_setdefault; [exact Hi|exact Ha|reflexivity]).
  eapply level_set; [exact Hi|reflexivity|].
  eapply level_set; [exact H6|reflexivity|].
  eapply level_update.
  - eapply level_setdefault; [exact H6|exact Ha0|reflexivity].
  - eapply comprehension_forallb; [|exact Ha1]. group_entries Hd.
Qed.

Lemma on_p4_stored st group st' :
  stored st -> on_p4 st group = Ok st' -> stored st'.
Proof.
  intros Hst H.
  unfold on_p4 in H. eapply with_intf_stored; [exact Hst| |exact H].
  clear H. intros d d' Hi H. cbv beta zeta in H.
  inv_bind H. inv_bind H.
  assert (H1 : ints_stored IfconfigSchema.interface
                 (VMap (Dict.update d [("type", a); ("destription", a0)])) = true)
    by (eapply level_update; [exact Hi|reflexivity]).
  set (d1 := Dict.update d [("type", a); ("destription", a0)]) in *.
  assert (H2 : ints_stored IfconfigSchema.interface
                 (VMap match item "mac" group with
                       | Some s => if Str.truthy s
                                   then Dict.update d1 [("mac", VStr s)] else d1
                       | None => d1
                       end) = true).
  { destruct (item "mac" group) as [s|]; [|exact H1].
    destruct (Str.truthy s); [|exact H1].
    eapply level_update; [exact H1|reflexivity]. }
  destruct (item "txqueuelen" group) as [s|]; [|now injection H as <-].
  destruct (Str.truthy s); [|now injection H as <-].
  inv_bind H. injection H as <-.
  cbn [Dict.update].
  eapply level_set; [exact H2|reflexivity|exact (int_of_is_int _ _ Ha1)].
Qed.

Lemma on_p5_stored st m st' :
  stored st -> rmatch p5 line = Some m -> on_p5 st (groupdict p5 m) = Ok st' ->
  stored st'.
Proof.
  intros Hst Hm H.
  pose proof (rmatch_digit_marks p5 line m eq_refl Hm) as Hd.
  unfold on_p5 in H. destruct (intf_dict st) as [n|]; [|discriminate].
  inv_bind H. inv_bind H. inv_bind H. injection H as <-.
  unfold stored in *. cbn [result_dict]. unfold IfconfigSchema.schema in *.
  assert (Hi : ints_stored IfconfigSchema.interface (VMap a) = true)
    by (eapply level_deref; [exact Hst|exact Ha|apply top_descriptor]).
  eapply level_set; [exact Hst|apply top_descriptor|].
  eapply level_set; [exact Hi|reflexivity|].
  eapply level_update.
  - eapply level_setdefault; [exact Hi|exact Ha0|reflexivity].
  - eapply comprehension_forallb; [|exact Ha1]. group_entries Hd.
Qed.

Lemma on_p6_stored st m st' :
  stored st -> on_p6 st (groupdict p6 m) = Ok st' -> stored st'.
Proof.
  intros Hst H.
  unfold on_p6 in H. eapply with_counter_stored; [exact Hst| |exact H].
  clear H. intros c c' Hc H. cbv beta in H.
  inv_bind H. injection H as <-.
  eapply level_update; [exact Hc|].
  eapply comprehension_forallb; [|exact Ha]. group_entries I.
Qed.

Lemma on_p7_stored st m st' :
  stored st -> rmatch p7 line = Some m -> on_p7 st (groupdict p7 m) = Ok st' ->
  stored st'.
Proof.
  intros Hst Hm H.
  pose proof (rmatch_digit_marks p7 line m eq_refl Hm) as Hd.
  unfold on_p7 in H. eapply with_counter_stored; [exact Hst| |exact H].
  clear H. intros c c' Hc H. cbv beta in H.
  inv_bind H. injection H as <-.
  eapply level_update; [exact Hc|].
  eapply comprehension_forallb; [|exact Ha]. group_entries Hd.
Qed.

Lemma on_p8_stored st m st' :
  stored st -> on_p6 st (groupdict p8 m) = Ok st' -> stored st'.
Proof.
  intros Hst H.
  unfold on_p6 in H. eapply with_counter_stored; [exact Hst| |exact H].
  clear H. intros c c' Hc H. cbv beta in H.
  inv_bind H. injection H as <-.
  eapply level_update; [exact Hc|].
  eapply comprehension_forallb; [|exact Ha]. group_entries I.
Qed.

Lemma on_p9_stored st group st' :
  stored st -> on_p9 st group = Ok st' -> stored st'.
Proof.
  intros Hst H. unfold on_p9 in H. cbv zeta in H. inv_bind H.
  assert (H1 : stored a).
  { destruct (item "device_interrupt" group) as [s|]; [|now injection Ha as <-].
    destruct (Str.truthy s); [|now injection Ha as <-].
    eapply with_intf_stored; [exact Hst| |exact Ha].
    intros d d' Hi Hf. cbv beta in Hf. inv_bind Hf. injection Hf as <-.
    cbn [Dict.update].
    eapply level_set; [exact Hi|reflexivity|exact (int_of_is_int _ _ Ha0)]. }
  destruct (item "device_memory" group) as [s|]; [|now injection H as <-].
  destruct (Str.truthy s); [|now injection H as <-].
  eapply with_intf_stored; [exact H1| |exact H].
  intros d d' Hi Hf. cbv beta in Hf. injection Hf as <-.
  eapply level_set; [exact Hi|reflexivity|reflexivity].
Qed.

End Line.

Lemma body_stored (line : string) st st' :
  stored st -> body st line = Ok st' -> stored st'.
Proof.
  intros Hst H. unfold body in H.
  destruct (negb _); [now injection H as <-|].
  set (l := Str.strip (Str.replace_tab line)) in *. clearbody l.
  unfold rules in H. cbn [dispatch] in H.
  destruct (rmatch p1 l) eqn:E1; [exact (on_p1_stored l _ _ _ Hst E1 H)|].
  destruct (rmatch p2 l) eqn:E2; [exact (on_p2_stored l _ _ _ Hst E2 H)|].
  destruct (rmatch p3 l) eqn:E3; [exact (on_p3_stored l _ _ _ Hst E3 H)|].
  destruct (rmatch p4 l) eqn:E4; [exact (on_p4_stored _ _ _ Hst H)|].
  destruct (rmatch p5 l) eqn:E5; [exact (on_p5_stored l _ _ _ Hst E5 H)|].
  destruct (rmatch p6 l) eqn:E6; [exact (on_p6_stored _ _ _ Hst H)|].
  destruct (rmatch p7 l) eqn:E7; [exact (on_p7_stored l _ _ _ Hst E7 H)|].
  destruct (rmatch p8 l) eqn:E8; [exact (on_p8_stored _ _ _ Hst H)|].
  destruct (rmatch p9 l) eqn:E9; [exact (on_p9_stored _ _ _ Hst H)|].
  now injection H as <-.
Qed.

Lemma loop_stored (lines : list string) :
  forall st st', stored st -> loop st lines = Ok st' -> stored st'.
Proof.
  induction lines as [|l lines IH]; simpl; intros st st' Hst H.
  - now injection H as <-.
  - inv_bind H. eapply IH; [|exact H]. eapply body_stored; eauto.
Qed.

Lemma parse_stored (out : string) (res : Value) :
  parse out = Ok res -> ints_stored IfconfigSchema.schema res = true.
Proof.
  unfold parse. intros H. inv_bind H. injection H as <-.
  eapply loop_stored; [|exact Ha]. reflexivity.
Qed.

Lemma mapping_shape specs v :
  ints_stored (MappingOf specs) v = true -> exists m, v = VMap m.
Proof. destruct v; try discriminate. eauto. Qed.

Lemma level_int specs m k :
  ints_stored (MappingOf specs) (VMap m) = true ->
  descriptor_of specs k = Some int -> int_at m k.
Proof.
  intros Hm Hd x Hx. pose proof (level_get _ _ _ _ _ Hm Hx Hd) as H.
  destruct x; try discriminate. eauto.
Qed.

Lemma ints_stored_explicit (res : Value) :
  ints_stored IfconfigSchema.schema res = true -> int_fields_are_integers res.
Proof.
  intros H. destruct (mapping_shape _ _ H) as [rd ->]. exists rd. split; [reflexivity|].
  intros n rec Hn.
  pose proof (level_get _ _ _ _ _ H Hn (top_descriptor n)) as Hrec.
  destruct (mapping_shape _ _ Hrec) as [d ->]. exists d. split; [reflexivity|].
  split; [|split].
  - repeat constructor; (eapply level_int; [exact Hrec|reflexivity]).
  - intros v6 H6.
    pose proof (level_get _ _ "ipv6" _ _ Hrec H6 eq_refl) as Hv6.
    destruct (mapping_shape _ _ Hv6) as [m6 ->]. exists m6. split; [reflexivity|].
    intros ip e He.
    pose proof (level_get _ _ ip _ _ Hv6 He eq_refl) as Hent.
    destruct (mapping_shape _ _ Hent) as [em ->]. exists em. split; [reflexivity|].
    eapply level_int; [exact Hent|reflexivity].
  - intros c Hc.
    pose proof (level_get _ _ "counters" _ _ Hrec Hc eq_refl) as Hcm.
    destruct (mapping_shape _ _ Hcm) as [cm ->]. exists cm. split; [reflexivity|].
    repeat constructor; (eapply level_int; [exact Hcm|reflexivity]).
Qed.

(** ** What [cli] can raise *)

(** ** Groups that always take part *)

Lemma run_sure {A : Type} (r : regex) :
  forall (n0 : nat) (s : string) (g : marks) (k : string -> marks -> option A) (e : A),
    run r n0 s g k = Some e ->
    exists s' g', k s' g' = Some e /\
      forall n, In n (sure r) \/ get n g <> None -> get n g' <> None.
Proof.
  induction r as [| |cs|cs|t|r1 IH1 r2 IH2|r1 IH1|name r1 IH1];
    intros n0 s g k e H; cbn [run] in H; cbn [sure].
  - destruct (Nat.eqb _ _); [|discriminate].
    exists s, g. split; [exact H|]. now intros n [[]|Hn].
  - destruct s as [|c [|c' s']]; [| |discriminate].
    + exists "", g. split; [exact H|]. now intros n [[]|Hn].
    + destruct (Ascii.eqb c Char.LF); [|discriminate].
      eexists _, g. split; [exact H|]. now intros n [[]|Hn].
  - destruct s as [|c s]; [discriminate|].
    destruct (mem cs c); [|discriminate].
    apply rep_inv in H. destruct H as (v & s' & _ & _ & Hk).
    exists s', g. split; [exact Hk|]. now intros n [[]|Hn].
  - apply rep_inv in H. destruct H as (v & s' & _ & _ & Hk).
    exists s', g. split; [exact Hk|]. now intros n [[]|Hn].
  - destruct (Str.drop_prefix t s) as [s'|]; [|discriminate].
    exists s', g. split; [exact H|]. now intros n [[]|Hn].
  - destruct (IH1 _ _ _ _ _ H) as (s1 & g1 & H1 & Hg1).
    destruct (IH2 _ _ _ _ _ H1) as (s2 & g2 & H2 & Hg2).
    exists s2, g2. split; [exact H2|].
    intros n [Hn|Hn]; apply Hg2.
    + apply in_app_or in Hn. destruct Hn as [Hn|Hn]; [right; apply Hg1|]; auto.
    + right. apply Hg1. auto.
  - destruct (run r1 n0 s g k) as [e'|] eqn:E.
    + injection H as ->. destruct (IH1 _ _ _ _ _ E) as (s1 & g1 & H1 & Hg1).
      exists s1, g1. split; [exact H1|]. intros n [[]|Hn]. apply Hg1. auto.
    + exists s, g. split; [exact H|]. now intros n [[]|Hn].
  - destruct (IH1 _ _ _ _ _ H) as (s1 & g1 & H1 & Hg1).
    eexists _, _. split; [exact H1|].
    intros n Hn. cbn [get]. destruct (String.eqb_spec name n) as [->|Hne]; [discriminate|].
    apply Hg1. destruct Hn as [[Hn|Hn]|Hn]; [contradiction| |]; auto.
Qed.

Lemma rmatch_sure (p : regex) (line : string) (m : marks) (n : string) :
  rmatch p line = Some m -> In n (sure p) -> exists v, get n m = Some v.
Proof.
  intros H Hn. unfold rmatch in H.
  destruct (run_sure p _ _ _ _ _ H) as (s' & g' & [= <-] & Hg).
  destruct (get n g') eqn:E; [eauto|]. exfalso. apply (Hg n); auto.
Qed.

Lemma groupdict_in (p : regex) (m : marks) (k : string) (ov : option string) :
  In (k, ov) (groupdict p m) -> In k (group_names p) /\ ov = get k m.
Proof.
  unfold groupdict. intros H. apply in_map_iff in H.
  destruct H as (n & [= <- <-] & Hn). auto.
Qed.

(** ** Operations that raise nothing but the expected exceptions *)

Lemma safe_ok {A : Type} (a : A) : safe (Ok a).
Proof. intros e H. discriminate. Qed.

Lemma safe_bind {A B : Type} (x : result A) (f : A -> result B) :
  safe x -> (forall a, x = Ok a -> safe (f a)) -> safe (bind x f).
Proof.
  intros Hx Hf e H. destruct x as [a|e']; simpl in H.
  - exact (Hf a eq_refl e H).
  - injection H as <-. now apply Hx.
Qed.

Lemma safe_int_of (v : string) : safe (int_of (Some v)).
Proof.
  intros e. unfold int_of. destruct (Str.int v); [discriminate|].
  intros [= <-]. right. right. eauto.
Qed.

Lemma safe_int_if_digit (v : string) : safe (int_if_digit (Some v)).
Proof.
  unfold int_if_digit. destruct (Str.isdigit v); [apply safe_int_of|apply safe_ok].
Qed.

Lemma safe_text_of (v : string) : safe (text_of (Some v)).
Proof. apply safe_ok. Qed.

Lemma safe_comprehension (f : option string -> result Value) (group : groups) :
  (forall k ov, In (k, ov) group -> safe (f ov)) -> safe (comprehension f group).
Proof.
  induction group as [|[k ov] group IH]; intros H; cbn [comprehension].
  - apply safe_ok.
  - apply safe_bind; [apply (H k ov); now left|]. intros x _.
    apply safe_bind; [apply IH; intros k' ov' Hin; apply (H k' ov'); now right|].
    intros items _. apply safe_ok.
Qed.

(** The groups of a pattern without optional part all hold a text. *)
Lemma safe_groups (f : option string -> result Value) (p : regex)
      (line : string) (m : marks) :
  rmatch p line = Some m -> sure p = group_names p ->
  (forall v, safe (f (Some v))) ->
  safe (comprehension f (groupdict p m)).
Proof.
  intros Hm Hp Hf. apply safe_comprehension. intros k ov Hin.
  apply groupdict_in in Hin. destruct Hin as [Hk ->].
  rewrite <- Hp in Hk. destruct (rmatch_sure p line m k Hm Hk) as [v ->]. apply Hf.
Qed.

Lemma safe_setdefault specs m k sub :
  ints_stored (MappingOf specs) (VMap m) = true ->
  descriptor_of specs k = Some (MappingOf sub) ->
  safe (setdefault k m).
Proof.
  intros Hm Hd. unfold setdefault. destruct (Dict.get k m) as [v|] eqn:Hk.
  - destruct (mapping_shape _ _ (level_get _ _ _ _ _ Hm Hk Hd)) as [m' ->]. apply safe_ok.
  - apply safe_ok.
Qed.

Lemma intf_ok_deref rd n : intf_ok rd n -> exists d, deref n rd = Ok d.
Proof. intros [d Hd]. exists d. unfold deref. now rewrite Hd. Qed.

(** ** The two references stay valid *)

Lemma keeps_refl d : keeps d d.
Proof. intros c Hc. eauto. Qed.

Lemma keeps_set_other d k v : k <> "counters" -> keeps d (Dict.set k v d).
Proof. intros Hk c Hc. exists c. now rewrite get_set_other. Qed.

Lemma keeps_set_counters d d' c : keeps d (Dict.set "counters" (VMap c) d').
Proof. intros c0 _. exists c. apply get_set_same. Qed.

Lemma get_update_other (k : string) (items : list (string * Value)) :
  ~ In k (map fst items) ->
  forall d, Dict.get k (Dict.update d items) = Dict.get k d.
Proof.
  induction items as [|[k' v'] items IH]; intros Hk d; cbn [Dict.update]; [reflexivity|].
  rewrite IH by (intros Hin; apply Hk; now right).
  apply get_set_other. intros ->. apply Hk. now left.
Qed.

Lemma keeps_update d items : ~ In "counters" (map fst items) -> keeps d (Dict.update d items).
Proof. intros Hk c Hc. exists c. now rewrite get_update_other. Qed.

Lemma comprehension_keys (f : option string -> result Value) (group : groups) :
  forall items, comprehension f group = Ok items -> map fst items = map fst group.
Proof.
  induction group as [|[k ov] group IH]; cbn [comprehension]; intros items H.
  - now injection H as <-.
  - inv_bind H. inv_bind H. injection H as <-. cbn [map fst]. f_equal. now apply IH.
Qed.

Lemma groupdict_keys (p : regex) (m : marks) : map fst (groupdict p m) = group_names p.
Proof.
  unfold groupdict. rewrite map_map. cbn [fst]. apply map_id.
Qed.

Lemma intf_ok_set rd n n0 d' :
  intf_ok rd n0 -> intf_ok (Dict.set n (VMap d') rd) n0.
Proof.
  intros [d Hd]. destruct (string_dec n n0) as [->|Hne].
  - exists d'. apply get_set_same.
  - exists d. now rewrite get_set_other.
Qed.

Lemma intf_ok_set_same rd n d' : intf_ok (Dict.set n (VMap d') rd) n.
Proof. exists d'. apply get_set_same. Qed.

Lemma counter_ok_set rd n n0 d' :
  counter_ok rd n0 ->
  (forall d, Dict.get n rd = Some (VMap d) -> keeps d d') ->
  counter_ok (Dict.set n (VMap d') rd) n0.
Proof.
  intros (d & c & Hd & Hc) Hk. destruct (string_dec n n0) as [->|Hne].
  - destruct (Hk d Hd c Hc) as [c' Hc']. exists d', c'. split; [apply get_set_same|exact Hc'].
  - exists d, c. split; [now rewrite get_set_other|exact Hc].
Qed.

Lemma deref_get n rd d : deref n rd = Ok d -> Dict.get n rd = Some (VMap d).
Proof.
  unfold deref. destruct (Dict.get n rd) as [[]|]; try discriminate. now intros [= ->].
Qed.

Lemma with_intf_refs (st st' : locals) (f : Dict.t -> result Dict.t) :
  refs_valid st ->
  (forall d d', f d = Ok d' -> keeps d d') ->
  with_intf st f = Ok st' -> refs_valid st'.
Proof.
  intros [Hi Hc] Hf H. unfold with_intf in H.
  destruct (intf_dict st) as [n|] eqn:En; [|discriminate].
  inv_bind H. inv_bind H. injection H as <-.
  apply deref_get in Ha. split; cbn [intf_dict counter_dict result_dict]; intros n0 Hn0.
  - apply intf_ok_set. apply Hi. congruence.
  - apply counter_ok_set; [now apply Hc|].
    intros d Hd. rewrite Ha in Hd. injection Hd as <-. now apply Hf.
Qed.

Lemma with_counter_refs (st st' : locals) (f : Dict.t -> result Dict.t) :
  refs_valid st -> with_counter st f = Ok st' -> refs_valid st'.
Proof.
  intros [Hi Hc] H. unfold with_counter in H.
  destruct (counter_dict st) as [n|] eqn:En; [|discriminate].
  inv_bind H. inv_bind H. inv_bind H. injection H as <-.
  split; cbn [intf_dict counter_dict result_dict]; intros n0 Hn0.
  - apply intf_ok_set. now apply Hi.
  - apply counter_ok_set; [now apply Hc|]. intros d _. apply keeps_set_counters.
Qed.

Lemma on_p1_refs st m st' :
  refs_valid st -> on_p1 st (groupdict p1 m) = Ok st' -> refs_valid st'.
Proof.
  intros [Hi Hc] H. unfold on_p1 in H.
  destruct (item "interface" _) as [interface|]; [|discriminate].
  inv_bind H. inv_bind H. injection H as <-.
  split; cbn [intf_dict counter_dict result_dict]; intros n0 Hn0.
  - injection Hn0 as <-. apply intf_ok_set_same.
  - apply counter_ok_set; [now apply Hc|]. intros d Hd.
    unfold setdefault in Ha. rewrite Hd in Ha. injection Ha as <-.
    apply keeps_update. rewrite (comprehension_keys _ _ _ Ha0), groupdict_keys.
    cbn. intuition discriminate.
Qed.

Lemma on_p2_refs st group st' :
  refs_valid st -> on_p2 st group = Ok st' -> refs_valid st'.
Proof.
  intros Hr H. unfold on_p2 in H. eapply with_intf_refs; [exact Hr| |exact H].
  intros d d' Hf. cbv beta in Hf. destruct (item "ip" group); [|discriminate].
  inv_bind Hf. inv_bind Hf. inv_bind Hf. injection Hf as <-.
  apply keeps_set_other. discriminate.
Qed.

Lemma on_p3_refs st group st' :
  refs_valid st -> on_p3 st group = Ok st' -> refs_valid st'.
Proof.
  intros Hr H. unfold on_p3 in H. eapply with_intf_refs; [exact Hr| |exact H].
  intros d d' Hf. cbv beta in Hf. destruct (item "ip" group); [|discriminate].
  inv_bind Hf. inv_bind Hf. inv_bind Hf. injection Hf as <-.
  apply keeps_set_other. discriminate.
Qed.

Lemma on_p4_refs st group st' :
  refs_valid st -> on_p4 st group = Ok st' -> refs_valid st'.
Proof.
  intros Hr H. unfold on_p4 in H. eapply with_intf_refs; [exact Hr| |exact H].
  intros d d' Hf. cbv beta zeta in Hf. inv_bind Hf. inv_bind Hf.
  intros c Hc. exists c.
  assert (H2 : Dict.get "counters"
                 match item "mac" group with
                 | Some s => if Str.truthy s
                             then Dict.update (Dict.update d [("type", a); ("destription", a0)])
                                              [("mac", VStr s)]
                             else Dict.update d [("type", a); ("destription", a0)]
                 | None => Dict.update d [("type", a); ("destription", a0)]
                 end = Some (VMap c)).
  { destruct (item "mac" group) as [s|]; [destruct (Str.truthy s)|];
      cbn [Dict.update]; rewrite !get_set_other by discriminate; exact Hc. }
  destruct (item "txqueuelen" group) as [s|]; [|now injection Hf as <-].
  destruct (Str.truthy s); [|now injection Hf as <-].
  inv_bind Hf. injection Hf as <-.
  cbn [Dict.update]. rewrite get_set_other by discriminate. exact H2.
Qed.

Lemma on_p5_refs st group st' :
  refs_valid st -> on_p5 st group = Ok st' -> refs_valid st'.
Proof.
  intros [Hi Hc] H. unfold on_p5 in H.
  destruct (intf_dict st) as [n|] eqn:En; [|discriminate].
  inv_bind H. inv_bind H. inv_bind H. injection H as <-.
  split; cbn [intf_dict counter_dict result_dict]; intros n0 Hn0.
  - apply intf_ok_set. apply Hi. congruence.
  - injection Hn0 as <-. eexists _, _. split; apply get_set_same.
Qed.

Lemma on_p9_refs st group st' :
  refs_valid st -> on_p9 st group = Ok st' -> refs_valid st'.
Proof.
  intros Hr H. unfold on_p9 in H. cbv zeta in H. inv_bind H.
  assert (H1 : refs_valid a).
  { destruct (item "device_interrupt" group) as [s|]; [|now injection Ha as <-].
    destruct (Str.truthy s); [|now injection Ha as <-].
    eapply with_intf_refs; [exact Hr| |exact Ha].
    intros d d' Hf. cbv beta in Hf. inv_bind Hf. injection Hf as <-.
    apply keeps_set_other. discriminate. }
  destruct (item "device_memory" group) as [s|]; [|now injection H as <-].
  destruct (Str.truthy s); [|now injection H as <-].
  eapply with_intf_refs; [exact H1| |exact H].
  intros d d' Hf. cbv beta in Hf. injection Hf as <-.
  apply keeps_set_other. discriminate.
Qed.

Lemma body_refs (line : string) st st' :
  refs_valid st -> body st line = Ok st' -> refs_valid st'.
Proof.
  intros Hr H. unfold body in H.
  destruct (negb _); [now injection H as <-|].
  set (l := Str.strip (Str.replace_tab line)) in *. clearbody l.
  unfold rules in H. cbn [dispatch] in H.
  destruct (rmatch p1 l); [exact (on_p1_refs _ _ _ Hr H)|].
  destruct (rmatch p2 l); [exact (on_p2_refs _ _ _ Hr H)|].
  destruct (rmatch p3 l); [exact (on_p3_refs _ _ _ Hr H)|].
  destruct (rmatch p4 l); [exact (on_p4_refs _ _ _ Hr H)|].
  destruct (rmatch p5 l); [exact (on_p5_refs _ _ _ Hr H)|].
  destruct (rmatch p6 l); [exact (with_counter_refs _ _ _ Hr H)|].
  destruct (rmatch p7 l); [exact (with_counter_refs _ _ _ Hr H)|].
  destruct (rmatch p8 l); [exact (with_counter_refs _ _ _ Hr H)|].
  destruct (rmatch p9 l); [exact (on_p9_refs _ _ _ Hr H)|].
  now injection H as <-.
Qed.

(** ** Each branch raises nothing but the expected exceptions *)

Lemma safe_raise_intf {A : Type} : safe (@Raise A (UnboundLocalError "intf_dict")).
Proof. intros e [= <-]. now left. Qed.

Lemma safe_raise_counter {A : Type} : safe (@Raise A (UnboundLocalError "counter_dict")).
Proof. intros e [= <-]. right. now left. Qed.

Lemma safe_with_intf (st : locals) (f : Dict.t -> result Dict.t) :
  stored st -> refs_valid st ->
  (forall d, ints_stored IfconfigSchema.interface (VMap d) = true -> safe (f d)) ->
  safe (with_intf st f).
Proof.
  intros Hst [Hi _] Hf. unfold with_intf.
  destruct (intf_dict st) as [n|]; [|apply safe_raise_intf].
  destruct (intf_ok_deref _ _ (Hi n eq_refl)) as [d Hd]. rewrite Hd. cbn [bind].
  apply safe_bind; [|intros; apply safe_ok].
  apply Hf. unfold stored, IfconfigSchema.schema in Hst.
  eapply level_deref; [exact Hst|exact Hd|apply top_descriptor].
Qed.

Lemma safe_with_counter (st : locals) (f : Dict.t -> result Dict.t) :
  stored st -> refs_valid st ->
  (forall c, ints_stored IfconfigSchema.counters (VMap c) = true -> safe (f c)) ->
  safe (with_counter st f).
Proof.
  intros Hst [_ Hc] Hf. unfold with_counter.
  destruct (counter_dict st) as [n|]; [|apply safe_raise_counter].
  destruct (Hc n eq_refl) as (d & c & Hd & Hcd).
  unfold deref. rewrite Hd. cbn [bind]. rewrite Hcd. cbn [bind].
  apply safe_bind; [|intros; apply safe_ok].
  apply Hf. unfold stored, IfconfigSchema.schema in Hst.
  assert (Hi : ints_stored IfconfigSchema.interface (VMap d) = true)
    by exact (level_get _ _ _ _ _ Hst Hd (top_descriptor n)).
  exact (level_get _ _ "counters" _ _ Hi Hcd eq_refl).
Qed.

Section Branches.
Variable st : locals.
Hypothesis Hst : stored st.
Hypothesis Hr : refs_valid st.

Lemma safe_on_p1 line m : rmatch p1 line = Some m -> safe (on_p1 st (groupdict p1 m)).
Proof.
  intros Hm. unfold on_p1.
  change (item "interface" (groupdict p1 m)) with (get "interface" m).
  destruct (rmatch_sure p1 line m "interface" Hm) as [v ->]; [cbn; auto|].
  apply safe_bind.
  - unfold stored, IfconfigSchema.schema in Hst.
    eapply safe_setdefault; [exact Hst|apply top_descriptor].
  - intros d _. apply safe_bind; [|intros; apply safe_ok].
    apply (safe_groups _ p1 line m Hm eq_refl safe_int_if_digit).
Qed.

Lemma safe_on_p2 line m : rmatch p2 line = Some m -> safe (on_p2 st (groupdict p2 m)).
Proof.
  intros Hm. unfold on_p2. apply safe_with_intf; [exact Hst|exact Hr|].
  intros d Hd.
  change (item "ip" (groupdict p2 m)) with (get "ip" m).
  destruct (rmatch_sure p2 line m "ip" Hm) as [v ->]; [cbn; auto|].
  apply safe_bind; [eapply safe_setdefault; [exact Hd|reflexivity]|].
  intros v4 H4.
  pose proof (level_setdefault _ _ "ipv4" _ _ Hd H4 eq_refl) as Hv4.
  apply safe_bind; [eapply safe_setdefault; [exact Hv4|reflexivity]|].
  intros e _. apply safe_bind; [|intros; apply safe_ok].
  apply (safe_groups _ p2 line m Hm eq_refl safe_text_of).
Qed.

Lemma safe_on_p3 line m : rmatch p3 line = Some m -> safe (on_p3 st (groupdict p3 m)).
Proof.
  intros Hm. unfold on_p3. apply safe_with_intf; [exact Hst|exact Hr|].
  intros d Hd.
  change (item "ip" (groupdict p3 m)) with (get "ip" m).
  destruct (rmatch_sure p3 line m "ip" Hm) as [v ->]; [cbn; auto|].
  apply safe_bind; [eapply safe_setdefault; [exact Hd|reflexivity]|].
  intros v6 H6.
  pose proof (level_setdefault _ _ "ipv6" _ _ Hd H6 eq_refl) as Hv6.
  apply safe_bind; [eapply safe_setdefault; [exact Hv6|reflexivity]|].
  intros e _. apply safe_bind; [|intros; apply safe_ok].
  apply (safe_groups _ p3 line m Hm eq_refl safe_int_if_digit).
Qed.

Lemma safe_on_p4 line m : rmatch p4 line = Some m -> safe (on_p4 st (groupdict p4 m)).
Proof.
  intros Hm. unfold on_p4. apply safe_with_intf; [exact Hst|exact Hr|].
  intros d Hd. cbv zeta.
  change (item "type" (groupdict p4 m)) with (get "type" m).
  change (item "destription" (groupdict p4 m)) with (get "destription" m).
  destruct (rmatch_sure p4 line m "type" Hm) as [ty ->]; [cbn; auto|].
  destruct (rmatch_sure p4 line m "destription" Hm) as [de ->]; [cbn; auto|].
  cbn [text_of bind].
  destruct (item "txqueuelen" (groupdict p4 m)) as [s|]; [|apply safe_ok].
  destruct (Str.truthy s); [|apply safe_ok].
  apply safe_bind; [apply safe_int_of|intros; apply safe_ok].
Qed.

Lemma safe_on_p5 line m : rmatch p5 line = Some m -> safe (on_p5 st (groupdict p5 m)).
Proof.
  intros Hm. unfold on_p5. destruct Hr as [Hi _].
  destruct (intf_dict st) as [n|]; [|apply safe_raise_intf].
  destruct (intf_ok_deref _ _ (Hi n eq_refl)) as [d Hd]. rewrite Hd. cbn [bind].
  unfold stored, IfconfigSchema.schema in Hst.
  pose proof (level_deref _ _ _ _ _ Hst Hd (top_descriptor n)) as Hid.
  apply safe_bind; [eapply safe_setdefault; [exact Hid|reflexivity]|].
  intros c _. apply safe_bind; [|intros; apply safe_ok].
  apply (safe_groups _ p5 line m Hm eq_refl safe_int_if_digit).
Qed.

Lemma safe_on_p6 line m : rmatch p6 line = Some m -> safe (on_p6 st (groupdict p6 m)).
Proof.
  intros Hm. unfold on_p6. apply safe_with_counter; [exact Hst|exact Hr|].
  intros c _. apply safe_bind; [|intros; apply safe_ok].
  apply (safe_groups _ p6 line m Hm eq_refl safe_int_of).
Qed.

Lemma safe_on_p7 line m : rmatch p7 line = Some m -> safe (on_p7 st (groupdict p7 m)).
Proof.
  intros Hm. unfold on_p7. apply safe_with_counter; [exact Hst|exact Hr|].
  intros c _. apply safe_bind; [|intros; apply safe_ok].
  apply (safe_groups _ p7 line m Hm eq_refl safe_int_if_digit).
Qed.

Lemma safe_on_p8 line m : rmatch p8 line = Some m -> safe (on_p6 st (groupdict p8 m)).
Proof.
  intros Hm. unfold on_p6. apply safe_with_counter; [exact Hst|exact Hr|].
  intros c _. apply safe_bind; [|intros; apply safe_ok].
  apply (safe_groups _ p8 line m Hm eq_refl safe_int_of).
Qed.

Lemma on_p9_interrupt group st1 :
  match item "device_interrupt" group with
  | Some s =>
      if Str.truthy s
      then with_intf st (fun d =>
             n <- int_of (item "device_interrupt" group) ;;
             Ok (Dict.update d [("device_interrupt", n)]))
      else Ok st
  | None => Ok st
  end = Ok st1 ->
  stored st1 /\ refs_valid st1.
Proof.
  intros H.
  destruct (item "device_interrupt" group) as [s|]; [|injection H as <-; now split].
  destruct (Str.truthy s); [|injection H as <-; now split]. split.
  - eapply with_intf_stored; [exact Hst| |exact H].
    intros d d' Hi Hf. cbv beta in Hf. inv_bind Hf. injection Hf as <-.
    cbn [Dict.update].
    eapply level_set; [exact Hi|reflexivity|exact (int_of_is_int _ _ Ha)].
  - eapply with_intf_refs; [exact Hr| |exact H].
    intros d d' Hf. cbv beta in Hf. inv_bind Hf. injection Hf as <-.
    apply keeps_set_other. discriminate.
Qed.

Lemma safe_on_p9 group : safe (on_p9 st group).
Proof.
  unfold on_p9. cbv zeta. apply safe_bind.
  - destruct (item "device_interrupt" group) as [s|]; [|apply safe_ok].
    destruct (Str.truthy s); [|apply safe_ok].
    apply safe_with_intf; [exact Hst|exact Hr|].
    intros d _. apply safe_bind; [apply safe_int_of|intros; apply safe_ok].
  - intros st1 H1. destruct (on_p9_interrupt group st1 H1) as [Hs1 Hr1].
    destruct (item "device_memory" group) as [s|]; [|apply safe_ok].
    destruct (Str.truthy s); [|apply safe_ok].
    apply safe_with_intf; [exact Hs1|exact Hr1|]. intros d _. apply safe_ok.
Qed.

Lemma safe_body line : safe (body st line).
Proof.
  unfold body. destruct (negb _); [apply safe_ok|].
  set (l := Str.strip (Str.replace_tab line)). clearbody l.
  unfold rules. cbn [dispatch].
  destruct (rmatch p1 l) eqn:E1; [exact (safe_on_p1 l _ E1)|].
  destruct (rmatch p2 l) eqn:E2; [exact (safe_on_p2 l _ E2)|].
  destruct (rmatch p3 l) eqn:E3; [exact (safe_on_p3 l _ E3)|].
  destruct (rmatch p4 l) eqn:E4; [exact (safe_on_p4 l _ E4)|].
  destruct (rmatch p5 l) eqn:E5; [exact (safe_on_p5 l _ E5)|].
  destruct (rmatch p6 l) eqn:E6; [exact (safe_on_p6 l _ E6)|].
  destruct (rmatch p7 l) eqn:E7; [exact (safe_on_p7 l _ E7)|].
  destruct (rmatch p8 l) eqn:E8; [exact (safe_on_p8 l _ E8)|].
  destruct (rmatch p9 l) eqn:E9; [apply safe_on_p9|].
  apply safe_ok.
Qed.

End Branches.

Lemma safe_loop (lines : list string) :
  forall st, stored st -> refs_valid st -> safe (loop st lines).
Proof.
  induction lines as [|l lines IH]; intros st Hst Hr; cbn [loop].
  - apply safe_ok.
  - apply safe_bind; [now apply safe_body|].
    intros st' H. apply IH; [eapply body_stored|eapply body_refs]; eauto.
Qed.

(** [cli] raises nothing but UnboundLocalError for [intf_dict] or
    [counter_dict] and ValueError: the references kept as places never
    dangle, the values found under [ipv4], [ipv6], [counters] and under an
    interface name are dictionaries, and the groups read as texts hold
    one. *)
Lemma parse_raises (out : string) (e : exn) :
  parse out = Raise e -> expected e.
Proof.
  unfold parse. apply safe_bind; [|intros; apply safe_ok].
  apply safe_loop; [reflexivity|]. split; intros n; discriminate.
Qed.

(** ** The record of an interface with a header line only *)

Lemma with_intf_apart n st st' f :
  intf_dict st <> Some n -> counter_dict st <> Some n ->
  with_intf st f = Ok st' -> apart n st st'.
Proof.
  intros Hi Hc H. unfold with_intf in H.
  destruct (intf_dict st) as [n0|] eqn:E; [|discriminate].
  inv_bind H. inv_bind H. injection H as <-.
  repeat split; cbn [result_dict intf_dict counter_dict]; auto; try congruence.
  apply get_set_other. congruence.
Qed.

Lemma with_counter_apart n st st' f :
  intf_dict st <> Some n -> counter_dict st <> Some n ->
  with_counter st f = Ok st' -> apart n st st'.
Proof.
  intros Hi Hc H. unfold with_counter in H.
  destruct (counter_dict st) as [n0|] eqn:E; [|discriminate].
  inv_bind H. inv_bind H. inv_bind H. injection H as <-.
  repeat split; cbn [result_dict intf_dict counter_dict]; auto; try congruence.
  apply get_set_other. congruence.
Qed.

Lemma apart_trans n st1 st2 st3 : apart n st1 st2 -> apart n st2 st3 -> apart n st1 st3.
Proof. intros (H1 & _ & _) (H2 & Hi & Hc). repeat split; congruence. Qed.

Lemma on_p1_apart n st m st' interface :
  get "interface" m = Some interface -> interface <> n ->
  counter_dict st <> Some n ->
  on_p1 st (groupdict p1 m) = Ok st' -> apart n st st'.
Proof.
  intros Hm Hne Hc H. unfold on_p1 in H.
  change (item "interface" (groupdict p1 m)) with (get "interface" m) in H.
  rewrite Hm in H. inv_bind H. inv_bind H. injection H as <-.
  repeat split; cbn [result_dict intf_dict counter_dict]; auto; try congruence.
  now apply get_set_other.
Qed.

Lemma on_p5_apart n st group st' :
  intf_dict st <> Some n -> counter_dict st <> Some n ->
  on_p5 st group = Ok st' -> apart n st st'.
Proof.
  intros Hi Hc H. unfold on_p5 in H.
  destruct (intf_dict st) as [n0|] eqn:E; [|discriminate].
  inv_bind H. inv_bind H. inv_bind H. injection H as <-.
  repeat split; cbn [result_dict intf_dict counter_dict]; auto; try congruence.
  apply get_set_other. congruence.
Qed.

Lemma on_p9_apart n st group st' :
  intf_dict st <> Some n -> counter_dict st <> Some n ->
  on_p9 st group = Ok st' -> apart n st st'.
Proof.
  intros Hi Hc H. unfold on_p9 in H. cbv zeta in H. inv_bind H.
  assert (H1 : apart n st a).
  { destruct (item "device_interrupt" group) as [s|];
      [|injection Ha as <-; repeat split; auto].
    destruct (Str.truthy s); [|injection Ha as <-; repeat split; auto].
    now apply (with_intf_apart n _ _ _ Hi Hc Ha). }
  destruct (item "device_memory" group) as [s|]; [|now injection H as <-].
  destruct (Str.truthy s); [|now injection H as <-].
  eapply apart_trans; [exact H1|].
  destruct H1 as (_ & Hi' & Hc'). now apply (with_intf_apart n _ _ _ Hi' Hc' H).
Qed.

(** The header of another interface leaves the record of [n] alone and
    takes [intf_dict] away from it. *)
Lemma header_apart n k line st st' :
  header_name line = Some k -> k <> n ->
  counter_dict st <> Some n ->
  body st line = Ok st' -> apart n st st'.
Proof.
  intros Hh Hk Hc H. unfold body in H. unfold header_name in Hh.
  destruct (Str.strip (Str.replace_tab line)) as [|c l] eqn:El;
    [vm_compute in Hh; discriminate|].
  cbn [Str.truthy negb] in H. unfold rules in H. cbn [dispatch] in H.
  destruct (rmatch p1 (String c l)) as [m|]; [|discriminate].
  exact (on_p1_apart n st m st' k Hh Hk Hc H).
Qed.

(** A line that is not the header of [n] leaves the record of [n] alone
    when neither reference points to it. *)
Lemma body_apart n line st st' :
  header_name line <> Some n ->
  intf_dict st <> Some n -> counter_dict st <> Some n ->
  body st line = Ok st' -> apart n st st'.
Proof.
  intros Hh Hi Hc H. unfold body in H. unfold header_name in Hh.
  destruct (negb _); [injection H as <-; repeat split; auto|].
  set (l := Str.strip (Str.replace_tab line)) in *. clearbody l.
  unfold rules in H. cbn [dispatch] in H.
  destruct (rmatch p1 l) as [m|] eqn:E1.
  { destruct (get "interface" m) as [i|] eqn:Ei.
    - apply (on_p1_apart n st m st' i Ei); [congruence|exact Hc|exact H].
    - unfold on_p1 in H.
      change (item "interface" (groupdict p1 m)) with (get "interface" m) in H.
      rewrite Ei in H. discriminate. }
  destruct (rmatch p2 l); [exact (with_intf_apart n _ _ _ Hi Hc H)|].
  destruct (rmatch p3 l); [exact (with_intf_apart n _ _ _ Hi Hc H)|].
  destruct (rmatch p4 l); [exact (with_intf_apart n _ _ _ Hi Hc H)|].
  destruct (rmatch p5 l); [exact (on_p5_apart n _ _ _ Hi Hc H)|].
  destruct (rmatch p6 l); [exact (with_counter_apart n _ _ _ Hi Hc H)|].
  destruct (rmatch p7 l); [exact (with_counter_apart n _ _ _ Hi Hc H)|].
  destruct (rmatch p8 l); [exact (with_counter_apart n _ _ _ Hi Hc H)|].
  destruct (rmatch p9 l); [exact (on_p9_apart n _ _ _ Hi Hc H)|].
  injection H as <-. repeat split; auto.
Qed.

Lemma loop_apart n lines :
  Forall (fun l => header_name l <> Some n) lines ->
  forall st st', intf_dict st <> Some n -> counter_dict st <> Some n ->
                 loop st lines = Ok st' -> apart n st st'.
Proof.
  induction 1 as [|l lines Hl _ IH]; intros st st' Hi Hc H; cbn [loop] in H.
  - injection H as <-. repeat split; auto.
  - inv_bind H. pose proof (body_apart n l st a Hl Hi Hc Ha) as H1.
    eapply apart_trans; [exact H1|]. destruct H1 as (_ & Hi' & Hc'). now apply IH.
Qed.

Lemma loop_app l1 : forall l2 st st',
  loop st (l1 ++ l2) = Ok st' ->
  exists st1, loop st l1 = Ok st1 /\ loop st1 l2 = Ok st'.
Proof.
  induction l1 as [|l l1 IH]; intros l2 st st' H; cbn [app loop] in *.
  - eauto.
  - inv_bind H. destruct (IH _ _ _ H) as (st1 & H1 & H2).
    exists st1. rewrite Ha. cbn [bind]. auto.
Qed.

Lemma loop_inert lines : Forall inert lines -> forall st, loop st lines = Ok st.
Proof.
  induction 1 as [|l lines Hl _ IH]; intros st; cbn [loop]; [reflexivity|].
  rewrite Hl. cbn [bind]. apply IH.
Qed.

(** The header of a new interface [name] creates its record with the
    three keys of the header. *)
Lemma header_step (st st' : locals) (line name flags mtu : string) (m : marks) :
  rmatch p1 (Str.strip (Str.replace_tab line)) = Some m ->
  get "interface" m = Some name ->
  get "flags" m = Some flags ->
  get "mtu" m = Some mtu ->
  Str.isdigit name = false ->
  Str.isdigit flags = false ->
  Dict.get name (result_dict st) = None ->
  body st line = Ok st' ->
  exists z,
    st' = mkLocals
            (Dict.set name (VMap [("interface", VStr name);
                                  ("flags", VStr flags);
                                  ("mtu", VInt z)]) (result_dict st))
            (Some name) (counter_dict st).
Proof.
  intros Hm Hi Hf Hu Hdi Hdf Hn H.
  pose proof (rmatch_digit_marks p1 _ m eq_refl Hm _ _ Hu eq_refl) as Hdec.
  unfold body in H.
  destruct (Str.strip (Str.replace_tab line)) as [|c l] eqn:El;
    [vm_compute in Hm; discriminate|].
  cbn [Str.truthy negb] in H. unfold rules in H. cbn [dispatch] in H.
  rewrite Hm in H. unfold on_p1 in H.
  change (item "interface" (groupdict p1 m)) with (get "interface" m) in H.
  change (groupdict p1 m) with
    [("interface", get "interface" m); ("flags", get "flags" m); ("mtu", get "mtu" m)]
    in H.
  rewrite Hi, Hf, Hu in H. unfold setdefault in H. rewrite Hn in H.
  cbn [bind comprehension] in H. unfold int_if_digit, int_of in H.
  rewrite Hdi, Hdf, (decimal_isdigit _ Hdec) in H.
  destruct (Str.int mtu) as [z|]; [|discriminate].
  cbn [bind] in H. injection H as <-. exists z. reflexivity.
Qed.

(** C2 apart from the digits: in a text where the interface [name] has
    its header line [hdr] and no detail line ([block], the lines up to
    the next header or the end, change nothing; no other line is a header
    of [name]), and where neither the name nor the flags token is made of
    digits only, the record of [name] has exactly the keys interface,
    flags and mtu, and its validation at the path of the interface
    reports the three missing keys type, destription and counters and
    nothing else. *)
Lemma header_only_record
      (pre block rest : list string) (hdr name flags mtu : string) (m : marks)
      (st' : locals) :
  rmatch p1 (Str.strip (Str.replace_tab hdr)) = Some m ->
  get "interface" m = Some name ->
  get "flags" m = Some flags ->
  get "mtu" m = Some mtu ->
  Str.isdigit name = false ->
  Str.isdigit flags = false ->
  Forall (fun l => header_name l <> Some name) (pre ++ rest) ->
  Forall inert block ->
  match rest with [] => True | l :: _ => header_name l <> None end ->
  loop (mkLocals [] None None) (pre ++ hdr :: block ++ rest) = Ok st' ->
  exists record,
    Dict.get name (result_dict st') = Some (VMap record) /\
    Dict.keys record = ["interface"; "flags"; "mtu"] /\
    check IfconfigSchema.interface [Key name] (VMap record)
    = [ MissingRequiredKey [Key name] "type";
        MissingRequiredKey [Key name] "destription";
        MissingRequiredKey [Key name] "counters" ].
Proof.
  intros Hm Hi Hf Hu Hdi Hdf Hothers Hblock Hnext H.
  apply Forall_app in Hothers. destruct Hothers as [Hpre Hrest].
  apply loop_app in H. destruct H as (st1 & H1 & H).
  assert (A1 : apart name (mkLocals [] None None) st1)
    by (apply (loop_apart name pre Hpre _ _); [discriminate|discriminate|exact H1]).
  destruct A1 as (Hg1 & Hi1 & Hc1). cbn [result_dict Dict.get] in Hg1.
  cbn [loop] in H. inv_bind H.
  destruct (header_step st1 a hdr name flags mtu m Hm Hi Hf Hu Hdi Hdf Hg1 Ha) as [z ->].
  clear Ha.
  apply loop_app in H. destruct H as (st2 & H2 & H).
  rewrite (loop_inert block Hblock) in H2. injection H2 as <-.
  exists [("interface", VStr name); ("flags", VStr flags); ("mtu", VInt z)].
  split; [|split; reflexivity].
  destruct rest as [|l rest]; cbn [loop] in H.
  - injection H as <-. cbn [result_dict]. apply get_set_same.
  - inv_bind H. apply Forall_cons_iff in Hrest. destruct Hrest as [Hl Hrest].
    destruct (header_name l) as [k|] eqn:Ek; [|contradiction].
    assert (A2 : apart name
                   (mkLocals (Dict.set name
                                (VMap [("interface", VStr name); ("flags", VStr flags);
                                       ("mtu", VInt z)]) (result_dict st1))
                             (Some name) (counter_dict st1)) a)
      by (apply (header_apart name k l _ _ Ek); [congruence|exact Hc1|exact Ha]).
    destruct A2 as (Hg2 & Hi2 & Hc2).
    destruct (loop_apart name rest Hrest _ _ Hi2 Hc2 H) as (Hg3 & _ & _).
    rewrite Hg3, Hg2. cbn [result_dict]. apply get_set_same.
Qed.

Lemma inert_blank : inert EmptyString.
Proof. intros st. reflexivity. Qed.

(** The interface [eth0] of this text has a header line only. *)
Example header_only_record_eth0 (st' : locals) :
  loop (mkLocals [] None None)
       [ "eth0: flags=4163<UP,BROADCAST>  mtu 1500"; "";
         "lo: flags=73<UP,LOOPBACK,RUNNING>  mtu 65536";
         "        loop  txqueuelen 1000  (Local Loopback)" ] = Ok st' ->
  exists record,
    Dict.get "eth0" (result_dict st') = Some (VMap record) /\
    Dict.keys record = ["interface"; "flags"; "mtu"] /\
    check IfconfigSchema.interface [Key "eth0"] (VMap record)
    = [ MissingRequiredKey [Key "eth0"] "type";
        MissingRequiredKey [Key "eth0"] "destription";
        MissingRequiredKey [Key "eth0"] "counters" ].
Proof.
  apply (header_only_record
           [] [""]
           [ "lo: flags=73<UP,LOOPBACK,RUNNING>  mtu 65536";
             "        loop  txqueuelen 1000  (Local Loopback)" ]
           "eth0: flags=4163<UP,BROADCAST>  mtu 1500"
           "eth0" "4163<UP,BROADCAST>" "1500"
           [("mtu", "1500"); ("flags", "4163<UP,BROADCAST>"); ("interface", "eth0")]);
    try (match goal with |- _ = _ => vm_compute; reflexivity end).
  - repeat constructor; vm_compute; discriminate.
  - constructor; [apply inert_blank|constructor].
  - vm_compute. discriminate.
Qed.

(** ** The schema engine on the two schemas *)

Lemma leftover_no_specs (path : Path) (m : Dict.t) :
  leftover [] path m = map (fun k => UnexpectedKey path k) (Dict.keys m).
Proof.
  induction m as [|[k v] m IH]; simpl; [reflexivity|]. now rewrite IH.
Qed.

(** C3.  Validating a non-empty mapping against the empty descriptor
    [{}] of [AnalyticsAsmbypassReportresultsSchema] fails, with one
    UnexpectedKey error for each top-level key, in the order of the
    mapping. *)
Theorem empty_schema_rejects_every_key (m : Dict.t) :
  m <> [] ->
  ok (validate (VMap m) AnalyticsAsmbypassReportresultsSchema.schema) = false /\
  errors (validate (VMap m) AnalyticsAsmbypassReportresultsSchema.schema)
  = map (fun k => UnexpectedKey [] k) (Dict.keys m).
Proof.
  intros Hm. unfold validate, AnalyticsAsmbypassReportresultsSchema.schema.
  cbn [check map resolve declared app ok errors].
  rewrite leftover_no_specs.
  destruct m as [|[k v] m]; [congruence|]. simpl. split; reflexivity.
Qed.

Lemma empty_schema_rejects_every_key_witness :
  ok (validate (VMap [("kind", VStr "tm:analytics"); ("entries", VMap [])])
               AnalyticsAsmbypassReportresultsSchema.schema) = false /\
  errors (validate (VMap [("kind", VStr "tm:analytics"); ("entries", VMap [])])
                   AnalyticsAsmbypassReportresultsSchema.schema)
  = [UnexpectedKey [] "kind"; UnexpectedKey [] "entries"].
Proof.
  apply (empty_schema_rejects_every_key
           [("kind", VStr "tm:analytics"); ("entries", VMap [])]).
  discriminate.
Defined.

Lemma unique_NoDup (l : list string) : unique l = true -> NoDup l.
Proof.
  induction l as [|x l IH]; cbn [unique]; intros H; constructor.
  - apply andb_true_iff in H. destruct H as [Hx _].
    intros Hin. apply negb_true_iff in Hx.
    assert (E : existsb (String.eqb x) l = true)
      by (apply existsb_exists; exists x; split; [exact Hin|apply String.eqb_refl]).
    congruence.
  - apply andb_true_iff in H. now apply IH.
Qed.

Lemma level_ok_spec (l : list (KeyMatcher * Descriptor * bool)) :
  level_ok l = true -> wildcards l <= 1 /\ NoDup (names l).
Proof.
  unfold level_ok. intros H. apply andb_true_iff in H. destruct H as [Hw Hu].
  split; [now apply Nat.leb_le|now apply unique_NoDup].
Qed.

(** C6.  The descriptor of [IfconfigSchema] meets the construction
    invariants: every mapping level has at most one wildcard, and the
    Literal and Optional names of a level are pairwise different. *)
Theorem ifconfig_schema_well_formed :
  well_formed IfconfigSchema.schema = true /\
  Forall (fun level => wildcards level <= 1 /\ NoDup (names level))
         (levels IfconfigSchema.schema).
Proof.
  split; [reflexivity|].
  apply Forall_forall. intros level Hin. apply level_ok_spec.
  revert level Hin. apply forallb_forall. reflexivity.
Qed.

(** C7.  Validating [{"mtu": "bad"}] against the mapping descriptor with
    the single literal key [mtu] of type [int], the entry the interface
    level of [IfconfigSchema] declares, fails with exactly one error: a
    TypeMismatch at path [mtu], expected [int], actual string. *)
Theorem mtu_bad_type_mismatch :
  validate (VMap [("mtu", VStr "bad")]) (MappingOf [key "mtu" int])
  = mkResult false [TypeMismatch [Key "mtu"] KInt (SScalar KString)] /\
  path_string [Key "mtu"] = "mtu" /\
  descriptor_of
    match IfconfigSchema.interface with MappingOf l => l | _ => [] end "mtu"
  = Some int.
Proof. repeat split. Qed.

(** ** [AnalyticsAsmbypassReportresults.rest] *)

Section Rest.
Import AnalyticsAsmbypassReportresults.

(** C5.  [rest] returns the decoded response itself when it is not
    empty, and returns the empty mapping exactly when the decoded
    response is falsy. *)
Theorem rest_returns_response
  (Device : Type) (get_json : Device -> string -> Json) (device : Device) :
  (truthy (get_json device cli_command) = true ->
   rest Device get_json device = get_json device cli_command) /\
  (rest Device get_json device = JDict [] <->
   truthy (get_json device cli_command) = false).
Proof.
  unfold rest. destruct (truthy (get_json device cli_command)) eqn:E; simpl.
  - split; [reflexivity|]. split; [|discriminate].
    intros H. rewrite H in E. discriminate.
  - split; [discriminate|]. split; reflexivity.
Qed.

End Rest.

(** ** [Ifconfig.cli] on given lines *)

(** With [output] given, [cli] is the parse of [output] and leaves the
    device alone. *)
Lemma cli_output (Device : Type) (execute : Device -> string -> string * Device)
      (device : Device) (interface : option string) (output : string) :
  cli Device execute device interface (Some output) = (parse output, device).
Proof. reflexivity. Qed.

(** C9.  A header line whose interface name and flags token consist of
    digits only is accepted by the header pattern, and [cli] stores both
    as integers, not as strings. *)
Theorem digit_only_header_stored_as_int
  (Device : Type) (execute : Device -> string -> string * Device)
  (device : Device) (interface : option string) :
  fst (cli Device execute device interface (Some "123: flags=4163 mtu 1500"))
  = Ok (VMap [("123", VMap [("interface", VInt 123);
                            ("flags", VInt 4163);
                            ("mtu", VInt 1500)])]).
Proof. rewrite cli_output. vm_compute. reflexivity. Qed.

(** C4.  [cli] raises on a text whose first matching line is a detail
    line: the branch reads [intf_dict] before any header bound it; on a
    text where an [RX errors] line comes before any [RX packets] line the
    branch reads [counter_dict] unbound; and on a header whose interface
    name is a superscript digit, which [isdigit] accepts and [int] does
    not, it raises ValueError. *)
Theorem detail_line_first_raises
  (Device : Type) (execute : Device -> string -> string * Device)
  (device : Device) (interface : option string) :
  fst (cli Device execute device interface
         (Some "inet 192.168.100.51  netmask 255.255.255.0  broadcast 192.168.100.255"))
  = Raise (UnboundLocalError "intf_dict") /\
  fst (cli Device execute device interface
         (Some (unlines ["lo: flags=73<UP,LOOPBACK,RUNNING>  mtu 65536";
                         "        RX errors 0  dropped 0  overruns 0  frame 0"])))
  = Raise (UnboundLocalError "counter_dict") /\
  fst (cli Device execute device interface
         (Some (String "178"%char ": flags=73<UP,LOOPBACK,RUNNING>  mtu 65536")))
  = Raise (ValueError (String "178"%char EmptyString)).
Proof. rewrite !cli_output. repeat split; vm_compute; reflexivity. Qed.

(** X1.  Nothing else is raised: on every text, given or read from the
    device, [cli] returns a dictionary or raises one of these three
    exceptions: the unbound local [intf_dict], the unbound local
    [counter_dict], or the [ValueError] of [int]. *)
Lemma cli_raises_only
  (Device : Type) (execute : Device -> string -> string * Device)
  (device : Device) (interface output : option string) (e : exn) :
  fst (cli Device execute device interface output) = Raise e -> expected e.
Proof.
  unfold cli. destruct output as [o|].
  - apply parse_raises.
  - destruct (execute device _) as [out device']. apply parse_raises.
Qed.

(** C2.  On the header-only text [1: flags=2 mtu 3] the record of the
    interface has exactly the keys interface, flags and mtu, and its
    validation reports the three missing keys at the path of the
    interface, but also a TypeMismatch for each of the present keys
    interface and flags. *)
Theorem header_only_digit_names_fail_validation
  (Device : Type) (execute : Device -> string -> string * Device)
  (device : Device) (interface : option string) :
  exists record,
    fst (cli Device execute device interface (Some "1: flags=2 mtu 3"))
    = Ok (VMap [("1", VMap record)]) /\
    Dict.keys record = ["interface"; "flags"; "mtu"] /\
    errors (validate (VMap [("1", VMap record)]) IfconfigSchema.schema)
    = [ TypeMismatch [Key "1"; Key "interface"] KString (SScalar KInt);
        TypeMismatch [Key "1"; Key "flags"] KString (SScalar KInt);
        MissingRequiredKey [Key "1"] "type";
        MissingRequiredKey [Key "1"] "destription";
        MissingRequiredKey [Key "1"] "counters" ].
Proof.
  exists [("interface", VInt 1); ("flags", VInt 2); ("mtu", VInt 3)].
  rewrite cli_output. repeat split; vm_compute; reflexivity.
Qed.

Lemma body_loop_line (st : locals) :
  body st loop_line
  = on_p4 st [("type", Some "loop"); ("mac", None);
              ("txqueuelen", Some "1000");
              ("destription", Some "Local Loopback")].
Proof. vm_compute. reflexivity. Qed.

Lemma body_ether_line (st : locals) :
  body st ether_line
  = on_p4 st [("type", Some "ether"); ("mac", Some "00:50:b6:ff:4b:83");
              ("txqueuelen", None); ("destription", Some "Ethernet")].
Proof. vm_compute. reflexivity. Qed.

(** C10.  In the record [d] of the interface the loop has reached, the
    line [loop  txqueuelen 1000  (Local Loopback)] sets type to [loop],
    destription to [Local Loopback] and txqueuelen to the integer 1000,
    and leaves the key mac as it was (the group mac takes no part in the
    match); the line [ether 00:50:b6:ff:4b:83  (Ethernet)] sets type,
    destription and mac, and leaves the key txqueuelen as it was. *)
Theorem type_line_mac_and_txqueuelen (st : locals) (n : string) (d : Dict.t) :
  intf_dict st = Some n ->
  Dict.get n (result_dict st) = Some (VMap d) ->
  (exists d',
     body st loop_line
     = Ok (mkLocals (Dict.set n (VMap d') (result_dict st))
                    (intf_dict st) (counter_dict st)) /\
     d' = Dict.update d [("type", VStr "loop");
                         ("destription", VStr "Local Loopback");
                         ("txqueuelen", VInt 1000)] /\
     Dict.get "mac" d' = Dict.get "mac" d /\
     Re.groupdict p4 match Re.rmatch p4 loop_line with Some m => m | None => [] end
     = [("type", Some "loop"); ("mac", None); ("txqueuelen", Some "1000");
        ("destription", Some "Local Loopback")]) /\
  (exists d',
     body st ether_line
     = Ok (mkLocals (Dict.set n (VMap d') (result_dict st))
                    (intf_dict st) (counter_dict st)) /\
     d' = Dict.update d [("type", VStr "ether");
                         ("destription", VStr "Ethernet");
                         ("mac", VStr "00:50:b6:ff:4b:83")] /\
     Dict.get "txqueuelen" d' = Dict.get "txqueuelen" d /\
     Re.groupdict p4 match Re.rmatch p4 ether_line with Some m => m | None => [] end
     = [("type", Some "ether"); ("mac", Some "00:50:b6:ff:4b:83");
        ("txqueuelen", None); ("destription", Some "Ethernet")]).
Proof.
  intros Hi Hd. split; eexists; (split; [|split; [reflexivity|]]).
  - rewrite body_loop_line. unfold on_p4, with_intf. rewrite Hi.
    unfold deref. rewrite Hd. reflexivity.
  - split; [|vm_compute; reflexivity].
    cbn [Dict.update]. rewrite !get_set_other by discriminate. reflexivity.
  - rewrite body_ether_line. unfold on_p4, with_intf. rewrite Hi.
    unfold deref. rewrite Hd. reflexivity.
  - split; [|vm_compute; reflexivity].
    cbn [Dict.update]. rewrite !get_set_other by discriminate. reflexivity.
Qed.

Lemma type_line_mac_and_txqueuelen_witness :
  fst (cli unit (fun d _ => ("", d)) tt None
         (Some (unlines ["lo: flags=73<UP,LOOPBACK,RUNNING>  mtu 65536";
                         String.append "        " loop_line])))
  = Ok (VMap [("lo", VMap [("interface", VStr "lo");
                           ("flags", VStr "73<UP,LOOPBACK,RUNNING>");
                           ("mtu", VInt 65536);
                           ("type", VStr "loop");
                           ("destription", VStr "Local Loopback");
                           ("txqueuelen", VInt 1000)])]).
Proof.
  pose proof (type_line_mac_and_txqueuelen
                (mkLocals [("lo", VMap [("interface", VStr "lo");
                                        ("flags", VStr "73<UP,LOOPBACK,RUNNING>");
                                        ("mtu", VInt 65536)])]
                          (Some "lo") None)
                "lo" _ eq_refl eq_refl) as [[d' [Hb [Hd' _]]] _].
  rewrite cli_output. unfold parse.
  change (Str.splitlines _) with
    ["lo: flags=73<UP,LOOPBACK,RUNNING>  mtu 65536";
     String.append "        " loop_line].
  cbn [loop].
  replace (body (mkLocals [] None None) "lo: flags=73<UP,LOOPBACK,RUNNING>  mtu 65536")
    with (Ok (mkLocals [("lo", VMap [("interface", VStr "lo");
                                     ("flags", VStr "73<UP,LOOPBACK,RUNNING>");
                                     ("mtu", VInt 65536)])]
                       (Some "lo") None))
    by (vm_compute; reflexivity).
  cbn [bind].
  replace (body _ (String.append "        " loop_line)) with
    (body (mkLocals [("lo", VMap [("interface", VStr "lo");
                                  ("flags", VStr "73<UP,LOOPBACK,RUNNING>");
                                  ("mtu", VInt 65536)])]
                    (Some "lo") None) loop_line)
    by (vm_compute; reflexivity).
  rewrite Hb, Hd'. reflexivity.
Defined.

(** ** The loop stores the [int] fields converted *)

Lemma get_In {V : Type} (k : string) (v : V) (d : list (string * V)) :
  Dict.get k d = Some v -> In (k, v) d.
Proof.
  induction d as [|[k' v'] d IH]; cbn [Dict.get]; [discriminate|].
  destruct (String.eqb_spec k' k) as [->|Hne].
  - intros [= ->]. now left.
  - intros H. right. auto.
Qed.

Lemma item_In (k v : string) (group : groups) :
  item k group = Some v -> In (k, Some v) group.
Proof.
  unfold item. destruct (Dict.get k group) as [ov|] eqn:E; [|discriminate].
  intros ->. now apply get_In.
Qed.

(** What a comprehension computed for a group is what the update stores
    under the name of the group. *)
Lemma comprehension_get (f : option string -> result Value) (group : groups) :
  forall items c k ov,
    NoDup (map fst group) -> comprehension f group = Ok items ->
    In (k, ov) group ->
    exists x, f ov = Ok x /\ Dict.get k (Dict.update c items) = Some x.
Proof.
  induction group as [|[k0 ov0] group IH]; intros items c k ov Hnd H Hin;
    [contradiction|].
  cbn [comprehension] in H. inv_bind H. inv_bind H. injection H as <-.
  cbn [map fst] in Hnd. apply NoDup_cons_iff in Hnd. destruct Hnd as [Hk0 Hnd].
  cbn [Dict.update]. destruct Hin as [[= <- <-]|Hin].
  - exists a. split; [exact Ha|].
    rewrite get_update_other by now rewrite (comprehension_keys _ _ _ Ha0).
    apply get_set_same.
  - exact (IH _ _ _ _ Hnd Ha0 Hin).
Qed.

Lemma int_of_inv (v : string) (x : Value) :
  int_of (Some v) = Ok x -> exists z, Str.int v = Some z /\ x = VInt z.
Proof.
  unfold int_of. destruct (Str.int v) as [z|]; [|discriminate].
  intros [= <-]. eauto.
Qed.

Lemma int_if_digit_inv (v : string) (x : Value) :
  decimal v = true -> int_if_digit (Some v) = Ok x ->
  exists z, Str.int v = Some z /\ x = VInt z.
Proof.
  unfold int_if_digit. intros Hd. rewrite (decimal_isdigit v Hd). apply int_of_inv.
Qed.

Lemma holder_record k ip n rd d :
  record_field k = true -> Dict.get n rd = Some (VMap d) ->
  holder k ip n rd = Some d.
Proof. intros Hk Hn. unfold holder, sub. now rewrite Hn, Hk. Qed.

Lemma holder_prefixlen ip n rd d v6 e :
  Dict.get n rd = Some (VMap d) -> Dict.get "ipv6" d = Some (VMap v6) ->
  Dict.get ip v6 = Some (VMap e) ->
  holder "prefixlen" (Some ip) n rd = Some e.
Proof.
  intros Hn H6 He. unfold holder, sub. rewrite Hn.
  change (record_field "prefixlen") with false.
  change ("prefixlen" =? "prefixlen") with true. cbv iota.
  now rewrite H6, He.
Qed.

Lemma holder_counters k ip n rd d c :
  record_field k = false -> String.eqb k "prefixlen" = false ->
  Dict.get n rd = Some (VMap d) -> Dict.get "counters" d = Some (VMap c) ->
  holder k ip n rd = Some c.
Proof. intros Hk Hp Hn Hc. unfold holder, sub. now rewrite Hn, Hk, Hp, Hc. Qed.

Lemma with_intf_inv st st' f :
  with_intf st f = Ok st' ->
  exists n d d',
    intf_dict st = Some n /\ Dict.get n (result_dict st) = Some (VMap d) /\
    f d = Ok d' /\
    st' = mkLocals (Dict.set n (VMap d') (result_dict st)) (Some n) (counter_dict st).
Proof.
  unfold with_intf. destruct (intf_dict st) as [n|] eqn:E; [|discriminate].
  intros H. inv_bind H. inv_bind H. injection H as <-.
  exists n, a, a0. auto using deref_get.
Qed.

Lemma with_counter_inv st st' f :
  with_counter st f = Ok st' ->
  exists n d c c',
    counter_dict st = Some n /\ Dict.get n (result_dict st) = Some (VMap d) /\
    Dict.get "counters" d = Some (VMap c) /\ f c = Ok c' /\
    st' = mkLocals (Dict.set n (VMap (Dict.set "counters" (VMap c') d)) (result_dict st))
                   (intf_dict st) (Some n).
Proof.
  unfold with_counter. destruct (counter_dict st) as [n|] eqn:E; [|discriminate].
  intros H. inv_bind H. inv_bind H. inv_bind H. injection H as <-.
  exists n, a, a0, a1. auto using deref_get.
Qed.

Ltac which_group Hv Hk :=
  let Hin := fresh "Hin" in
  let Hg := fresh "Hg" in
  pose proof (item_In _ _ _ Hv) as Hin;
  apply groupdict_in in Hin; destruct Hin as [Hin Hg];
  cbn [group_names app] in Hin;
  repeat (destruct Hin as [<-|Hin]; [try discriminate Hk|]);
  [..|contradiction].

Lemma groupdict_NoDup (p : regex) (m : marks) :
  unique (group_names p) = true -> NoDup (map fst (groupdict p m)).
Proof. intros H. rewrite groupdict_keys. now apply unique_NoDup. Qed.

(** The text [v] of a group of [p] named after an [int] field is stored
    under that name, as the integer [int] reads from it, by the update
    with a comprehension that converts. *)
Lemma group_coerced (f : option string -> result Value) (p : regex)
      (l : string) (m : marks) (items : list (string * Value)) (c : Dict.t)
      (k v : string) :
  (f = int_of \/ f = int_if_digit) ->
  unique (group_names p) = true -> digit_groups p = true ->
  rmatch p l = Some m ->
  comprehension f (groupdict p m) = Ok items ->
  is_int_field k = true -> item k (groupdict p m) = Some v ->
  exists z, Str.int v = Some z /\ Dict.get k (Dict.update c items) = Some (VInt z).
Proof.
  intros Hf Hu Hd Hm Hc Hk Hv.
  pose proof (item_In _ _ _ Hv) as Hin.
  destruct (comprehension_get f _ _ c k (Some v) (groupdict_NoDup p m Hu) Hc Hin)
    as (x & Hx & Hget).
  apply groupdict_in in Hin. destruct Hin as [_ Hg].
  pose proof (rmatch_digit_marks p l m Hd Hm k v (eq_sym Hg) Hk) as Hdec.
  assert (Hz : exists z, Str.int v = Some z /\ x = VInt z).
  { destruct Hf as [-> | ->]; [now apply int_of_inv|now apply int_if_digit_inv]. }
  destruct Hz as (z & Hz & ->). eauto.
Qed.

Section Step.
Variable l : string.

Lemma on_p1_written st st' m k v :
  rmatch p1 l = Some m -> on_p1 st (groupdict p1 m) = Ok st' ->
  is_int_field k = true -> item k (groupdict p1 m) = Some v ->
  written k v m st'.
Proof.
  intros Hm H Hk Hv.
  unfold on_p1 in H. destruct (item "interface" (groupdict p1 m)) as [i|]; [|discriminate].
  inv_bind H. inv_bind H. injection H as <-.
  destruct (group_coerced _ p1 l m a0 a k v (or_intror eq_refl) eq_refl eq_refl Hm Ha0 Hk Hv)
    as (z & Hz & Hget).
  which_group Hv Hk.
  exists z, i, (Dict.update a a0). repeat split; auto.
  apply holder_record; [reflexivity|]. cbn [result_dict]. apply get_set_same.
Qed.

Lemma on_p2_written st st' m k v :
  rmatch p2 l = Some m -> on_p2 st (groupdict p2 m) = Ok st' ->
  is_int_field k = true -> item k (groupdict p2 m) = Some v ->
  written k v m st'.
Proof. intros Hm H Hk Hv. which_group Hv Hk. Qed.

Lemma on_p3_written st st' m k v :
  rmatch p3 l = Some m -> on_p3 st (groupdict p3 m) = Ok st' ->
  is_int_field k = true -> item k (groupdict p3 m) = Some v ->
  written k v m st'.
Proof.
  intros Hm H Hk Hv. unfold on_p3 in H.
  apply with_intf_inv in H. destruct H as (n & d & d' & Hi & Hd & H & ->).
  change (item "ip" (groupdict p3 m)) with (get "ip" m) in H.
  destruct (get "ip" m) as [ip|] eqn:Eip; [|discriminate].
  inv_bind H. inv_bind H. inv_bind H. injection H as <-.
  destruct (group_coerced _ p3 l m a1 a0 k v (or_intror eq_refl) eq_refl eq_refl Hm Ha1 Hk Hv)
    as (z & Hz & Hget).
  which_group Hv Hk.
  exists z, n, (Dict.update a0 a1). repeat split; auto.
  cbn [result_dict]. rewrite Eip.
  eapply holder_prefixlen; apply get_set_same.
Qed.

Lemma on_p4_written st st' m k v :
  rmatch p4 l = Some m -> on_p4 st (groupdict p4 m) = Ok st' ->
  is_int_field k = true -> item k (groupdict p4 m) = Some v ->
  written k v m st'.
Proof.
  intros Hm H Hk Hv. unfold on_p4 in H.
  apply with_intf_inv in H. destruct H as (n & d & d' & Hi & Hd & H & ->).
  cbv zeta in H. inv_bind H. inv_bind H.
  pose proof (rmatch_digit_marks p4 l m eq_refl Hm) as Hdig.
  which_group Hv Hk.
  change (item "txqueuelen" (groupdict p4 m)) with (get "txqueuelen" m) in *.
  rewrite Hv in H.
  pose proof (Hdig _ _ Hv eq_refl) as Hdec.
  assert (Ht : Str.truthy v = true)
    by (unfold decimal in Hdec; apply andb_true_iff in Hdec; tauto).
  rewrite Ht in H. inv_bind H. injection H as <-.
  destruct (int_of_inv _ _ Ha1) as (z & Hz & ->).
  eexists z, n, _. repeat split; auto.
  - apply holder_record; [reflexivity|]. cbn [result_dict]. apply get_set_same.
  - cbn [Dict.update]. apply get_set_same.
Qed.

Lemma on_p5_written st st' m k v :
  rmatch p5 l = Some m -> on_p5 st (groupdict p5 m) = Ok st' ->
  is_int_field k = true -> item k (groupdict p5 m) = Some v ->
  written k v m st'.
Proof.
  intros Hm H Hk Hv. unfold on_p5 in H.
  destruct (intf_dict st) as [n|]; [|discriminate].
  inv_bind H. inv_bind H. inv_bind H. injection H as <-.
  destruct (group_coerced _ p5 l m a1 a0 k v (or_intror eq_refl) eq_refl eq_refl Hm Ha1 Hk Hv)
    as (z & Hz & Hget).
  which_group Hv Hk;
    (exists z, n, (Dict.update a0 a1); repeat split; auto;
     cbn [result_dict];
     eapply holder_counters; try reflexivity; apply get_set_same).
Qed.

Lemma counters_written (p : regex) (f : option string -> result Value)
      st st' m k v :
  (f = int_of \/ f = int_if_digit) ->
  unique (group_names p) = true -> digit_groups p = true ->
  forallb (fun n => negb (record_field n || String.eqb n "prefixlen"))
          (group_names p) = true ->
  rmatch p l = Some m ->
  with_counter st (fun c => items <- comprehension f (groupdict p m) ;;
                            Ok (Dict.update c items)) = Ok st' ->
  is_int_field k = true -> item k (groupdict p m) = Some v ->
  written k v m st'.
Proof.
  intros Hf Hu Hd Hnames Hm H Hk Hv.
  apply with_counter_inv in H. destruct H as (n & d & c & c' & Hc & Hn & Hcd & H & ->).
  inv_bind H. injection H as <-.
  destruct (group_coerced f p l m a c k v Hf Hu Hd Hm Ha Hk Hv) as (z & Hz & Hget).
  pose proof (item_In _ _ _ Hv) as Hin. apply groupdict_in in Hin.
  destruct Hin as [Hin _].
  pose proof (proj1 (forallb_forall _ _) Hnames k Hin) as Hkk.
  apply negb_true_iff in Hkk. apply orb_false_iff in Hkk. destruct Hkk as [Hk1 Hk2].
  exists z, n, (Dict.update c a). unfold reference. rewrite Hk1, Hk2.
  repeat split; auto. cbn [result_dict].
  eapply holder_counters; try eassumption; apply get_set_same.
Qed.

Lemma on_p9_written st st' m k v :
  rmatch p9 l = Some m -> on_p9 st (groupdict p9 m) = Ok st' ->
  is_int_field k = true -> item k (groupdict p9 m) = Some v ->
  written k v m st'.
Proof.
  intros Hm H Hk Hv. unfold on_p9 in H. cbv zeta in H.
  pose proof (rmatch_digit_marks p9 l m eq_refl Hm) as Hdig.
  which_group Hv Hk.
  change (item "device_interrupt" (groupdict p9 m)) with (get "device_interrupt" m) in *.
  rewrite Hv in H.
  pose proof (Hdig _ _ Hv eq_refl) as Hdec.
  assert (Ht : Str.truthy v = true)
    by (unfold decimal in Hdec; apply andb_true_iff in Hdec; tauto).
  rewrite Ht in H. inv_bind H.
  apply with_intf_inv in Ha. destruct Ha as (n & d & d' & Hi & Hd & Hf & ->).
  inv_bind Hf. injection Hf as <-.
  destruct (int_of_inv _ _ Ha) as (z & Hz & ->).
  assert (Hst1 : Dict.get n (Dict.set n (VMap (Dict.update d [("device_interrupt", VInt z)]))
                              (result_dict st))
                 = Some (VMap (Dict.update d [("device_interrupt", VInt z)])))
    by apply get_set_same.
  destruct (item "device_memory" (groupdict p9 m)) as [s|].
  2:{ injection H as <-. eexists z, n, _. repeat split; auto.
      - apply holder_record; [reflexivity|exact Hst1].
      - cbn [Dict.update]. apply get_set_same. }
  destruct (Str.truthy s).
  2:{ injection H as <-. eexists z, n, _. repeat split; auto.
      - apply holder_record; [reflexivity|exact Hst1].
      - cbn [Dict.update]. apply get_set_same. }
  apply with_intf_inv in H. destruct H as (n' & d1 & d1' & Hi' & Hd1 & Hf & ->).
  cbn [intf_dict result_dict counter_dict] in *. injection Hi' as <-.
  rewrite get_set_same in Hd1. injection Hd1 as <-. injection Hf as <-.
  eexists z, n, _. repeat split; auto.
  - apply holder_record; [reflexivity|]. cbn [result_dict]. apply get_set_same.
  - cbn [Dict.update]. rewrite get_set_other by discriminate. apply get_set_same.
Qed.

End Step.

(** One line: every group of the first matching pattern that is named
    after an [int] field is stored, converted, where the schema puts the
    field. *)
Lemma body_written st line st' p m k v :
  body st line = Ok st' ->
  first_match rules (Str.strip (Str.replace_tab line)) = Some (p, m) ->
  is_int_field k = true -> item k (groupdict p m) = Some v ->
  written k v m st'.
Proof.
  unfold body. cbv zeta.
  set (l := Str.strip (Str.replace_tab line)). clearbody l.
  intros H Hfm Hk Hv.
  destruct l as [|c l]; [vm_compute in Hfm; discriminate|].
  cbn [Str.truthy negb] in H. unfold rules in H, Hfm.
  cbn [dispatch first_match] in H, Hfm.
  set (l0 := String c l) in *. clearbody l0.
  destruct (rmatch p1 l0) as [m1|] eqn:E1;
    [injection Hfm as <- <-; exact (on_p1_written l0 _ _ _ _ _ E1 H Hk Hv)|].
  destruct (rmatch p2 l0) as [m2|] eqn:E2;
    [injection Hfm as <- <-; exact (on_p2_written l0 _ _ _ _ _ E2 H Hk Hv)|].
  destruct (rmatch p3 l0) as [m3|] eqn:E3;
    [injection Hfm as <- <-; exact (on_p3_written l0 _ _ _ _ _ E3 H Hk Hv)|].
  destruct (rmatch p4 l0) as [m4|] eqn:E4;
    [injection Hfm as <- <-; exact (on_p4_written l0 _ _ _ _ _ E4 H Hk Hv)|].
  destruct (rmatch p5 l0) as [m5|] eqn:E5;
    [injection Hfm as <- <-; exact (on_p5_written l0 _ _ _ _ _ E5 H Hk Hv)|].
  destruct (rmatch p6 l0) as [m6|] eqn:E6;
    [injection Hfm as <- <-;
     exact (counters_written l0 p6 int_of _ _ _ _ _ (or_introl eq_refl)
              eq_refl eq_refl eq_refl E6 H Hk Hv)|].
  destruct (rmatch p7 l0) as [m7|] eqn:E7;
    [injection Hfm as <- <-;
     exact (counters_written l0 p7 int_if_digit _ _ _ _ _ (or_intror eq_refl)
              eq_refl eq_refl eq_refl E7 H Hk Hv)|].
  destruct (rmatch p8 l0) as [m8|] eqn:E8;
    [injection Hfm as <- <-;
     exact (counters_written l0 p8 int_of _ _ _ _ _ (or_introl eq_refl)
              eq_refl eq_refl eq_refl E8 H Hk Hv)|].
  destruct (rmatch p9 l0) as [m9|] eqn:E9;
    [injection Hfm as <- <-; exact (on_p9_written l0 _ _ _ _ _ E9 H Hk Hv)|].
  discriminate.
Qed.

Lemma keys_kept_refl c : keys_kept c c.
Proof. intros k H. exact H. Qed.

Lemma keys_kept_trans c1 c2 c3 : keys_kept c1 c2 -> keys_kept c2 c3 -> keys_kept c1 c3.
Proof. intros H1 H2 k H. auto. Qed.

Lemma keys_kept_set k v c : keys_kept c (Dict.set k v c).
Proof.
  intros k0 H. destruct (string_dec k k0) as [<-|Hne].
  - rewrite get_set_same. discriminate.
  - now rewrite get_set_other.
Qed.

Lemma keys_kept_update items : forall c, keys_kept c (Dict.update c items).
Proof.
  induction items as [|[k v] items IH]; intros c; cbn [Dict.update].
  - apply keys_kept_refl.
  - eapply keys_kept_trans; [apply keys_kept_set|apply IH].
Qed.

Lemma sub_get k d m : sub k d = Some m <-> Dict.get k d = Some (VMap m).
Proof.
  unfold sub. destruct (Dict.get k d) as [[]|]; split; intros H; try discriminate;
    now injection H as ->.
Qed.

Lemma sub_set_same k m d : sub k (Dict.set k (VMap m) d) = Some m.
Proof. apply sub_get, get_set_same. Qed.

Lemma sub_set_other k k0 v d : k <> k0 -> sub k0 (Dict.set k v d) = sub k0 d.
Proof. intros H. unfold sub. now rewrite get_set_other. Qed.

Lemma sub_update_other k items d :
  ~ In k (map fst items) -> sub k (Dict.update d items) = sub k d.
Proof. intros H. unfold sub. now rewrite get_update_other. Qed.

Lemma setdefault_sub k d m c : setdefault k d = Ok m -> sub k d = Some c -> c = m.
Proof.
  unfold setdefault. intros H Hc. apply sub_get in Hc. rewrite Hc in H.
  now injection H.
Qed.

Lemma entries_kept_refl (v6 : Dict.t) :
  forall ip e, sub ip v6 = Some e -> exists e', sub ip v6 = Some e' /\ keys_kept e e'.
Proof. intros ip e H. exists e. split; [exact H|apply keys_kept_refl]. Qed.

Lemma record_kept_same d d' :
  keys_kept d d' -> sub "counters" d' = sub "counters" d ->
  sub "ipv6" d' = sub "ipv6" d -> record_kept d d'.
Proof.
  intros Hk Hc H6. split; [exact Hk|]. split.
  - intros c H. exists c. rewrite Hc. split; [exact H|apply keys_kept_refl].
  - intros v6 H. exists v6. rewrite H6. split; [exact H|apply entries_kept_refl].
Qed.

Lemma record_kept_refl d : record_kept d d.
Proof. apply record_kept_same; [apply keys_kept_refl|reflexivity|reflexivity]. Qed.

Lemma record_kept_trans d1 d2 d3 :
  record_kept d1 d2 -> record_kept d2 d3 -> record_kept d1 d3.
Proof.
  intros (K1 & C1 & V1) (K2 & C2 & V2). split; [|split].
  - eapply keys_kept_trans; eauto.
  - intros c Hc. destruct (C1 c Hc) as (c' & Hc' & Hk).
    destruct (C2 c' Hc') as (c'' & Hc'' & Hk'). exists c''.
    split; [exact Hc''|eapply keys_kept_trans; eauto].
  - intros v6 H6. destruct (V1 v6 H6) as (v6' & H6' & He).
    destruct (V2 v6' H6') as (v6'' & H6'' & He'). exists v6''.
    split; [exact H6''|]. intros ip e Hip.
    destruct (He ip e Hip) as (e' & Hip' & Hk).
    destruct (He' ip e' Hip') as (e'' & Hip'' & Hk'). exists e''.
    split; [exact Hip''|eapply keys_kept_trans; eauto].
Qed.

Lemma record_kept_update d items :
  ~ In "counters" (map fst items) -> ~ In "ipv6" (map fst items) ->
  record_kept d (Dict.update d items).
Proof.
  intros Hc H6. apply record_kept_same;
    [apply keys_kept_update|now apply sub_update_other..].
Qed.

Lemma record_kept_set k v d :
  k <> "counters" -> k <> "ipv6" -> record_kept d (Dict.set k v d).
Proof.
  intros Hc H6. apply record_kept_same;
    [apply keys_kept_set|now apply sub_set_other..].
Qed.

Lemma record_kept_counters d c c' :
  setdefault "counters" d = Ok c -> keys_kept c c' ->
  record_kept d (Dict.set "counters" (VMap c') d).
Proof.
  intros Hs Hk. split; [apply keys_kept_set|]. split.
  - intros c0 H0. rewrite (setdefault_sub _ _ _ _ Hs H0).
    exists c'. split; [apply sub_set_same|exact Hk].
  - intros v6 H6. exists v6. rewrite sub_set_other by discriminate.
    split; [exact H6|apply entries_kept_refl].
Qed.

Lemma record_kept_ipv6 d v6 ip e e' :
  setdefault "ipv6" d = Ok v6 -> setdefault ip v6 = Ok e -> keys_kept e e' ->
  record_kept d (Dict.set "ipv6" (VMap (Dict.set ip (VMap e') v6)) d).
Proof.
  intros Hs He Hk. split; [apply keys_kept_set|]. split.
  - intros c Hc. exists c. rewrite sub_set_other by discriminate.
    split; [exact Hc|apply keys_kept_refl].
  - intros v0 H0. rewrite (setdefault_sub _ _ _ _ Hs H0).
    eexists. split; [apply sub_set_same|]. intros ip0 e0 Hip.
    destruct (string_dec ip ip0) as [<-|Hne].
    + rewrite (setdefault_sub _ _ _ _ He Hip). exists e'.
      split; [apply sub_set_same|exact Hk].
    + exists e0. rewrite sub_set_other by exact Hne.
      split; [exact Hip|apply keys_kept_refl].
Qed.

Lemma records_kept_refl rd : records_kept rd rd.
Proof. intros n d H. exists d. split; [exact H|apply record_kept_refl]. Qed.

Lemma records_kept_trans r1 r2 r3 :
  records_kept r1 r2 -> records_kept r2 r3 -> records_kept r1 r3.
Proof.
  intros H1 H2 n d Hd. destruct (H1 n d Hd) as (d' & Hd' & Hk).
  destruct (H2 n d' Hd') as (d'' & Hd'' & Hk'). exists d''.
  split; [exact Hd''|eapply record_kept_trans; eauto].
Qed.

Lemma records_kept_set rd n d' :
  (forall d, sub n rd = Some d -> record_kept d d') ->
  records_kept rd (Dict.set n (VMap d') rd).
Proof.
  intros H n0 d0 H0. destruct (string_dec n n0) as [<-|Hne].
  - exists d'. split; [apply sub_set_same|now apply H].
  - exists d0. rewrite sub_set_other by exact Hne.
    split; [exact H0|apply record_kept_refl].
Qed.

Lemma with_intf_kept st st' f :
  (forall d d', f d = Ok d' -> record_kept d d') ->
  with_intf st f = Ok st' -> records_kept (result_dict st) (result_dict st').
Proof.
  intros Hf H. apply with_intf_inv in H.
  destruct H as (n & d & d' & _ & Hd & Hfd & ->). cbn [result_dict].
  apply records_kept_set. intros d0 H0. apply sub_get in H0.
  rewrite Hd in H0. injection H0 as <-. now apply Hf.
Qed.

Lemma with_counter_kept st st' f :
  (forall c c', f c = Ok c' -> keys_kept c c') ->
  with_counter st f = Ok st' -> records_kept (result_dict st) (result_dict st').
Proof.
  intros Hf H. apply with_counter_inv in H.
  destruct H as (n & d & c & c' & _ & Hd & Hc & Hfc & ->). cbn [result_dict].
  apply records_kept_set. intros d0 H0. apply sub_get in H0.
  rewrite Hd in H0. injection H0 as <-.
  apply (record_kept_counters d c c'); [|now apply Hf].
  unfold setdefault. now rewrite Hc.
Qed.

Lemma update_kept (f : option string -> result Value) (group : groups) c c' :
  (items <- comprehension f group ;; Ok (Dict.update c items)) = Ok c' ->
  keys_kept c c'.
Proof. intros H. inv_bind H. injection H as <-. apply keys_kept_update. Qed.

Lemma body_kept st line st' :
  body st line = Ok st' -> records_kept (result_dict st) (result_dict st').
Proof.
  unfold body. cbv zeta. set (l := Str.strip (Str.replace_tab line)). clearbody l.
  intros H. destruct (negb (Str.truthy l)); [injection H as <-; apply records_kept_refl|].
  unfold rules in H. cbn [dispatch] in H.
  destruct (rmatch p1 l) as [m|].
  { unfold on_p1 in H. destruct (item "interface" _) as [i|]; [|discriminate].
    inv_bind H. inv_bind H. injection H as <-. cbn [result_dict].
    apply records_kept_set. intros d Hd.
    rewrite (setdefault_sub _ _ _ _ Ha Hd).
    apply record_kept_update;
      rewrite (comprehension_keys _ _ _ Ha0), groupdict_keys; cbn; intuition discriminate. }
  destruct (rmatch p2 l) as [m|].
  { unfold on_p2 in H. eapply with_intf_kept; [|exact H]. intros d d' Hf. cbv beta in Hf.
    destruct (item "ip" _) as [ip|]; [|discriminate].
    inv_bind Hf. inv_bind Hf. inv_bind Hf. injection Hf as <-.
    apply record_kept_set; discriminate. }
  destruct (rmatch p3 l) as [m|].
  { unfold on_p3 in H. eapply with_intf_kept; [|exact H]. intros d d' Hf. cbv beta in Hf.
    destruct (item "ip" _) as [ip|]; [|discriminate].
    inv_bind Hf. inv_bind Hf. inv_bind Hf. injection Hf as <-.
    eapply record_kept_ipv6; eauto using keys_kept_update. }
  destruct (rmatch p4 l) as [m|].
  { unfold on_p4 in H. eapply with_intf_kept; [|exact H]. intros d d' Hf. cbv zeta in Hf.
    inv_bind Hf. inv_bind Hf.
    assert (H1 : record_kept d (Dict.update d [("type", a); ("destription", a0)]))
      by (apply record_kept_update; cbn; intuition discriminate).
    assert (H2 : record_kept d
                   match item "mac" (groupdict p4 m) with
                   | Some s => if Str.truthy s
                               then Dict.update (Dict.update d [("type", a); ("destription", a0)])
                                                [("mac", VStr s)]
                               else Dict.update d [("type", a); ("destription", a0)]
                   | None => Dict.update d [("type", a); ("destription", a0)]
                   end).
    { destruct (item "mac" _) as [s|]; [destruct (Str.truthy s)|]; try exact H1.
      eapply record_kept_trans; [exact H1|].
      apply record_kept_update; cbn; intuition discriminate. }
    destruct (item "txqueuelen" _) as [s|]; [|now injection Hf as <-].
    destruct (Str.truthy s); [|now injection Hf as <-].
    inv_bind Hf. injection Hf as <-.
    eapply record_kept_trans; [exact H2|].
    apply (record_kept_update _ [("txqueuelen", a1)]); cbn; intuition discriminate. }
  destruct (rmatch p5 l) as [m|].
  { unfold on_p5 in H. destruct (intf_dict st) as [n|]; [|discriminate].
    inv_bind H. inv_bind H. inv_bind H. injection H as <-. cbn [result_dict].
    apply records_kept_set. intros d Hd. apply sub_get in Hd.
    rewrite (deref_get _ _ _ Ha) in Hd. injection Hd as <-.
    eapply record_kept_counters; [exact Ha0|apply keys_kept_update]. }
  destruct (rmatch p6 l) as [m|].
  { eapply with_counter_kept; [|exact H]. intros c c'. apply update_kept. }
  destruct (rmatch p7 l) as [m|].
  { eapply with_counter_kept; [|exact H]. intros c c'. apply update_kept. }
  destruct (rmatch p8 l) as [m|].
  { eapply with_counter_kept; [|exact H]. intros c c'. apply update_kept. }
  destruct (rmatch p9 l) as [m|].
  { unfold on_p9 in H. cbv zeta in H. inv_bind H.
    assert (H1 : records_kept (result_dict st) (result_dict a)).
    { destruct (item "device_interrupt" _) as [s|];
        [|injection Ha as <-; apply records_kept_refl].
      destruct (Str.truthy s); [|injection Ha as <-; apply records_kept_refl].
      eapply with_intf_kept; [|exact Ha]. intros d d' Hf. cbv beta in Hf.
      inv_bind Hf. injection Hf as <-.
      apply (record_kept_update _ [("device_interrupt", a0)]); cbn; intuition discriminate. }
    eapply records_kept_trans; [exact H1|].
    destruct (item "device_memory" _) as [s|];
      [|injection H as <-; apply records_kept_refl].
    destruct (Str.truthy s); [|injection H as <-; apply records_kept_refl].
    eapply with_intf_kept; [|exact H]. intros d d' Hf. cbv beta in Hf.
    injection Hf as <-.
    apply (record_kept_update _ [("device_memory", VStr s)]); cbn; intuition discriminate. }
  injection H as <-. apply records_kept_refl.
Qed.

Lemma loop_kept lines : forall st st',
  loop st lines = Ok st' -> records_kept (result_dict st) (result_dict st').
Proof.
  induction lines as [|l lines IH]; intros st st' H; cbn [loop] in H.
  - injection H as <-. apply records_kept_refl.
  - inv_bind H. eapply records_kept_trans; [exact (body_kept _ _ _ Ha)|exact (IH _ _ H)].
Qed.

Lemma present_kept k ip n rd rd' :
  records_kept rd rd' -> present k ip n rd -> present k ip n rd'.
Proof.
  intros Hk (d & x & Hd & Hx). unfold present, holder in *.
  destruct (sub n rd) as [d0|] eqn:E0; [|discriminate].
  destruct (Hk n d0 E0) as (d0' & E0' & K & C & V). rewrite E0'.
  assert (Hx' : Dict.get k d <> None) by congruence.
  destruct (record_field k).
  - injection Hd as <-. destruct (Dict.get k d0') as [x'|] eqn:E; [eauto|].
    now apply K in Hx'.
  - destruct (String.eqb k "prefixlen").
    + destruct (sub "ipv6" d0) as [v6|] eqn:E6; [|discriminate].
      destruct ip as [a|]; [|discriminate].
      destruct (V v6 eq_refl) as (v6' & E6' & He). rewrite E6'.
      destruct (He a d Hd) as (e' & Ha & Ke). rewrite Ha.
      destruct (Dict.get k e') as [x'|] eqn:E; [eauto|]. now apply Ke in Hx'.
    + destruct (C d Hd) as (c' & Hc' & Kc). rewrite Hc'.
      destruct (Dict.get k c') as [x'|] eqn:E; [eauto|]. now apply Kc in Hx'.
Qed.

(** In a dictionary with the invariant of the loop, what the holder of an
    [int] field has under the field is an integer. *)
Lemma holder_int k ip n rd d x :
  int_fields_are_integers (VMap rd) -> is_int_field k = true ->
  holder k ip n rd = Some d -> Dict.get k d = Some x -> exists z, x = VInt z.
Proof.
  intros (rd0 & [= <-] & H) Hk Hd Hx. unfold holder in Hd.
  destruct (sub n rd) as [d0|] eqn:E0; [|discriminate]. apply sub_get in E0.
  destruct (H n _ E0) as (d1 & [= <-] & Hrec & H6 & Hc).
  unfold is_int_field in Hk. apply existsb_exists in Hk.
  destruct Hk as (k0 & Hin & Heq). apply String.eqb_eq in Heq. subst k0.
  assert (Hall : forall ks, In k ks -> Forall (int_at d) ks -> exists z, x = VInt z).
  { intros ks Hks Hf. exact (proj1 (Forall_forall _ _) Hf k Hks x Hx). }
  vm_compute in Hin.
  repeat (destruct Hin as [<-|Hin];
          [cbn in Hd;
           first
             [ injection Hd as <-; eapply Hall; [|exact Hrec]; cbn; tauto
             | destruct (sub "ipv6" d0) as [v6|] eqn:E6; [|discriminate];
               destruct ip as [a|]; [|discriminate];
               apply sub_get in E6; destruct (H6 _ E6) as (m6 & [= <-] & He);
               apply sub_get in Hd; destruct (He _ _ Hd) as (em & [= <-] & Hi);
               exact (Hi x Hx)
             | apply sub_get in Hd; destruct (Hc _ Hd) as (cm & [= <-] & Hf);
               eapply Hall; [|exact Hf]; cbn; tauto ]|]).
  contradiction.
Qed.

(** C1.  Whatever text [cli] parses, the given [output] or what the
    device printed, every field [IfconfigSchema] declares as [int] is an
    integer in the dictionary [cli] returns; and the loop puts it there
    converted.  A line stores every group of its pattern that is named
    after an [int] field, as the integer [int] reads from the text of the
    group, in the dictionary the schema puts the field in: the record of
    the interface [intf_dict] points to, the entry of the address in its
    [ipv6] mapping, or the counters [counter_dict] points to.  What a
    line has stored stays: for every line of the text and every such
    group, the dictionary [cli] returns holds an integer under the name
    of the group in that place of some interface, and for the last line
    of the text it is the integer of the group. *)
Theorem int_fields_stored_as_integers
  (Device : Type) (execute : Device -> string -> string * Device)
  (device : Device) (interface : option string) :
  (forall output res,
     fst (cli Device execute device interface output) = Ok res ->
     ints_stored IfconfigSchema.schema res = true /\ int_fields_are_integers res) /\
  (forall st line st' p m k v,
     body st line = Ok st' ->
     first_match rules (Str.strip (Str.replace_tab line)) = Some (p, m) ->
     is_int_field k = true -> item k (groupdict p m) = Some v ->
     exists z n d,
       Str.int v = Some z /\ reference k st' = Some n /\
       holder k (get "ip" m) n (result_dict st') = Some d /\
       Dict.get k d = Some (VInt z)) /\
  (forall output pre line post res p m k v,
     fst (cli Device execute device interface (Some output)) = Ok res ->
     Str.splitlines output = pre ++ line :: post ->
     first_match rules (Str.strip (Str.replace_tab line)) = Some (p, m) ->
     is_int_field k = true -> item k (groupdict p m) = Some v ->
     exists rd n d z,
       res = VMap rd /\
       holder k (get "ip" m) n rd = Some d /\
       Dict.get k d = Some (VInt z) /\
       (post = [] -> Str.int v = Some z)).
Proof.
  assert (A : forall output res,
             fst (cli Device execute device interface output) = Ok res ->
             ints_stored IfconfigSchema.schema res = true /\ int_fields_are_integers res).
  { intros output res H.
    assert (Hp : exists out, parse out = Ok res).
    { unfold cli in H. destruct output as [o|].
      - exists o. exact H.
      - destruct (execute device _) as [out device']. exists out. exact H. }
    destruct Hp as [out Hp]. pose proof (parse_stored out res Hp) as Hs.
    split; [exact Hs|]. now apply ints_stored_explicit. }
  split; [exact A|]. split.
  - intros st line st' p m k v. apply body_written.
  - intros output pre line post res p m k v H Hl Hfm Hk Hv.
    destruct (A _ _ H) as [_ Hint].
    rewrite cli_output in H. cbn [fst] in H. unfold parse in H. rewrite Hl in H.
    inv_bind H. injection H as <-.
    apply loop_app in Ha. destruct Ha as (st1 & _ & H). cbn [loop] in H.
    inv_bind H.
    destruct (body_written _ _ _ _ _ _ _ Ha Hfm Hk Hv) as (z & n & d & Hz & _ & Hd & Hg).
    destruct post as [|l post].
    + cbn [loop] in H. injection H as <-.
      exists (result_dict a0), n, d, z. auto.
    + assert (Hp : present k (get "ip" m) n (result_dict a0)) by (exists d, (VInt z); auto).
      apply (present_kept _ _ _ _ _ (loop_kept _ _ _ H)) in Hp.
      destruct Hp as (d' & x & Hd' & Hx).
      destruct (holder_int _ _ _ _ _ _ Hint Hk Hd' Hx) as [z' ->].
      exists (result_dict a), n, d', z'. repeat split; auto. discriminate.
Qed.

Lemma int_fields_stored_as_integers_witness :
  (ints_stored IfconfigSchema.schema eth0_result = true /\
   int_fields_are_integers eth0_result) /\
  exists rd n d z,
    eth0_result = VMap rd /\
    holder "rx_bytes" None n rd = Some d /\
    Dict.get "rx_bytes" d = Some (VInt z) /\
    (@nil string = [] -> Str.int "4274334" = Some z).
Proof.
  destruct (int_fields_stored_as_integers unit (fun d _ => (EmptyString, d)) tt None)
    as (A & _ & C).
  split.
  - apply (A (Some (unlines eth0_lines)) eth0_result). vm_compute. reflexivity.
  - apply (C (unlines eth0_lines)
             [ "eth0: flags=4163<UP,BROADCAST,RUNNING,MULTICAST>  mtu 1500";
               "        inet6 fe80::39:1a5c:726d:b23e  prefixlen 64  scopeid 0x20<link>";
               "        ether 48:2a:e3:ff:58:55  txqueuelen 1000  (Ethernet)" ]
             "        RX packets 66766  bytes 4274334 (4.0 MiB)"
             []
             eth0_result p5
             [("rx_value", "4.0 MiB"); ("rx_bytes", "4274334"); ("rx_pkts", "66766")]
             "rx_bytes" "4274334"); vm_compute; reflexivity.
Defined.


(* ================================================================== *)
(** * Further properties of [Ifconfig.cli] *)
(* ================================================================== *)

Lemma keys_set (k : string) (v : Value) (d : Dict.t) :
  Dict.keys (Dict.set k v d) = add_new k (Dict.keys d).
Proof.
  unfold add_new, Dict.keys. induction d as [|[k' v'] d IH]; [reflexivity|].
  cbn [Dict.set map fst existsb]. rewrite (String.eqb_sym k k').
  destruct (String.eqb k' k); cbn [orb map fst]; [reflexivity|].
  rewrite IH. destruct (existsb (String.eqb k) (map fst d)); reflexivity.
Qed.

Lemma keys_set_deref (n : string) (rd d d' : Dict.t) :
  deref n rd = Ok d -> Dict.keys (Dict.set n (VMap d') rd) = Dict.keys rd.
Proof. intros H. apply deref_get in H. exact (keys_set_present _ _ _ _ H). Qed.

Lemma with_intf_keys st f st' :
  with_intf st f = Ok st' -> Dict.keys (result_dict st') = Dict.keys (result_dict st).
Proof.
  unfold with_intf. destruct (intf_dict st); [|discriminate]. intros H.
  inv_bind H. inv_bind H. injection H as <-. exact (keys_set_deref _ _ _ _ Ha).
Qed.

Lemma with_counter_keys st f st' :
  with_counter st f = Ok st' -> Dict.keys (result_dict st') = Dict.keys (result_dict st).
Proof.
  unfold with_counter. destruct (counter_dict st); [|discriminate]. intros H.
  inv_bind H. inv_bind H. inv_bind H. injection H as <-. exact (keys_set_deref _ _ _ _ Ha).
Qed.

Lemma on_p5_keys st group st' :
  on_p5 st group = Ok st' -> Dict.keys (result_dict st') = Dict.keys (result_dict st).
Proof.
  unfold on_p5. destruct (intf_dict st); [|discriminate]. intros H.
  inv_bind H. inv_bind H. inv_bind H. injection H as <-. exact (keys_set_deref _ _ _ _ Ha).
Qed.

Lemma on_p9_keys st group st' :
  on_p9 st group = Ok st' -> Dict.keys (result_dict st') = Dict.keys (result_dict st).
Proof.
  unfold on_p9. cbv zeta. intros H. inv_bind H.
  assert (H1 : Dict.keys (result_dict a) = Dict.keys (result_dict st)).
  { destruct (item "device_interrupt" group) as [s|]; [|now injection Ha as <-].
    destruct (Str.truthy s); [|now injection Ha as <-].
    exact (with_intf_keys _ _ _ Ha). }
  destruct (item "device_memory" group) as [s|]; [|now injection H as <-].
  destruct (Str.truthy s); [|now injection H as <-].
  rewrite (with_intf_keys _ _ _ H). exact H1.
Qed.

(** A line adds a key to [result_dict] only as the header of an
    interface that has none yet. *)
Lemma body_keys line st st' :
  body st line = Ok st' ->
  Dict.keys (result_dict st')
  = match header_name line with
    | Some n => add_new n (Dict.keys (result_dict st))
    | None => Dict.keys (result_dict st)
    end.
Proof.
  unfold body, header_name. intros H.
  destruct (Str.strip (Str.replace_tab line)) as [|c l] eqn:El.
  { cbn in H. now injection H as <-. }
  cbn [Str.truthy negb] in H. unfold rules in H. cbn [dispatch] in H.
  destruct (rmatch p1 (String c l)) as [m|] eqn:E1.
  { unfold on_p1 in H.
    change (item "interface" (groupdict p1 m)) with (get "interface" m) in H.
    destruct (get "interface" m) as [i|]; [|discriminate].
    inv_bind H. inv_bind H. injection H as <-. cbn [result_dict]. apply keys_set. }
  destruct (rmatch p2 (String c l)); [exact (with_intf_keys _ _ _ H)|].
  destruct (rmatch p3 (String c l)); [exact (with_intf_keys _ _ _ H)|].
  destruct (rmatch p4 (String c l)); [exact (with_intf_keys _ _ _ H)|].
  destruct (rmatch p5 (String c l)); [exact (on_p5_keys _ _ _ H)|].
  destruct (rmatch p6 (String c l)); [exact (with_counter_keys _ _ _ H)|].
  destruct (rmatch p7 (String c l)); [exact (with_counter_keys _ _ _ H)|].
  destruct (rmatch p8 (String c l)); [exact (with_counter_keys _ _ _ H)|].
  destruct (rmatch p9 (String c l)); [exact (on_p9_keys _ _ _ H)|].
  now injection H as <-.
Qed.

Lemma loop_keys lines : forall st st',
  loop st lines = Ok st' ->
  Dict.keys (result_dict st') = header_names (Dict.keys (result_dict st)) lines.
Proof.
  induction lines as [|l lines IH]; intros st st' H; cbn [loop header_names] in *.
  - now injection H as <-.
  - inv_bind H. rewrite (IH _ _ H), (body_keys _ _ _ Ha). reflexivity.
Qed.

Lemma add_new_NoDup k l : NoDup l -> NoDup (add_new k l).
Proof.
  intros Hl. unfold add_new. destruct (existsb (String.eqb k) l) eqn:E; [exact Hl|].
  apply NoDup_app; [exact Hl|repeat constructor; intros []|].
  intros x Hx [Hk|[]]. subst x.
  assert (existsb (String.eqb k) l = true)
    by (apply existsb_exists; exists k; split; [exact Hx|apply String.eqb_refl]).
  congruence.
Qed.

Lemma header_names_NoDup lines : forall seen, NoDup seen -> NoDup (header_names seen lines).
Proof.
  induction lines as [|l lines IH]; intros seen Hs; cbn [header_names]; [exact Hs|].
  apply IH. destruct (header_name l); [now apply add_new_NoDup|exact Hs].
Qed.

(** X3.  The dictionary [cli] returns has one entry for each interface a
    header line names, in the order of the first header of each, and no
    other entry: a detail line never adds an interface. *)
Theorem result_keys_are_header_names
  (Device : Type) (execute : Device -> string -> string * Device)
  (device : Device) (interface : option string) (output : string) (res : Value) :
  fst (cli Device execute device interface (Some output)) = Ok res ->
  exists rd, res = VMap rd /\
    Dict.keys rd = header_names [] (Str.splitlines output) /\
    NoDup (Dict.keys rd).
Proof.
  rewrite cli_output. cbn [fst]. unfold parse. intros H. inv_bind H. injection H as <-.
  exists (result_dict a). split; [reflexivity|].
  pose proof (loop_keys _ _ _ Ha) as Hk. cbn [result_dict Dict.keys map] in Hk.
  split; [exact Hk|]. rewrite Hk. apply header_names_NoDup. constructor.
Qed.

Lemma replace_tab_append (a b : string) :
  Str.replace_tab (String.append a b)
  = String.append (Str.replace_tab a) (Str.replace_tab b).
Proof.
  induction a as [|c a IH]; cbn [String.append Str.replace_tab]; [reflexivity|].
  rewrite IH. destruct (Ascii.eqb c Char.TAB); reflexivity.
Qed.

Lemma replace_tab_blank (w : string) : blank w = true -> blank (Str.replace_tab w) = true.
Proof.
  unfold blank. induction w as [|c w IH]; cbn [Str.all Str.replace_tab]; [reflexivity|].
  intros H. apply andb_true_iff in H. destruct H as [Hc Hw].
  destruct (Ascii.eqb c Char.TAB); cbn [String.append Str.all].
  - now rewrite IH.
  - now rewrite Hc, IH.
Qed.

Lemma lstrip_blank (w s : string) :
  blank w = true -> Str.lstrip (String.append w s) = Str.lstrip s.
Proof.
  unfold blank. induction w as [|c w IH]; cbn [Str.all String.append Str.lstrip]; [reflexivity|].
  intros H. apply andb_true_iff in H. destruct H as [Hc Hw]. now rewrite Hc, IH.
Qed.

Lemma rstrip_blank (w : string) : blank w = true -> Str.rstrip w = EmptyString.
Proof.
  unfold blank. induction w as [|c w IH]; cbn [Str.all Str.rstrip]; [reflexivity|].
  intros H. apply andb_true_iff in H. destruct H as [Hc Hw]. now rewrite IH, Hc.
Qed.

Lemma rstrip_append_blank (s w : string) :
  blank w = true -> Str.rstrip (String.append s w) = Str.rstrip s.
Proof.
  intros Hw. induction s as [|c s IH]; cbn [String.append Str.rstrip].
  - now apply rstrip_blank.
  - now rewrite IH.
Qed.

Lemma lstrip_all_blank (w : string) : blank w = true -> Str.lstrip w = EmptyString.
Proof.
  unfold blank. induction w as [|c w IH]; cbn [Str.all Str.lstrip]; [reflexivity|].
  intros H. apply andb_true_iff in H. destruct H as [Hc Hw]. now rewrite Hc, IH.
Qed.

Lemma strip_append_blank (s w : string) :
  blank w = true -> Str.strip (String.append s w) = Str.strip s.
Proof.
  intros Hw. unfold Str.strip.
  induction s as [|c s IH]; cbn [String.append Str.lstrip].
  - now rewrite (lstrip_all_blank w Hw).
  - destruct (Char.isspace c); [exact IH|].
    change (String c (String.append s w)) with (String.append (String c s) w).
    now apply rstrip_append_blank.
Qed.

(** X4.  Blanks and tabs around a line do not matter: the loop does with
    the line what it does with the line without them; a line of blanks
    and tabs only does nothing. *)
Theorem body_ignores_surrounding_blanks (st : locals) (w1 line w2 : string) :
  blank w1 = true -> blank w2 = true ->
  body st (String.append w1 (String.append line w2)) = body st line /\
  body st (String.append w1 w2) = Ok st.
Proof.
  intros H1 H2.
  assert (E : forall l, Str.strip (Str.replace_tab (String.append w1 (String.append l w2)))
                        = Str.strip (Str.replace_tab l)).
  { intros l. rewrite !replace_tab_append. unfold Str.strip at 1.
    rewrite lstrip_blank by now apply replace_tab_blank.
    apply strip_append_blank. now apply replace_tab_blank. }
  split.
  - unfold body. now rewrite E.
  - unfold body.
    change (String.append w1 w2) with (String.append w1 (String.append EmptyString w2)).
    rewrite (E EmptyString). reflexivity.
Qed.

Lemma body_ignores_surrounding_blanks_witness :
  body (mkLocals [] None None)
       (String.append (String Char.TAB "  ")
          (String.append "lo: flags=73<UP>  mtu 65536" " "))
  = body (mkLocals [] None None) "lo: flags=73<UP>  mtu 65536" /\
  body (mkLocals [] None None) (String.append (String Char.TAB "  ") " ")
  = Ok (mkLocals [] None None).
Proof.
  apply (body_ignores_surrounding_blanks (mkLocals [] None None)
           (String Char.TAB "  ") "lo: flags=73<UP>  mtu 65536" " ");
    reflexivity.
Defined.

(** ** The text of a mark comes from the line *)

Lemma all_append (P : ascii -> bool) (a b : string) :
  Str.all P (String.append a b) = (Str.all P a && Str.all P b)%bool.
Proof.
  induction a as [|c a IH]; cbn [String.append Str.all andb]; [reflexivity|].
  rewrite IH. apply andb_assoc.
Qed.

Lemma all_take (P : ascii -> bool) (n : nat) : forall s,
  Str.all P s = true -> Str.all P (Str.take n s) = true.
Proof.
  induction n as [|n IH]; intros [|c s]; cbn [Str.take Str.all]; auto.
  intros H. apply andb_true_iff in H. destruct H as [Hc Hs]. now rewrite Hc, IH.
Qed.

Lemma all_drop_prefix (P : ascii -> bool) (t : string) : forall s s',
  Str.all P s = true -> Str.drop_prefix t s = Some s' -> Str.all P s' = true.
Proof.
  induction t as [|a t IH]; intros s s' Hs H; cbn [Str.drop_prefix] in H.
  - now injection H as <-.
  - destruct s as [|b s]; [discriminate|]. destruct (Ascii.eqb a b); [|discriminate].
    cbn [Str.all] in Hs. apply andb_true_iff in Hs. destruct Hs as [_ Hs]. eauto.
Qed.

Lemma rep_all {A : Type} (P : ascii -> bool) (cs : cset) (s : string)
      (k : string -> option A) (e : A) :
  Str.all P s = true -> rep cs s k = Some e ->
  exists s', Str.all P s' = true /\ k s' = Some e.
Proof.
  intros Hs H. apply rep_inv in H. destruct H as (v & s' & -> & _ & Hk).
  rewrite all_append in Hs. apply andb_true_iff in Hs. destruct Hs as [_ Hs]. eauto.
Qed.

Lemma run_chars {A : Type} (P : ascii -> bool) (r : regex) :
  forall (n0 : nat) (s : string) (g : marks) (k : string -> marks -> option A) (e : A),
    Str.all P s = true -> marks_all P g ->
    run r n0 s g k = Some e ->
    exists s' g', Str.all P s' = true /\ marks_all P g' /\ k s' g' = Some e.
Proof.
  induction r as [| |cs|cs|t|r1 IH1 r2 IH2|r1 IH1|name r1 IH1];
    intros n0 s g k e Hs Hg H; cbn [run] in H.
  - destruct (Nat.eqb _ _); [eauto|discriminate].
  - destruct s as [|c [|c' s']]; [eauto| |discriminate].
    destruct (Ascii.eqb c Char.LF); [eauto|discriminate].
  - destruct s as [|c s]; [discriminate|]. destruct (mem cs c); [|discriminate].
    cbn [Str.all] in Hs. apply andb_true_iff in Hs. destruct Hs as [_ Hs].
    destruct (rep_all P _ _ _ _ Hs H) as (s' & Hs' & Hk). eauto.
  - destruct (rep_all P _ _ _ _ Hs H) as (s' & Hs' & Hk). eauto.
  - destruct (Str.drop_prefix t s) as [s'|] eqn:E; [|discriminate].
    pose proof (all_drop_prefix P _ _ _ Hs E). eauto.
  - destruct (IH1 _ _ _ _ _ Hs Hg H) as (s1 & g1 & Hs1 & Hg1 & H1).
    exact (IH2 _ _ _ _ _ Hs1 Hg1 H1).
  - destruct (run r1 n0 s g k) as [e'|] eqn:E.
    + injection H as ->. exact (IH1 _ _ _ _ _ Hs Hg E).
    + eauto.
  - destruct (IH1 _ _ _ _ _ Hs Hg H) as (s1 & g1 & Hs1 & Hg1 & H1).
    eexists _, _. split; [exact Hs1|]. split; [|exact H1].
    intros n v. cbn [get]. destruct (String.eqb name n); [|apply Hg1].
    intros [= <-]. unfold captured. now apply all_take.
Qed.

(** The marks of a match are texts of characters of the line. *)
Lemma rmatch_chars (P : ascii -> bool) (p : regex) (line : string) (m : marks) :
  Str.all P line = true -> rmatch p line = Some m -> marks_all P m.
Proof.
  intros Hl H. unfold rmatch in H.
  assert (H0 : marks_all P []) by (intros n v; discriminate).
  destruct (run_chars P p _ _ _ _ _ Hl H0 H) as (s' & g' & _ & Hg & [= <-]).
  exact Hg.
Qed.

(** ** Groups of the form [cs+] are not empty *)

Lemma run_truthy {A : Type} (F : string -> bool) (r : regex) :
  plus_groups F r = true ->
  forall (n0 : nat) (s : string) (g : marks) (k : string -> marks -> option A) (e : A),
    marks_truthy F g ->
    run r n0 s g k = Some e ->
    exists s' g', marks_truthy F g' /\ k s' g' = Some e.
Proof.
  induction r as [| |cs|cs|t|r1 IH1 r2 IH2|r1 IH1|name r1 IH1];
    intros Hr n0 s g k e Hg H; cbn [run] in H.
  - destruct (Nat.eqb _ _); [eauto|discriminate].
  - destruct s as [|c [|c' s']]; [eauto| |discriminate].
    destruct (Ascii.eqb c Char.LF); [eauto|discriminate].
  - destruct s as [|c s]; [discriminate|]. destruct (mem cs c); [|discriminate].
    apply rep_inv in H. destruct H as (v & s' & _ & _ & Hk). eauto.
  - apply rep_inv in H. destruct H as (v & s' & _ & _ & Hk). eauto.
  - destruct (Str.drop_prefix t s); [eauto|discriminate].
  - cbn [plus_groups] in Hr. apply andb_true_iff in Hr. destruct Hr as [Hr1 Hr2].
    destruct (IH1 Hr1 _ _ _ _ _ Hg H) as (s1 & g1 & Hg1 & H1).
    exact (IH2 Hr2 _ _ _ _ _ Hg1 H1).
  - cbn [plus_groups] in Hr.
    destruct (run r1 n0 s g k) as [e'|] eqn:E.
    + injection H as ->. exact (IH1 Hr _ _ _ _ _ Hg E).
    + eauto.
  - cbn [plus_groups] in Hr. apply andb_true_iff in Hr. destruct Hr as [Hn Hr1].
    assert (Hcons : forall v g', marks_truthy F g' ->
                                 (F name = true -> Str.truthy v = true) ->
                                 marks_truthy F ((name, v) :: g')).
    { intros v g' Hg' Hv n w. cbn [get].
      destruct (String.eqb_spec name n) as [->|Hne]; [|apply Hg'].
      intros [= <-]. exact Hv. }
    destruct (F name) eqn:Hf.
    + destruct r1 as [| |cs| | | | |]; try discriminate Hn.
      cbn [run] in H. destruct s as [|c s]; [discriminate|].
      destruct (mem cs c) eqn:Hc; [|discriminate].
      apply rep_inv in H. destruct H as (v & s' & -> & Hv & Hk).
      change (String c (String.append v s')) with (String.append (String c v) s') in Hk.
      rewrite captured_append in Hk.
      eexists _, _. split; [|exact Hk]. apply Hcons; [assumption|reflexivity].
    + destruct (IH1 Hr1 _ _ _ _ _ Hg H) as (s1 & g1 & Hg1 & H1).
      eexists _, _. split; [|exact H1]. apply Hcons; [assumption|congruence].
Qed.

Lemma rmatch_truthy (F : string -> bool) (p : regex) (line : string) (m : marks) :
  plus_groups F p = true -> rmatch p line = Some m -> marks_truthy F m.
Proof.
  intros Hp H. unfold rmatch in H.
  assert (H0 : marks_truthy F []) by (intros n v; discriminate).
  destruct (run_truthy F p Hp _ _ _ _ _ H0 H) as (s' & g' & Hg & [= <-]).
  exact Hg.
Qed.

(** ** The digits of a mark come from the line *)

Lemma digits_append (a b : string) :
  digits (String.append a b) = digits a + digits b.
Proof.
  induction a as [|c a IH]; cbn [String.append digits]; [reflexivity|].
  rewrite IH. lia.
Qed.

Lemma digits_take (n : nat) : forall s, digits (Str.take n s) <= digits s.
Proof.
  induction n as [|n IH]; intros [|c s]; cbn [Str.take digits]; try lia.
  specialize (IH s). lia.
Qed.

Lemma digits_drop_prefix (t : string) : forall s s',
  Str.drop_prefix t s = Some s' -> digits s' <= digits s.
Proof.
  induction t as [|a t IH]; intros s s' H; cbn [Str.drop_prefix] in H.
  - injection H as <-. lia.
  - destruct s as [|b s]; [discriminate|]. destruct (Ascii.eqb a b); [|discriminate].
    specialize (IH _ _ H). cbn [digits]. lia.
Qed.

Lemma rep_digits {A : Type} (n : nat) (cs : cset) (s : string)
      (k : string -> option A) (e : A) :
  digits s <= n -> rep cs s k = Some e ->
  exists s', digits s' <= n /\ k s' = Some e.
Proof.
  intros Hs H. apply rep_inv in H. destruct H as (v & s' & -> & _ & Hk).
  rewrite digits_append in Hs. exists s'. split; [lia|exact Hk].
Qed.

Lemma run_digits {A : Type} (n : nat) (r : regex) :
  forall (n0 : nat) (s : string) (g : marks) (k : string -> marks -> option A) (e : A),
    digits s <= n -> marks_digits n g ->
    run r n0 s g k = Some e ->
    exists s' g', digits s' <= n /\ marks_digits n g' /\ k s' g' = Some e.
Proof.
  induction r as [| |cs|cs|t|r1 IH1 r2 IH2|r1 IH1|name r1 IH1];
    intros n0 s g k e Hs Hg H; cbn [run] in H.
  - destruct (Nat.eqb _ _); [eauto|discriminate].
  - destruct s as [|c [|c' s']]; [eauto| |discriminate].
    destruct (Ascii.eqb c Char.LF); [eauto|discriminate].
  - destruct s as [|c s]; [discriminate|]. destruct (mem cs c); [|discriminate].
    assert (Hs' : digits s <= n) by (cbn [digits] in Hs; lia).
    destruct (rep_digits n _ _ _ _ Hs' H) as (s' & Hs'' & Hk). eauto.
  - destruct (rep_digits n _ _ _ _ Hs H) as (s' & Hs' & Hk). eauto.
  - destruct (Str.drop_prefix t s) as [s'|] eqn:E; [|discriminate].
    pose proof (digits_drop_prefix _ _ _ E).
    exists s', g. split; [lia|]. split; assumption.
  - destruct (IH1 _ _ _ _ _ Hs Hg H) as (s1 & g1 & Hs1 & Hg1 & H1).
    exact (IH2 _ _ _ _ _ Hs1 Hg1 H1).
  - destruct (run r1 n0 s g k) as [e'|] eqn:E.
    + injection H as ->. exact (IH1 _ _ _ _ _ Hs Hg E).
    + eauto.
  - destruct (IH1 _ _ _ _ _ Hs Hg H) as (s1 & g1 & Hs1 & Hg1 & H1).
    eexists _, _. split; [exact Hs1|]. split; [|exact H1].
    intros k0 v. cbn [get]. destruct (String.eqb name k0); [|apply Hg1].
    intros [= <-]. unfold captured.
    pose proof (digits_take (String.length s - String.length s1) s). lia.
Qed.

(** A mark has no more decimal digits than the line. *)
Lemma rmatch_digits (p : regex) (line : string) (m : marks) :
  rmatch p line = Some m -> marks_digits (digits line) m.
Proof.
  intros H. unfold rmatch in H.
  assert (H0 : marks_digits (digits line) []) by (intros k v; discriminate).
  destruct (run_digits (digits line) p _ _ _ _ _ (le_n _) H0 H)
    as (s' & g' & _ & Hg & [= <-]).
  exact Hg.
Qed.

Lemma digits_decimal (v : string) :
  Str.all Char.isdecimal v = true -> digits v = String.length v.
Proof.
  induction v as [|c v IH]; cbn [Str.all digits String.length]; [reflexivity|].
  intros H. apply andb_true_iff in H. destruct H as [-> Hv]. now rewrite IH.
Qed.

(** A mark of decimal digits of a line with few digits is within the
    limit of [int]. *)
Lemma mark_within_limit (p : regex) (l : string) (m : marks) (k v : string) :
  few_digits l = true -> rmatch p l = Some m -> get k m = Some v ->
  Str.all Char.isdecimal v = true -> within_limit v = true.
Proof.
  unfold few_digits, within_limit. intros Hl Hm Hv Hd.
  pose proof (rmatch_digits p l m Hm k v Hv) as Hle.
  rewrite (digits_decimal v Hd) in Hle.
  apply N.leb_le in Hl. apply N.leb_le. lia.
Qed.

(** ** On ASCII texts with few digits the conversions succeed *)

Lemma ascii_isdigit_decimal (c : ascii) :
  ascii_char c = true -> Char.isdigit c = true -> Char.isdecimal c = true.
Proof.
  unfold ascii_char, Char.isdigit, Char.at_code. intros Ha Hd.
  apply N.ltb_lt in Ha.
  destruct (Char.isdecimal c); [reflexivity|]. cbn [orb] in Hd.
  apply orb_true_iff in Hd. destruct Hd as [Hd|Hd];
    [apply orb_true_iff in Hd; destruct Hd as [Hd|Hd]|];
    apply N.eqb_eq in Hd; lia.
Qed.

Lemma isascii_isdigit_decimal (v : string) :
  isascii v = true -> Str.all Char.isdigit v = true -> Str.all Char.isdecimal v = true.
Proof.
  unfold isascii. induction v as [|c v IH]; cbn [Str.all]; [reflexivity|].
  intros Hp Hd. apply andb_true_iff in Hp. apply andb_true_iff in Hd.
  destruct Hp as [Hc Hp], Hd as [Hdc Hd].
  now rewrite (ascii_isdigit_decimal c Hc Hdc), IH.
Qed.

Lemma int_of_decimal (v : string) :
  decimal v = true -> within_limit v = true -> exists x, int_of (Some v) = Ok x.
Proof.
  intros Hd Hn. unfold int_of. destruct (decimal_int v Hd Hn) as [z ->]. eauto.
Qed.

Lemma int_if_digit_ascii (v : string) :
  isascii v = true ->
  (Str.all Char.isdecimal v = true -> within_limit v = true) ->
  exists x, int_if_digit (Some v) = Ok x.
Proof.
  intros Hp Hn. unfold int_if_digit. destruct (Str.isdigit v) eqn:Hd; [|eauto].
  apply int_of_decimal.
  - unfold decimal. unfold Str.isdigit in Hd. destruct v as [|c v]; [discriminate|].
    cbn [Str.truthy andb]. now apply isascii_isdigit_decimal.
  - apply Hn. unfold Str.isdigit in Hd. destruct v as [|c v]; [discriminate|].
    now apply isascii_isdigit_decimal.
Qed.

Lemma comprehension_ok (f : option string -> result Value) (group : groups) :
  (forall k ov, In (k, ov) group -> exists x, f ov = Ok x) ->
  exists items, comprehension f group = Ok items.
Proof.
  induction group as [|[k ov] group IH]; intros H; cbn [comprehension]; [eauto|].
  destruct (H k ov (or_introl eq_refl)) as [x ->].
  destruct IH as [items ->]; [intros k' ov' Hin; apply (H k' ov'); now right|].
  cbn [bind]. eauto.
Qed.

(** The comprehension over the groups of a pattern without optional part
    succeeds when [f] does on every text the groups can hold. *)
Lemma groups_ok (f : option string -> result Value) (p : regex)
      (line : string) (m : marks) :
  rmatch p line = Some m -> sure p = group_names p ->
  (forall k v, get k m = Some v -> exists x, f (Some v) = Ok x) ->
  exists items, comprehension f (groupdict p m) = Ok items.
Proof.
  intros Hm Hp Hf. apply comprehension_ok. intros k ov Hin.
  apply groupdict_in in Hin. destruct Hin as [Hk ->].
  rewrite <- Hp in Hk. destruct (rmatch_sure p line m k Hm Hk) as [v Hv].
  rewrite Hv. now apply (Hf k).
Qed.

(** ** ASCII texts stay ASCII, and lose no digit but to the strip *)

Lemma all_replace_tab (P : ascii -> bool) (s : string) :
  P " "%char = true -> Str.all P s = true -> Str.all P (Str.replace_tab s) = true.
Proof.
  intros Hsp. induction s as [|c s IH]; cbn [Str.all Str.replace_tab]; [reflexivity|].
  intros H. apply andb_true_iff in H. destruct H as [Hc Hs].
  destruct (Ascii.eqb c Char.TAB); cbn [String.append Str.all].
  - now rewrite Hsp, IH.
  - now rewrite Hc, IH.
Qed.

Lemma all_lstrip (P : ascii -> bool) (s : string) :
  Str.all P s = true -> Str.all P (Str.lstrip s) = true.
Proof.
  induction s as [|c s IH]; cbn [Str.all Str.lstrip]; [reflexivity|].
  intros H. destruct (Char.isspace c); [|exact H].
  apply andb_true_iff in H. now apply IH.
Qed.

Lemma all_rstrip (P : ascii -> bool) (s : string) :
  Str.all P s = true -> Str.all P (Str.rstrip s) = true.
Proof.
  induction s as [|c s IH]; cbn [Str.all Str.rstrip]; [reflexivity|].
  intros H. apply andb_true_iff in H. destruct H as [Hc Hs]. specialize (IH Hs).
  destruct (Str.rstrip s).
  - destruct (Char.isspace c); cbn [Str.all]; [reflexivity|now rewrite Hc].
  - cbn [Str.all] in *. now rewrite Hc, IH.
Qed.

Lemma all_splitlines (P : ascii -> bool) (s : string) :
  Str.all P s = true -> Forall (fun l => Str.all P l = true) (Str.splitlines s).
Proof.
  assert (G : forall n s, String.length s <= n -> Str.all P s = true ->
                          Forall (fun l => Str.all P l = true) (Str.splitlines s)).
  { induction n as [|n IH]; intros [|c t] Hn Ht; cbn [Str.splitlines]; try constructor;
      cbn [String.length] in Hn; try lia.
    cbn [Str.all] in Ht. apply andb_true_iff in Ht. destruct Ht as [Hc Ht].
    destruct (Char.islinebreak c).
    - constructor; [reflexivity|]. destruct t as [|c2 t2]; [constructor|].
      destruct (Ascii.eqb c Char.CR && Ascii.eqb c2 Char.LF)%bool.
      + apply IH; [cbn [String.length] in Hn; lia|].
        cbn [Str.all] in Ht. apply andb_true_iff in Ht. tauto.
      + apply IH; [lia|exact Ht].
    - assert (Hrec : Forall (fun l => Str.all P l = true) (Str.splitlines t))
        by (apply IH; [lia|exact Ht]).
      destruct (Str.splitlines t) as [|l ls].
      + constructor; [cbn [Str.all]; now rewrite Hc|constructor].
      + apply Forall_cons_iff in Hrec. destruct Hrec as [Hl Hls].
        constructor; [cbn [Str.all]; now rewrite Hc, Hl|exact Hls]. }
  intros H. exact (G _ s (le_n _) H).
Qed.

(** ** Each branch succeeds when the references it reads are bound *)

Lemma setdefault_ok specs m k sub :
  ints_stored (MappingOf specs) (VMap m) = true ->
  descriptor_of specs k = Some (MappingOf sub) ->
  exists m', setdefault k m = Ok m'.
Proof.
  intros Hm Hd. unfold setdefault. destruct (Dict.get k m) as [v|] eqn:Hk; [|eauto].
  destruct (mapping_shape _ _ (level_get _ _ _ _ _ Hm Hk Hd)) as [m' ->]. eauto.
Qed.

Section Progress.
Variable st : locals.
Hypothesis Hst : stored st.
Hypothesis Hr : refs_valid st.

Lemma with_intf_ok (f : Dict.t -> result Dict.t) :
  bound (intf_dict st) = true ->
  (forall d, ints_stored IfconfigSchema.interface (VMap d) = true ->
             exists d', f d = Ok d') ->
  exists st', with_intf st f = Ok st' /\
              intf_dict st' = intf_dict st /\ counter_dict st' = counter_dict st.
Proof.
  intros Hb Hf. unfold with_intf. destruct Hr as [Hi _].
  destruct (intf_dict st) as [n|]; [|discriminate].
  destruct (intf_ok_deref _ _ (Hi n eq_refl)) as [d Hd]. rewrite Hd. cbn [bind].
  unfold stored, IfconfigSchema.schema in Hst.
  destruct (Hf d (level_deref _ _ _ _ _ Hst Hd (top_descriptor n))) as [d' ->].
  cbn [bind]. eauto.
Qed.

Lemma with_intf_unbound (f : Dict.t -> result Dict.t) :
  bound (intf_dict st) = false ->
  with_intf st f = Raise (UnboundLocalError "intf_dict").
Proof. unfold with_intf. destruct (intf_dict st); [discriminate|reflexivity]. Qed.

Lemma with_counter_ok (f : Dict.t -> result Dict.t) :
  bound (counter_dict st) = true ->
  (forall c, exists c', f c = Ok c') ->
  exists st', with_counter st f = Ok st' /\
              intf_dict st' = intf_dict st /\ counter_dict st' = counter_dict st.
Proof.
  intros Hb Hf. unfold with_counter. destruct Hr as [_ Hc].
  destruct (counter_dict st) as [n|]; [|discriminate].
  destruct (Hc n eq_refl) as (d & c & Hd & Hcd).
  unfold deref. rewrite Hd. cbn [bind]. rewrite Hcd. cbn [bind].
  destruct (Hf c) as [c' ->]. cbn [bind]. eauto.
Qed.

Lemma with_counter_unbound (f : Dict.t -> result Dict.t) :
  bound (counter_dict st) = false ->
  with_counter st f = Raise (UnboundLocalError "counter_dict").
Proof. unfold with_counter. destruct (counter_dict st); [discriminate|reflexivity]. Qed.

Variable l : string.
Hypothesis Hl : isascii l = true.
Hypothesis Hfew : few_digits l = true.

Lemma coerced_groups p m :
  rmatch p l = Some m -> sure p = group_names p ->
  exists items, comprehension int_if_digit (groupdict p m) = Ok items.
Proof.
  intros Hm Hp. apply (groups_ok _ p l m Hm Hp). intros k v Hv.
  apply int_if_digit_ascii.
  - exact (rmatch_chars ascii_char p l m Hl Hm k v Hv).
  - exact (mark_within_limit p l m k v Hfew Hm Hv).
Qed.

Lemma text_groups p m :
  rmatch p l = Some m -> sure p = group_names p ->
  exists items, comprehension text_of (groupdict p m) = Ok items.
Proof.
  intros Hm Hp. apply (groups_ok _ p l m Hm Hp). intros k v Hv. cbn. eauto.
Qed.

Lemma on_p1_ok m :
  rmatch p1 l = Some m ->
  exists st', on_p1 st (groupdict p1 m) = Ok st' /\
              bound (intf_dict st') = true /\ counter_dict st' = counter_dict st.
Proof.
  intros Hm. unfold on_p1.
  change (item "interface" (groupdict p1 m)) with (get "interface" m).
  destruct (rmatch_sure p1 l m "interface" Hm) as [i ->]; [cbn; auto|].
  unfold stored, IfconfigSchema.schema in Hst.
  destruct (setdefault_ok _ _ i _ Hst (top_descriptor i)) as [d ->]. cbn [bind].
  destruct (coerced_groups p1 m Hm eq_refl) as [items ->]. cbn [bind]. eauto.
Qed.

Lemma on_p2_ok m :
  rmatch p2 l = Some m -> bound (intf_dict st) = true ->
  exists st', on_p2 st (groupdict p2 m) = Ok st' /\
              intf_dict st' = intf_dict st /\ counter_dict st' = counter_dict st.
Proof.
  intros Hm Hb. unfold on_p2. apply with_intf_ok; [exact Hb|]. intros d Hd.
  change (item "ip" (groupdict p2 m)) with (get "ip" m).
  destruct (rmatch_sure p2 l m "ip" Hm) as [ip ->]; [cbn; auto|].
  destruct (setdefault_ok _ _ "ipv4" _ Hd eq_refl) as [v4 H4]. rewrite H4. cbn [bind].
  pose proof (level_setdefault _ _ "ipv4" _ _ Hd H4 eq_refl) as Hv4.
  destruct (setdefault_ok _ _ ip _ Hv4 eq_refl) as [e ->]. cbn [bind].
  destruct (text_groups p2 m Hm eq_refl) as [items ->]. cbn [bind]. eauto.
Qed.

Lemma on_p3_ok m :
  rmatch p3 l = Some m -> bound (intf_dict st) = true ->
  exists st', on_p3 st (groupdict p3 m) = Ok st' /\
              intf_dict st' = intf_dict st /\ counter_dict st' = counter_dict st.
Proof.
  intros Hm Hb. unfold on_p3. apply with_intf_ok; [exact Hb|]. intros d Hd.
  change (item "ip" (groupdict p3 m)) with (get "ip" m).
  destruct (rmatch_sure p3 l m "ip" Hm) as [ip ->]; [cbn; auto|].
  destruct (setdefault_ok _ _ "ipv6" _ Hd eq_refl) as [v6 H6]. rewrite H6. cbn [bind].
  pose proof (level_setdefault _ _ "ipv6" _ _ Hd H6 eq_refl) as Hv6.
  destruct (setdefault_ok _ _ ip _ Hv6 eq_refl) as [e ->]. cbn [bind].
  destruct (coerced_groups p3 m Hm eq_refl) as [items ->]. cbn [bind]. eauto.
Qed.

Lemma on_p4_ok m :
  rmatch p4 l = Some m -> bound (intf_dict st) = true ->
  exists st', on_p4 st (groupdict p4 m) = Ok st' /\
              intf_dict st' = intf_dict st /\ counter_dict st' = counter_dict st.
Proof.
  intros Hm Hb. unfold on_p4. apply with_intf_ok; [exact Hb|]. intros d Hd. cbv zeta.
  change (item "type" (groupdict p4 m)) with (get "type" m).
  change (item "destription" (groupdict p4 m)) with (get "destription" m).
  change (item "txqueuelen" (groupdict p4 m)) with (get "txqueuelen" m).
  destruct (rmatch_sure p4 l m "type" Hm) as [ty ->]; [cbn; auto|].
  destruct (rmatch_sure p4 l m "destription" Hm) as [de ->]; [cbn; auto|].
  cbn [text_of bind].
  destruct (get "txqueuelen" m) as [s|] eqn:Et; [|eauto].
  destruct (Str.truthy s); [|eauto].
  pose proof (rmatch_digit_marks p4 l m eq_refl Hm _ _ Et eq_refl) as Hdec.
  assert (Hw : within_limit s = true).
  { apply (mark_within_limit p4 l m _ s Hfew Hm Et).
    unfold decimal in Hdec. apply andb_true_iff in Hdec. tauto. }
  destruct (int_of_decimal s Hdec Hw) as [x ->].
  cbn [bind]. eauto.
Qed.

Lemma on_p5_ok m :
  rmatch p5 l = Some m -> bound (intf_dict st) = true ->
  exists st', on_p5 st (groupdict p5 m) = Ok st' /\
              intf_dict st' = intf_dict st /\ bound (counter_dict st') = true.
Proof.
  intros Hm Hb. unfold on_p5. destruct Hr as [Hi _].
  destruct (intf_dict st) as [n|]; [|discriminate].
  destruct (intf_ok_deref _ _ (Hi n eq_refl)) as [d Hd]. rewrite Hd. cbn [bind].
  unfold stored, IfconfigSchema.schema in Hst.
  pose proof (level_deref _ _ _ _ _ Hst Hd (top_descriptor n)) as Hid.
  destruct (setdefault_ok _ _ "counters" _ Hid eq_refl) as [c ->]. cbn [bind].
  destruct (coerced_groups p5 m Hm eq_refl) as [items ->]. cbn [bind]. eauto.
Qed.

Lemma on_p5_unbound group :
  bound (intf_dict st) = false ->
  on_p5 st group = Raise (UnboundLocalError "intf_dict").
Proof. unfold on_p5. destruct (intf_dict st); [discriminate|reflexivity]. Qed.

Lemma digit_groups_ok p m :
  rmatch p l = Some m -> sure p = group_names p -> digit_groups p = true ->
  forallb is_int_field (group_names p) = true ->
  exists items, comprehension int_of (groupdict p m) = Ok items.
Proof.
  intros Hm Hp Hg Hn. apply comprehension_ok. intros k ov Hin.
  apply groupdict_in in Hin. destruct Hin as [Hk ->].
  pose proof (proj1 (forallb_forall _ _) Hn k Hk) as Hf.
  rewrite <- Hp in Hk. destruct (rmatch_sure p l m k Hm Hk) as [v Hv]. rewrite Hv.
  pose proof (rmatch_digit_marks p l m Hg Hm k v Hv Hf) as Hdec.
  apply int_of_decimal; [exact Hdec|].
  apply (mark_within_limit p l m k v Hfew Hm Hv).
  unfold decimal in Hdec. apply andb_true_iff in Hdec. tauto.
Qed.

Lemma on_p6_ok m :
  rmatch p6 l = Some m -> bound (counter_dict st) = true ->
  exists st', on_p6 st (groupdict p6 m) = Ok st' /\
              intf_dict st' = intf_dict st /\ counter_dict st' = counter_dict st.
Proof.
  intros Hm Hb. unfold on_p6. apply with_counter_ok; [exact Hb|]. intros c.
  destruct (digit_groups_ok p6 m Hm eq_refl eq_refl eq_refl) as [items ->]. cbn [bind]. eauto.
Qed.

Lemma on_p7_ok m :
  rmatch p7 l = Some m -> bound (counter_dict st) = true ->
  exists st', on_p7 st (groupdict p7 m) = Ok st' /\
              intf_dict st' = intf_dict st /\ counter_dict st' = counter_dict st.
Proof.
  intros Hm Hb. unfold on_p7. apply with_counter_ok; [exact Hb|]. intros c.
  destruct (coerced_groups p7 m Hm eq_refl) as [items ->]. cbn [bind]. eauto.
Qed.

Lemma on_p8_ok m :
  rmatch p8 l = Some m -> bound (counter_dict st) = true ->
  exists st', on_p6 st (groupdict p8 m) = Ok st' /\
              intf_dict st' = intf_dict st /\ counter_dict st' = counter_dict st.
Proof.
  intros Hm Hb. unfold on_p6. apply with_counter_ok; [exact Hb|]. intros c.
  destruct (digit_groups_ok p8 m Hm eq_refl eq_refl eq_refl) as [items ->]. cbn [bind]. eauto.
Qed.

End Progress.

Lemma on_p9_ok st l m :
  stored st -> refs_valid st -> few_digits l = true ->
  rmatch p9 l = Some m -> bound (intf_dict st) = true ->
  exists st', on_p9 st (groupdict p9 m) = Ok st' /\
              intf_dict st' = intf_dict st /\ counter_dict st' = counter_dict st.
Proof.
  intros Hst Hr Hn Hm Hb. unfold on_p9. cbv zeta.
  assert (H1 : exists st1,
             match item "device_interrupt" (groupdict p9 m) with
             | Some s =>
                 if Str.truthy s
                 then with_intf st (fun d =>
                        n <- int_of (item "device_interrupt" (groupdict p9 m)) ;;
                        Ok (Dict.update d [("device_interrupt", n)]))
                 else Ok st
             | None => Ok st
             end = Ok st1 /\
             intf_dict st1 = intf_dict st /\ counter_dict st1 = counter_dict st).
  { change (item "device_interrupt" (groupdict p9 m)) with (get "device_interrupt" m).
    destruct (get "device_interrupt" m) as [s|] eqn:Ei; [|eauto].
    destruct (Str.truthy s); [|eauto].
    apply (with_intf_ok st Hst Hr); [exact Hb|]. intros d _.
    pose proof (rmatch_digit_marks p9 l m eq_refl Hm _ _ Ei eq_refl) as Hdec.
    assert (Hw : within_limit s = true).
    { apply (mark_within_limit p9 l m _ s Hn Hm Ei).
      unfold decimal in Hdec. apply andb_true_iff in Hdec. tauto. }
    destruct (int_of_decimal s Hdec Hw) as [x ->].
    cbn [bind]. eauto. }
  destruct H1 as (st1 & H1 & Hi1 & Hc1). rewrite H1. cbn [bind].
  destruct (on_p9_interrupt st Hst Hr _ _ H1) as [Hst1 Hr1].
  destruct (item "device_memory" (groupdict p9 m)) as [s|]; [|eauto].
  destruct (Str.truthy s); [|eauto].
  destruct (with_intf_ok st1 Hst1 Hr1
              (fun d => Ok (Dict.update d [("device_memory", VStr s)])))
    as (st' & H & Hi & Hc); [congruence|eauto|].
  exists st'. rewrite H. repeat split; congruence.
Qed.

Lemma on_p9_unbound st l m :
  rmatch p9 l = Some m -> bound (intf_dict st) = false ->
  on_p9 st (groupdict p9 m) = Raise (UnboundLocalError "intf_dict").
Proof.
  intros Hm Hb. unfold on_p9. cbv zeta.
  change (item "device_interrupt" (groupdict p9 m)) with (get "device_interrupt" m).
  change (item "device_memory" (groupdict p9 m)) with (get "device_memory" m).
  destruct (rmatch_sure p9 l m "device_memory" Hm) as [s Hs]; [cbn; auto|].
  pose proof (rmatch_truthy (String.eqb "device_memory") p9 l m eq_refl Hm _ _ Hs eq_refl)
    as Ht.
  assert (Hmem : match get "device_memory" m with
                 | Some s0 =>
                     if Str.truthy s0
                     then with_intf st (fun d =>
                            Ok (Dict.update d [("device_memory", VStr s0)]))
                     else Ok st
                 | None => Ok st
                 end = Raise (UnboundLocalError "intf_dict")).
  { rewrite Hs, Ht. now apply with_intf_unbound. }
  destruct (get "device_interrupt" m) as [i|]; [|exact Hmem].
  destruct (Str.truthy i); [|exact Hmem].
  rewrite with_intf_unbound by exact Hb. reflexivity.
Qed.

Lemma isascii_stripped (line : string) :
  isascii line = true -> isascii (Str.strip (Str.replace_tab line)) = true.
Proof.
  intros H. unfold isascii, Str.strip.
  apply all_rstrip, all_lstrip, all_replace_tab; [reflexivity|exact H].
Qed.

Lemma digits_replace_tab (s : string) : digits (Str.replace_tab s) = digits s.
Proof.
  induction s as [|c s IH]; cbn [Str.replace_tab digits]; [reflexivity|].
  destruct (Ascii.eqb_spec c Char.TAB) as [->|Hne].
  - cbn [String.append digits]. rewrite IH. reflexivity.
  - cbn [digits]. now rewrite IH.
Qed.

Lemma digits_lstrip (s : string) : digits (Str.lstrip s) <= digits s.
Proof.
  induction s as [|c s IH]; cbn [Str.lstrip digits]; [lia|].
  destruct (Char.isspace c); cbn [digits]; lia.
Qed.

Lemma digits_rstrip (s : string) : digits (Str.rstrip s) <= digits s.
Proof.
  induction s as [|c s IH]; cbn [Str.rstrip digits]; [lia|].
  destruct (Str.rstrip s).
  - destruct (Char.isspace c); cbn [digits] in *; lia.
  - cbn [digits] in *. lia.
Qed.

Lemma few_digits_stripped (line : string) :
  few_digits line = true -> few_digits (Str.strip (Str.replace_tab line)) = true.
Proof.
  unfold few_digits, Str.strip. intros H. apply N.leb_le in H. apply N.leb_le.
  pose proof (digits_rstrip (Str.lstrip (Str.replace_tab line))).
  pose proof (digits_lstrip (Str.replace_tab line)).
  rewrite digits_replace_tab in *. lia.
Qed.

(** One line: [scan] tells whether the loop body returns, and which
    references are bound after it. *)
Lemma body_scan st line :
  stored st -> refs_valid st -> isascii line = true -> few_digits line = true ->
  match scan (bound (intf_dict st)) (bound (counter_dict st)) line with
  | Some (i, c) =>
      exists st', body st line = Ok st' /\
                  bound (intf_dict st') = i /\ bound (counter_dict st') = c
  | None =>
      body st line = Raise (UnboundLocalError "intf_dict") \/
      body st line = Raise (UnboundLocalError "counter_dict")
  end.
Proof.
  intros Hst Hr Hp Hn. apply isascii_stripped in Hp. apply few_digits_stripped in Hn.
  unfold scan, body.
  set (l := Str.strip (Str.replace_tab line)) in *. clearbody l.
  destruct (negb (Str.truthy l)); [eauto|].
  unfold rules, matches. cbn [dispatch].
  destruct (rmatch p1 l) as [m|] eqn:E1; cbn [bound].
  { destruct (on_p1_ok st Hst l Hp Hn m E1) as (st' & H & Hi & Hc).
    exists st'. rewrite Hc. auto. }
  destruct (rmatch p2 l) as [m|] eqn:E2; cbn [bound orb].
  { destruct (bound (intf_dict st)) eqn:Hb.
    - destruct (on_p2_ok st Hst Hr l m E2 Hb) as (st' & H & Hi & Hc).
      exists st'. rewrite Hi, Hc. auto.
    - unfold on_p2. rewrite with_intf_unbound by exact Hb. auto. }
  destruct (rmatch p3 l) as [m|] eqn:E3; cbn [bound orb].
  { destruct (bound (intf_dict st)) eqn:Hb.
    - destruct (on_p3_ok st Hst Hr l Hp Hn m E3 Hb) as (st' & H & Hi & Hc).
      exists st'. rewrite Hi, Hc. auto.
    - unfold on_p3. rewrite with_intf_unbound by exact Hb. auto. }
  destruct (rmatch p4 l) as [m|] eqn:E4; cbn [bound orb].
  { destruct (bound (intf_dict st)) eqn:Hb.
    - destruct (on_p4_ok st Hst Hr l Hn m E4 Hb) as (st' & H & Hi & Hc).
      exists st'. rewrite Hi, Hc. auto.
    - unfold on_p4. rewrite with_intf_unbound by exact Hb. auto. }
  destruct (rmatch p5 l) as [m|] eqn:E5; cbn [bound].
  { destruct (bound (intf_dict st)) eqn:Hb.
    - destruct (on_p5_ok st Hst Hr l Hp Hn m E5 Hb) as (st' & H & Hi & Hc).
      exists st'. rewrite Hi. auto.
    - rewrite on_p5_unbound by exact Hb. auto. }
  destruct (rmatch p6 l) as [m|] eqn:E6; cbn [bound orb].
  { destruct (bound (counter_dict st)) eqn:Hb.
    - destruct (on_p6_ok st Hr l Hn m E6 Hb) as (st' & H & Hi & Hc).
      exists st'. rewrite Hi, Hc. auto.
    - unfold on_p6. rewrite with_counter_unbound by exact Hb. auto. }
  destruct (rmatch p7 l) as [m|] eqn:E7; cbn [bound orb].
  { destruct (bound (counter_dict st)) eqn:Hb.
    - destruct (on_p7_ok st Hr l Hp Hn m E7 Hb) as (st' & H & Hi & Hc).
      exists st'. rewrite Hi, Hc. auto.
    - unfold on_p7. rewrite with_counter_unbound by exact Hb. auto. }
  destruct (rmatch p8 l) as [m|] eqn:E8; cbn [bound orb].
  { destruct (bound (counter_dict st)) eqn:Hb.
    - destruct (on_p8_ok st Hr l Hn m E8 Hb) as (st' & H & Hi & Hc).
      exists st'. rewrite Hi, Hc. auto.
    - unfold on_p6. rewrite with_counter_unbound by exact Hb. auto. }
  destruct (rmatch p9 l) as [m|] eqn:E9; cbn [bound].
  { destruct (bound (intf_dict st)) eqn:Hb.
    - destruct (on_p9_ok st l m Hst Hr Hn E9 Hb) as (st' & H & Hi & Hc).
      exists st'. rewrite Hi, Hc. auto.
    - rewrite (on_p9_unbound st l m E9 Hb). auto. }
  eauto.
Qed.

Lemma loop_ordered (lines : list string) :
  Forall (fun l => isascii l = true) lines ->
  forallb few_digits lines = true ->
  forall st, stored st -> refs_valid st ->
    ((exists st', loop st lines = Ok st') <->
     ordered (bound (intf_dict st)) (bound (counter_dict st)) lines = true).
Proof.
  induction 1 as [|line lines Hp _ IH]; intros Hn st Hst Hr; cbn [loop ordered].
  - split; eauto.
  - cbn [forallb] in Hn. apply andb_true_iff in Hn. destruct Hn as [Hn Hns].
    specialize (IH Hns).
    pose proof (body_scan st line Hst Hr Hp Hn) as Hs.
    destruct (scan _ _ line) as [[i c]|].
    + destruct Hs as (st1 & H1 & <- & <-). rewrite H1. cbn [bind].
      apply IH; [eapply body_stored|eapply body_refs]; eauto.
    + split; [intros [st' H]|discriminate].
      destruct Hs as [He|He]; rewrite He in H; discriminate.
Qed.

Lemma loop_ascii_raises (lines : list string) :
  Forall (fun l => isascii l = true) lines ->
  forallb few_digits lines = true ->
  forall st e, stored st -> refs_valid st -> loop st lines = Raise e ->
    e = UnboundLocalError "intf_dict" \/ e = UnboundLocalError "counter_dict".
Proof.
  induction 1 as [|line lines Hp _ IH]; intros Hn st e Hst Hr H; cbn [loop] in H.
  - discriminate.
  - cbn [forallb] in Hn. apply andb_true_iff in Hn. destruct Hn as [Hn Hns].
    specialize (IH Hns).
    pose proof (body_scan st line Hst Hr Hp Hn) as Hs.
    destruct (scan _ _ line) as [[i c]|].
    + destruct Hs as (st1 & H1 & _ & _). rewrite H1 in H. cbn [bind] in H.
      apply (IH st1 e); [eapply body_stored|eapply body_refs|]; eauto.
    + destruct Hs as [He|He]; rewrite He in H; injection H as <-; auto.
Qed.

(** X5.  On an ASCII text no line of which has more decimal digits
    than [int] takes (4300, the limit the interpreter starts with) [cli]
    returns a dictionary exactly when every line finds the references it
    reads bound: a header line comes before the first [inet], [inet6],
    type, [RX packets] or [device] line, and an [RX packets] line before
    the first [RX errors], [TX packets] or [TX errors] line. *)
Theorem cli_returns_iff_ordered
  (Device : Type) (execute : Device -> string -> string * Device)
  (device : Device) (interface : option string) (output : string) :
  isascii output = true ->
  forallb few_digits (Str.splitlines output) = true ->
  ((exists res, fst (cli Device execute device interface (Some output)) = Ok res) <->
   ordered false false (Str.splitlines output) = true).
Proof.
  intros Hp Hn. rewrite cli_output. cbn [fst]. unfold parse.
  pose proof (loop_ordered _ (all_splitlines ascii_char _ Hp) Hn (mkLocals [] None None))
    as H.
  cbn [intf_dict counter_dict bound] in H. rewrite <- H.
  - split.
    + intros [res Hres]. inv_bind Hres. eauto.
    + intros [st' ->]. cbn [bind]. eauto.
  - reflexivity.
  - split; intros n; discriminate.
Qed.

(** X6.  On an ASCII text no line of which has more decimal digits
    than [int] takes (4300, the limit the interpreter starts with) the
    only exceptions of [cli] are the two unbound references: no
    conversion fails. *)
Theorem ascii_text_raises_unbound_only
  (Device : Type) (execute : Device -> string -> string * Device)
  (device : Device) (interface : option string) (output : string) (e : exn) :
  isascii output = true ->
  forallb few_digits (Str.splitlines output) = true ->
  fst (cli Device execute device interface (Some output)) = Raise e ->
  e = UnboundLocalError "intf_dict" \/ e = UnboundLocalError "counter_dict".
Proof.
  intros Hp Hn. rewrite cli_output. cbn [fst]. unfold parse. intros H.
  destruct (loop (mkLocals [] None None) (Str.splitlines output)) as [st'|e'] eqn:E;
    [discriminate|].
  injection H as <-.
  apply (loop_ascii_raises _ (all_splitlines ascii_char _ Hp) Hn
           (mkLocals [] None None) e'); [reflexivity| |exact E].
  split; intros n; discriminate.
Qed.

Lemma record_ok_same n d d' : same_fields d d' -> record_ok n d -> record_ok n d'.
Proof.
  intros Hs (Hh & H4 & H6). unfold record_ok, header_fields, entries.
  rewrite !Hs by (cbn; tauto). auto.
Qed.

Lemma records_get rd n d :
  records_ok rd -> Dict.get n rd = Some (VMap d) -> record_ok n d.
Proof. intros Hrd H. destruct (Hrd _ _ H) as (d0 & [= <-] & Hd). exact Hd. Qed.

Lemma records_set rd n d' :
  records_ok rd -> record_ok n d' -> records_ok (Dict.set n (VMap d') rd).
Proof.
  intros Hrd Hd n0 v0. destruct (string_dec n n0) as [<-|Hne].
  - rewrite get_set_same. intros [= <-]. eauto.
  - rewrite get_set_other by exact Hne. apply Hrd.
Qed.

Lemma same_fields_set d k v :
  ~ In k ["interface"; "flags"; "mtu"; "ipv4"; "ipv6"] -> same_fields d (Dict.set k v d).
Proof. intros Hk k' Hk'. apply get_set_other. intros ->. contradiction. Qed.

Lemma same_fields_refl d : same_fields d d.
Proof. intros k _. reflexivity. Qed.

Lemma same_fields_trans d1 d2 d3 :
  same_fields d1 d2 -> same_fields d2 d3 -> same_fields d1 d3.
Proof. intros H1 H2 k Hk. rewrite H2, H1; auto. Qed.

Lemma with_intf_records st st' f :
  records_ok (result_dict st) ->
  (forall n d d', f d = Ok d' -> record_ok n d -> record_ok n d') ->
  with_intf st f = Ok st' -> records_ok (result_dict st').
Proof.
  intros Hrd Hf H. unfold with_intf in H.
  destruct (intf_dict st) as [n|]; [|discriminate].
  inv_bind H. inv_bind H. injection H as <-. cbn [result_dict].
  apply records_set; [exact Hrd|]. apply (Hf n a a0 Ha0). eapply records_get; [exact Hrd|].
  now apply deref_get.
Qed.

Lemma with_counter_records st st' f :
  records_ok (result_dict st) -> with_counter st f = Ok st' ->
  records_ok (result_dict st').
Proof.
  intros Hrd H. unfold with_counter in H.
  destruct (counter_dict st) as [n|]; [|discriminate].
  inv_bind H. inv_bind H. inv_bind H. injection H as <-. cbn [result_dict].
  apply records_set; [exact Hrd|].
  apply (record_ok_same n a); [apply same_fields_set; cbn; intuition discriminate|].
  eapply records_get; [exact Hrd|]. now apply deref_get.
Qed.

Lemma entries_set (Q : string -> Dict.t -> Prop) key d m ip e :
  (forall m0, Dict.get key d = Some (VMap m0) -> m0 = m) ->
  all_entries Q m ->
  Q ip e ->
  entries Q key (Dict.set key (VMap (Dict.set ip (VMap e) m)) d).
Proof.
  intros _ Hm He v Hv. rewrite get_set_same in Hv. injection Hv as <-.
  eexists. split; [reflexivity|]. intros ip' x.
  destruct (string_dec ip ip') as [<-|Hne].
  - rewrite get_set_same. intros [= <-]. eauto.
  - rewrite get_set_other by exact Hne. apply Hm.
Qed.

Lemma setdefault_entries (Q : string -> Dict.t -> Prop) key d m :
  entries Q key d -> setdefault key d = Ok m -> all_entries Q m.
Proof.
  intros Hd H. unfold setdefault in H.
  destruct (Dict.get key d) as [[]|] eqn:E; try discriminate; injection H as <-.
  - destruct (Hd _ E) as (m & [= <-] & Hm). exact Hm.
  - intros ip e. discriminate.
Qed.

Lemma comprehension3 f k1 v1 k2 v2 k3 v3 items :
  comprehension f [(k1, v1); (k2, v2); (k3, v3)] = Ok items ->
  exists x1 x2 x3,
    f v1 = Ok x1 /\ f v2 = Ok x2 /\ f v3 = Ok x3 /\
    items = [(k1, x1); (k2, x2); (k3, x3)].
Proof.
  cbn [comprehension]. destruct (f v1) as [x1|]; [|discriminate].
  destruct (f v2) as [x2|]; [|discriminate].
  destruct (f v3) as [x3|]; [|discriminate].
  cbn [bind]. intros [= <-]. exists x1, x2, x3. auto.
Qed.

Section RecordLine.
Variable l : string.

Lemma on_p1_records st m st' :
  rmatch p1 l = Some m ->
  records_ok (result_dict st) -> on_p1 st (groupdict p1 m) = Ok st' ->
  records_ok (result_dict st').
Proof.
  intros Hm Hrd H.
  pose proof (rmatch_digit_marks p1 l m eq_refl Hm) as Hdig.
  unfold on_p1 in H.
  change (item "interface" (groupdict p1 m)) with (get "interface" m) in H.
  change (groupdict p1 m) with
    [("interface", get "interface" m); ("flags", get "flags" m); ("mtu", get "mtu" m)] in H.
  destruct (get "interface" m) as [i|] eqn:Ei; [|discriminate].
  inv_bind H. inv_bind H. injection H as <-. rename a into d.
  apply comprehension3 in Ha0. destruct Ha0 as (x1 & x2 & x3 & Hx1 & Hx2 & Hx3 & ->).
  cbn [result_dict]. apply records_set; [exact Hrd|].
  assert (Hd : forall k, ~ In k ["interface"; "flags"; "mtu"] ->
                         Dict.get k (Dict.update d [("interface", x1); ("flags", x2); ("mtu", x3)])
                         = Dict.get k d).
  { intros k Hk. apply get_update_other. exact Hk. }
  assert (Hold : entries ipv4_entry "ipv4" d /\ entries ipv6_entry "ipv6" d).
  { unfold setdefault in Ha. destruct (Dict.get i (result_dict st)) as [[]|] eqn:E;
      try discriminate; injection Ha as <-.
    - destruct (records_get _ _ _ Hrd E) as (_ & H4 & H6). auto.
    - split; intros m0; discriminate. }
  destruct Hold as [H4 H6].
  split; [|split].
  - cbn [Dict.update]. repeat split.
    + exists x1. split; [exact Hx1|].
      rewrite !get_set_other by discriminate. apply get_set_same.
    + exists x2. rewrite get_set_other by discriminate. apply get_set_same.
    + destruct (get "mtu" m) as [u|] eqn:Eu; [|discriminate].
      pose proof (int_if_digit_is_int _ _
                    (fun v (E : Some u = Some v) =>
                       Hdig "mtu" v (eq_trans Eu E) eq_refl) Hx3) as Hint.
      destruct x3; try discriminate. eexists. apply get_set_same.
  - unfold entries. rewrite Hd by (cbn; intuition discriminate). exact H4.
  - unfold entries. rewrite Hd by (cbn; intuition discriminate). exact H6.
Qed.

Lemma on_p2_records st m st' :
  rmatch p2 l = Some m ->
  records_ok (result_dict st) -> on_p2 st (groupdict p2 m) = Ok st' ->
  records_ok (result_dict st').
Proof.
  intros Hm Hrd H. unfold on_p2 in H.
  eapply with_intf_records; [exact Hrd| |exact H]. clear H.
  intros n d d' H (Hh & H4 & H6). cbv beta in H.
  change (item "ip" (groupdict p2 m)) with (get "ip" m) in H.
  change (groupdict p2 m) with
    [("ip", get "ip" m); ("netmask", get "netmask" m);
     ("broadcast", get "broadcast" m)] in H.
  destruct (get "ip" m) as [ip|] eqn:Ei; [|discriminate].
  inv_bind H. rename a into v4. inv_bind H. rename a into e.
  inv_bind H. injection H as <-.
  apply comprehension3 in Ha1. destruct Ha1 as (x1 & x2 & x3 & Hx1 & Hx2 & Hx3 & ->).
  cbn [text_of] in Hx1. injection Hx1 as <-.
  destruct (get "netmask" m) as [nm|]; [|discriminate].
  destruct (get "broadcast" m) as [bc|]; [|discriminate].
  cbn [text_of] in Hx2, Hx3. injection Hx2 as <-. injection Hx3 as <-.
  split; [|split].
  - destruct Hh as (H1 & H2 & H3). unfold header_fields.
    rewrite !get_set_other by discriminate. auto.
  - apply entries_set.
    + intros m0 E. unfold setdefault in Ha. rewrite E in Ha. now injection Ha as <-.
    + exact (setdefault_entries _ _ _ _ H4 Ha).
    + cbn [Dict.update]. repeat split.
      * rewrite !get_set_other by discriminate. apply get_set_same.
      * exists nm. rewrite get_set_other by discriminate. apply get_set_same.
      * exists bc. apply get_set_same.
  - unfold entries. rewrite get_set_other by discriminate. exact H6.
Qed.

Lemma on_p3_records st m st' :
  rmatch p3 l = Some m ->
  records_ok (result_dict st) -> on_p3 st (groupdict p3 m) = Ok st' ->
  records_ok (result_dict st').
Proof.
  intros Hm Hrd H.
  pose proof (rmatch_digit_marks p3 l m eq_refl Hm) as Hdig.
  unfold on_p3 in H.
  eapply with_intf_records; [exact Hrd| |exact H]. clear H.
  intros n d d' H (Hh & H4 & H6). cbv beta in H.
  change (item "ip" (groupdict p3 m)) with (get "ip" m) in H.
  change (groupdict p3 m) with
    [("ip", get "ip" m); ("prefixlen", get "prefixlen" m);
     ("scopeid", get "scopeid" m)] in H.
  destruct (get "ip" m) as [ip|] eqn:Ei; [|discriminate].
  inv_bind H. rename a into v6. inv_bind H. rename a into e.
  inv_bind H. injection H as <-.
  apply comprehension3 in Ha1. destruct Ha1 as (x1 & x2 & x3 & Hx1 & Hx2 & Hx3 & ->).
  split; [|split].
  - destruct Hh as (H1 & H2 & H3). unfold header_fields.
    rewrite !get_set_other by discriminate. auto.
  - unfold entries. rewrite get_set_other by discriminate. exact H4.
  - apply entries_set.
    + intros m0 E. unfold setdefault in Ha. rewrite E in Ha. now injection Ha as <-.
    + exact (setdefault_entries _ _ _ _ H6 Ha).
    + cbn [Dict.update]. repeat split.
      * exists x1. split; [exact Hx1|].
        rewrite !get_set_other by discriminate. apply get_set_same.
      * destruct (get "prefixlen" m) as [u|] eqn:Eu; [|discriminate].
        pose proof (int_if_digit_is_int _ _
                      (fun v (E : Some u = Some v) =>
                         Hdig "prefixlen" v (eq_trans Eu E) eq_refl) Hx2) as Hint.
        destruct x2; try discriminate. eexists.
        rewrite get_set_other by discriminate. apply get_set_same.
      * exists x3. apply get_set_same.
Qed.

End RecordLine.

Lemma on_p4_records st group st' :
  records_ok (result_dict st) -> on_p4 st group = Ok st' ->
  records_ok (result_dict st').
Proof.
  intros Hrd H. unfold on_p4 in H.
  eapply with_intf_records; [exact Hrd| |exact H]. clear H.
  intros n d d' H. apply record_ok_same. cbv zeta in H.
  inv_bind H. inv_bind H.
  assert (H2 : same_fields d
                 match item "mac" group with
                 | Some s => if Str.truthy s
                             then Dict.update (Dict.update d [("type", a); ("destription", a0)])
                                              [("mac", VStr s)]
                             else Dict.update d [("type", a); ("destription", a0)]
                 | None => Dict.update d [("type", a); ("destription", a0)]
                 end).
  { intros k Hk.
    destruct (item "mac" group) as [s|]; [destruct (Str.truthy s)|];
      cbn [Dict.update]; rewrite !get_set_other; try reflexivity;
      intros <-; cbn in Hk; intuition discriminate. }
  destruct (item "txqueuelen" group) as [s|]; [|now injection H as <-].
  destruct (Str.truthy s); [|now injection H as <-].
  inv_bind H. injection H as <-.
  eapply same_fields_trans; [exact H2|].
  apply same_fields_set. cbn. intuition discriminate.
Qed.

Lemma on_p5_records st group st' :
  records_ok (result_dict st) -> on_p5 st group = Ok st' ->
  records_ok (result_dict st').
Proof.
  intros Hrd H. unfold on_p5 in H.
  destruct (intf_dict st) as [n|]; [|discriminate].
  inv_bind H. inv_bind H. inv_bind H. injection H as <-. cbn [result_dict].
  apply records_set; [exact Hrd|].
  apply (record_ok_same n a); [apply same_fields_set; cbn; intuition discriminate|].
  eapply records_get; [exact Hrd|]. now apply deref_get.
Qed.

Lemma on_p9_records st group st' :
  records_ok (result_dict st) -> on_p9 st group = Ok st' ->
  records_ok (result_dict st').
Proof.
  intros Hrd H. unfold on_p9 in H. cbv zeta in H. inv_bind H.
  assert (H1 : records_ok (result_dict a)).
  { destruct (item "device_interrupt" group) as [s|]; [|now injection Ha as <-].
    destruct (Str.truthy s); [|now injection Ha as <-].
    eapply with_intf_records; [exact Hrd| |exact Ha].
    intros n d d' Hf. cbv beta in Hf. inv_bind Hf. injection Hf as <-.
    apply record_ok_same. apply same_fields_set. cbn. intuition discriminate. }
  destruct (item "device_memory" group) as [s|]; [|now injection H as <-].
  destruct (Str.truthy s); [|now injection H as <-].
  eapply with_intf_records; [exact H1| |exact H].
  intros n d d' Hf. cbv beta in Hf. injection Hf as <-.
  apply record_ok_same. apply same_fields_set. cbn. intuition discriminate.
Qed.

Lemma body_records line st st' :
  records_ok (result_dict st) -> body st line = Ok st' ->
  records_ok (result_dict st').
Proof.
  intros Hrd H. unfold body in H.
  destruct (negb _); [now injection H as <-|].
  set (l := Str.strip (Str.replace_tab line)) in *. clearbody l.
  unfold rules in H. cbn [dispatch] in H.
  destruct (rmatch p1 l) eqn:E1; [exact (on_p1_records l _ _ _ E1 Hrd H)|].
  destruct (rmatch p2 l) eqn:E2; [exact (on_p2_records l _ _ _ E2 Hrd H)|].
  destruct (rmatch p3 l) eqn:E3; [exact (on_p3_records l _ _ _ E3 Hrd H)|].
  destruct (rmatch p4 l); [exact (on_p4_records _ _ _ Hrd H)|].
  destruct (rmatch p5 l); [exact (on_p5_records _ _ _ Hrd H)|].
  destruct (rmatch p6 l); [exact (with_counter_records _ _ _ Hrd H)|].
  destruct (rmatch p7 l); [exact (with_counter_records _ _ _ Hrd H)|].
  destruct (rmatch p8 l); [exact (with_counter_records _ _ _ Hrd H)|].
  destruct (rmatch p9 l); [exact (on_p9_records _ _ _ Hrd H)|].
  now injection H as <-.
Qed.

Lemma loop_records lines : forall st st',
  records_ok (result_dict st) -> loop st lines = Ok st' ->
  records_ok (result_dict st').
Proof.
  induction lines as [|l lines IH]; intros st st' Hrd H; cbn [loop] in H.
  - now injection H as <-.
  - inv_bind H. eapply IH; [|exact H]. eapply body_records; eauto.
Qed.

Lemma parse_records out res :
  parse out = Ok res -> exists rd, res = VMap rd /\ records_ok rd.
Proof.
  unfold parse. intros H. inv_bind H. injection H as <-.
  eexists. split; [reflexivity|].
  eapply loop_records; [|exact Ha]. intros n d. discriminate.
Qed.

Lemma counters_updated (l : string) (p : regex) (f : option string -> result Value)
      (m : marks) (c : Dict.t) (items : list (string * Value)) :
  (f = int_of /\ forallb is_int_field (group_names p) = true \/ f = int_if_digit) ->
  unique (group_names p) = true -> digit_groups p = true ->
  sure p = group_names p ->
  rmatch p l = Some m ->
  comprehension f (groupdict p m) = Ok items ->
  updated p m c (Dict.update c items).
Proof.
  intros Hf Hu Hd Hs Hm Hc. split.
  - intros k Hk.
    destruct (rmatch_sure p l m k Hm) as [v Hv]; [now rewrite Hs|].
    assert (Hin : In (k, Some v) (groupdict p m)).
    { unfold groupdict. apply in_map_iff. exists k. now rewrite Hv. }
    destruct (comprehension_get f _ _ c k (Some v) (groupdict_NoDup p m Hu) Hc Hin)
      as (x & Hx & Hget).
    pose proof (rmatch_digit_marks p l m Hd Hm k v Hv) as Hdec.
    exists v, x. split; [exact Hv|]. split; [|split; [exact Hget|]].
    + destruct Hf as [[-> Hall] | ->]; [|exact Hx].
      pose proof (proj1 (forallb_forall _ _) Hall k Hk) as Hi.
      unfold int_if_digit. now rewrite (decimal_isdigit v (Hdec Hi)).
    + intros Hi. destruct Hf as [[-> _] | ->].
      * now apply int_of_inv.
      * now apply int_if_digit_inv; [apply Hdec|].
  - intros k Hk. apply get_update_other.
    now rewrite (comprehension_keys _ _ _ Hc), groupdict_keys.
Qed.

(** X10.  An [RX errors], [TX packets] or [TX errors] line updates the
    counters of the interface [counter_dict] points to, the one whose
    [RX packets] line was read last, whichever header line came since:
    these counters get every group of the line under its name, the
    counts as the integers [int] reads, and keep their other keys;
    nothing else changes, the record of the interface [intf_dict] points
    to included when the two differ. *)
Theorem counter_line_writes_counter_dict (st st' : locals) (line a : string) :
  counter_line line = true ->
  counter_dict st = Some a ->
  body st line = Ok st' ->
  intf_dict st' = intf_dict st /\ counter_dict st' = Some a /\
  (forall n, n <> a ->
     Dict.get n (result_dict st') = Dict.get n (result_dict st)) /\
  exists d c c' p m,
    Dict.get a (result_dict st) = Some (VMap d) /\
    Dict.get "counters" d = Some (VMap c) /\
    Dict.get a (result_dict st') = Some (VMap (Dict.set "counters" (VMap c') d)) /\
    first_match rules (Str.strip (Str.replace_tab line)) = Some (p, m) /\
    updated p m c c'.
Proof.
  unfold counter_line, body, matches. cbv zeta.
  set (l := Str.strip (Str.replace_tab line)). clearbody l.
  intros Hl Ha H.
  destruct (Str.truthy l); [|discriminate]. cbn [negb andb] in Hl, H.
  unfold rules in *. cbn [dispatch first_match] in *.
  destruct (rmatch p1 l); [discriminate|].
  destruct (rmatch p2 l); [discriminate|].
  destruct (rmatch p3 l); [discriminate|].
  destruct (rmatch p4 l); [discriminate|].
  destruct (rmatch p5 l); [discriminate|].
  cbn [bound negb andb] in Hl.
  assert (G : forall p f m,
              (f = int_of /\ forallb is_int_field (group_names p) = true
               \/ f = int_if_digit) ->
              unique (group_names p) = true -> digit_groups p = true ->
              sure p = group_names p ->
              rmatch p l = Some m ->
              with_counter st
                (fun c => items <- comprehension f (groupdict p m) ;;
                          Ok (Dict.update c items)) = Ok st' ->
              intf_dict st' = intf_dict st /\ counter_dict st' = Some a /\
              (forall n, n <> a ->
                 Dict.get n (result_dict st') = Dict.get n (result_dict st)) /\
              exists d c c',
                Dict.get a (result_dict st) = Some (VMap d) /\
                Dict.get "counters" d = Some (VMap c) /\
                Dict.get a (result_dict st')
                = Some (VMap (Dict.set "counters" (VMap c') d)) /\
                updated p m c c').
  { intros p f m Hf Hu Hd Hs Hm Hw.
    apply with_counter_inv in Hw.
    destruct Hw as (n & d & c & c' & Hc & Hn & Hcd & Hfc & ->).
    rewrite Ha in Hc. injection Hc as <-.
    cbn [intf_dict counter_dict result_dict]. repeat split; auto.
    - intros n Hne. apply get_set_other. congruence.
    - inv_bind Hfc. injection Hfc as <-.
      exists d, c, (Dict.update c a0). repeat split; auto.
      + apply get_set_same.
      + apply (counters_updated l p f m c a0 Hf Hu Hd Hs Hm Ha0).
      + apply (counters_updated l p f m c a0 Hf Hu Hd Hs Hm Ha0). }
  destruct (rmatch p6 l) as [m|] eqn:E6.
  { destruct (G p6 int_of m (or_introl (conj eq_refl eq_refl)) eq_refl eq_refl eq_refl E6 H)
      as (Hi & Hc & Hn & d & c & c' & Hd & Hcd & Hd' & Hu).
    repeat split; auto. exists d, c, c', p6, m. auto. }
  destruct (rmatch p7 l) as [m|] eqn:E7.
  { destruct (G p7 int_if_digit m (or_intror eq_refl) eq_refl eq_refl eq_refl E7 H)
      as (Hi & Hc & Hn & d & c & c' & Hd & Hcd & Hd' & Hu).
    repeat split; auto. exists d, c, c', p7, m. auto. }
  destruct (rmatch p8 l) as [m|] eqn:E8.
  { destruct (G p8 int_of m (or_introl (conj eq_refl eq_refl)) eq_refl eq_refl eq_refl E8 H)
      as (Hi & Hc & Hn & d & c & c' & Hd & Hcd & Hd' & Hu).
    repeat split; auto. exists d, c, c', p8, m. auto. }
  discriminate.
Qed.


(** Validation of a mapping under the schema of [IfconfigSchema] reports
    what the validation of each of its records reports. *)
Lemma validate_reports_record (rd : Dict.t) (n : string) (v : Value) (e : PathError) :
  In (n, v) rd ->
  In e (check IfconfigSchema.interface [Key n] v) ->
  In e (errors (validate (VMap rd) IfconfigSchema.schema)).
Proof.
  unfold validate. cbn [errors]. unfold IfconfigSchema.schema.
  cbn [check map fst snd any resolve declared app].
  induction rd as [|[k x] rd IH]; intros Hin He; [contradiction|].
  cbn [leftover claimed wildcard app]. apply in_or_app.
  destruct Hin as [[= -> ->]|Hin]; [left; exact He|right; auto].
Qed.

(** X2.  In a text where the interface [name] has its header line [hdr]
    and no detail line (the lines [block] up to the next header or the
    end change nothing and no other line is a header of [name]), and
    where neither the name nor the flags token is made of digits only,
    the record [cli] returns for [name] has exactly the keys interface,
    flags and mtu, and the validation of the returned dictionary reports
    the three missing keys type, destription and counters at the path of
    the interface; the validation of the record reports nothing else. *)
Theorem header_only_interface_validates
  (Device : Type) (execute : Device -> string -> string * Device)
  (device : Device) (interface : option string) (output : string) (res : Value)
  (pre block rest : list string) (hdr name flags mtu : string) (m : marks) :
  Str.splitlines output = pre ++ hdr :: block ++ rest ->
  rmatch p1 (Str.strip (Str.replace_tab hdr)) = Some m ->
  get "interface" m = Some name ->
  get "flags" m = Some flags ->
  get "mtu" m = Some mtu ->
  Str.isdigit name = false ->
  Str.isdigit flags = false ->
  Forall (fun l => header_name l <> Some name) (pre ++ rest) ->
  Forall inert block ->
  match rest with [] => True | l :: _ => header_name l <> None end ->
  fst (cli Device execute device interface (Some output)) = Ok res ->
  exists rd record,
    res = VMap rd /\
    Dict.get name rd = Some (VMap record) /\
    Dict.keys record = ["interface"; "flags"; "mtu"] /\
    check IfconfigSchema.interface [Key name] (VMap record)
    = [ MissingRequiredKey [Key name] "type";
        MissingRequiredKey [Key name] "destription";
        MissingRequiredKey [Key name] "counters" ] /\
    incl [ MissingRequiredKey [Key name] "type";
           MissingRequiredKey [Key name] "destription";
           MissingRequiredKey [Key name] "counters" ]
         (errors (validate res IfconfigSchema.schema)).
Proof.
  intros Hl Hm Hi Hf Hu Hdi Hdf Hothers Hblock Hnext H.
  rewrite cli_output in H. cbn [fst] in H. unfold parse in H. rewrite Hl in H.
  inv_bind H. injection H as <-.
  destruct (header_only_record pre block rest hdr name flags mtu m a
              Hm Hi Hf Hu Hdi Hdf Hothers Hblock Hnext Ha)
    as (record & Hg & Hk & Hc).
  exists (result_dict a), record. repeat split; auto.
  intros e He. apply (validate_reports_record _ name (VMap record)).
  - now apply get_In.
  - now rewrite Hc.
Qed.

Lemma header_only_interface_validates_witness :
  exists rd record,
    bare_result = VMap rd /\
    Dict.get "eth0" rd = Some (VMap record) /\
    Dict.keys record = ["interface"; "flags"; "mtu"] /\
    check IfconfigSchema.interface [Key "eth0"] (VMap record)
    = [ MissingRequiredKey [Key "eth0"] "type";
        MissingRequiredKey [Key "eth0"] "destription";
        MissingRequiredKey [Key "eth0"] "counters" ] /\
    incl [ MissingRequiredKey [Key "eth0"] "type";
           MissingRequiredKey [Key "eth0"] "destription";
           MissingRequiredKey [Key "eth0"] "counters" ]
         (errors (validate bare_result IfconfigSchema.schema)).
Proof.
  apply (header_only_interface_validates unit no_device tt None
           (unlines bare_lines) bare_result
           [] [""]
           [ "lo: flags=73<UP,LOOPBACK,RUNNING>  mtu 65536";
             "        inet6 ::1  prefixlen 128  scopeid 0x10<host>" ]
           "eth0: flags=4163<UP,BROADCAST>  mtu 1500"
           "eth0" "4163<UP,BROADCAST>" "1500"
           [("mtu", "1500"); ("flags", "4163<UP,BROADCAST>"); ("interface", "eth0")]);
    try (match goal with |- _ = _ => vm_compute; reflexivity end).
  - repeat constructor; vm_compute; discriminate.
  - constructor; [apply inert_blank|constructor].
  - vm_compute. discriminate.
Defined.

(** X7.  Every value of the dictionary [cli] returns is the record of an
    interface and holds what the header line stores (lines 133 to 139):
    the name of the interface under interface, as an integer when the
    name is made of digits, a value under flags and an integer under
    mtu. *)
Theorem every_record_has_header_fields
  (Device : Type) (execute : Device -> string -> string * Device)
  (device : Device) (interface output : option string) (res : Value) :
  fst (cli Device execute device interface output) = Ok res ->
  exists rd, res = VMap rd /\
    forall n v, Dict.get n rd = Some v ->
    exists d, v = VMap d /\ header_fields n d.
Proof.
  intros H.
  assert (Hp : exists out, parse out = Ok res).
  { unfold cli in H. destruct output as [o|].
    - exists o. exact H.
    - destruct (execute device _) as [out device']. exists out. exact H. }
  destruct Hp as [out Hp]. destruct (parse_records out res Hp) as (rd & -> & Hrd).
  exists rd. split; [reflexivity|]. intros n v Hv.
  destruct (Hrd n v Hv) as (d & -> & Hh & _). eauto.
Qed.

Lemma every_record_has_header_fields_witness :
  exists rd, two_result = VMap rd /\
    forall n v, Dict.get n rd = Some v ->
    exists d, v = VMap d /\ header_fields n d.
Proof.
  apply (every_record_has_header_fields unit no_device tt None
           (Some (unlines two_lines)) two_result).
  vm_compute. reflexivity.
Defined.

(** X8.  In the dictionary [cli] returns, whatever a record holds under
    ipv4 is a mapping whose every value is a dictionary with the three
    fields of an [inet] line (lines 142 to 148), all texts, the field ip
    being the address the entry is stored under. *)
Theorem ipv4_entries_keyed_by_address
  (Device : Type) (execute : Device -> string -> string * Device)
  (device : Device) (interface output : option string)
  (rd d : Dict.t) (n : string) (v : Value) :
  fst (cli Device execute device interface output) = Ok (VMap rd) ->
  Dict.get n rd = Some (VMap d) ->
  Dict.get "ipv4" d = Some v ->
  exists m, v = VMap m /\
    forall ip x, Dict.get ip m = Some x -> exists e, x = VMap e /\ ipv4_entry ip e.
Proof.
  intros H Hn Hv.
  assert (Hp : exists out, parse out = Ok (VMap rd)).
  { unfold cli in H. destruct output as [o|].
    - exists o. exact H.
    - destruct (execute device _) as [out device']. exists out. exact H. }
  destruct Hp as [out Hp]. destruct (parse_records out _ Hp) as (rd' & [= <-] & Hrd).
  destruct (records_get _ _ _ Hrd Hn) as (_ & H4 & _).
  exact (H4 v Hv).
Qed.

Lemma ipv4_entries_keyed_by_address_witness :
  exists m,
    VMap [("10.0.0.5", VMap [("ip", VStr "10.0.0.5");
                             ("netmask", VStr "255.255.255.0");
                             ("broadcast", VStr "10.0.0.255")])] = VMap m /\
    forall ip x, Dict.get ip m = Some x -> exists e, x = VMap e /\ ipv4_entry ip e.
Proof.
  refine (ipv4_entries_keyed_by_address unit no_device tt None
            (Some (unlines two_lines)) _ _ "eth0" _ _ _ _);
    vm_compute; reflexivity.
Defined.

(** X9.  In the dictionary [cli] returns, whatever a record holds under
    ipv6 is a mapping whose every value is a dictionary with the three
    fields of an [inet6] line (lines 151 to 157): the address the entry
    is stored under as ip (as an integer when it is made of digits), an
    integer prefixlen and a scopeid. *)
Theorem ipv6_entries_keyed_by_address
  (Device : Type) (execute : Device -> string -> string * Device)
  (device : Device) (interface output : option string)
  (rd d : Dict.t) (n : string) (v : Value) :
  fst (cli Device execute device interface output) = Ok (VMap rd) ->
  Dict.get n rd = Some (VMap d) ->
  Dict.get "ipv6" d = Some v ->
  exists m, v = VMap m /\
    forall ip x, Dict.get ip m = Some x -> exists e, x = VMap e /\ ipv6_entry ip e.
Proof.
  intros H Hn Hv.
  assert (Hp : exists out, parse out = Ok (VMap rd)).
  { unfold cli in H. destruct output as [o|].
    - exists o. exact H.
    - destruct (execute device _) as [out device']. exists out. exact H. }
  destruct Hp as [out Hp]. destruct (parse_records out _ Hp) as (rd' & [= <-] & Hrd).
  destruct (records_get _ _ _ Hrd Hn) as (_ & _ & H6).
  exact (H6 v Hv).
Qed.

Lemma ipv6_entries_keyed_by_address_witness :
  exists m,
    VMap [("::1", VMap [("ip", VStr "::1"); ("prefixlen", VInt 128);
                        ("scopeid", VStr "0x10<host>")])] = VMap m /\
    forall ip x, Dict.get ip m = Some x -> exists e, x = VMap e /\ ipv6_entry ip e.
Proof.
  refine (ipv6_entries_keyed_by_address unit no_device tt None
            (Some (unlines two_lines)) _ _ "lo" _ _ _ _);
    vm_compute; reflexivity.
Defined.

Lemma cli_raises_only_witness : expected (UnboundLocalError "intf_dict").
Proof.
  apply (cli_raises_only unit no_device tt None
           (Some "inet 10.0.0.5  netmask 255.255.255.0  broadcast 10.0.0.255")).
  vm_compute. reflexivity.
Defined.

Lemma ascii_text_raises_unbound_only_witness :
  UnboundLocalError "counter_dict" = UnboundLocalError "intf_dict" \/
  UnboundLocalError "counter_dict" = UnboundLocalError "counter_dict".
Proof.
  apply (ascii_text_raises_unbound_only unit no_device tt None
           (unlines ["eth0: flags=4163<UP>  mtu 1500";
                     "        TX packets 12  bytes 3400 (3.3 KiB)"]));
    vm_compute; reflexivity.
Defined.

Lemma cli_returns_iff_ordered_witness :
  (exists res, fst (cli unit no_device tt None (Some (unlines two_lines))) = Ok res) <->
  ordered false false (Str.splitlines (unlines two_lines)) = true.
Proof.
  apply (cli_returns_iff_ordered unit no_device tt None (unlines two_lines));
    vm_compute; reflexivity.
Defined.

Lemma result_keys_are_header_names_witness :
  exists rd, two_result = VMap rd /\
    Dict.keys rd = header_names [] (Str.splitlines (unlines two_lines)) /\
    NoDup (Dict.keys rd).
Proof.
  apply (result_keys_are_header_names unit no_device tt None
           (unlines two_lines) two_result).
  vm_compute. reflexivity.
Defined.

Lemma counter_line_writes_counter_dict_witness :
  intf_dict stale_state_after = intf_dict stale_state /\
  counter_dict stale_state_after = Some "eth0" /\
  (forall n, n <> "eth0" ->
     Dict.get n (result_dict stale_state_after) = Dict.get n (result_dict stale_state)) /\
  exists d c c' p m,
    Dict.get "eth0" (result_dict stale_state) = Some (VMap d) /\
    Dict.get "counters" d = Some (VMap c) /\
    Dict.get "eth0" (result_dict stale_state_after)
    = Some (VMap (Dict.set "counters" (VMap c') d)) /\
    first_match rules (Str.strip (Str.replace_tab rx_errors_line)) = Some (p, m) /\
    updated p m c c'.
Proof.
  apply (counter_line_writes_counter_dict stale_state stale_state_after
           rx_errors_line "eth0"); vm_compute; reflexivity.
Defined.


Lemma dispatch_unmatched rs st l :
  existsb (fun rule => matches (fst rule) l) rs = false -> dispatch rs st l = Ok st.
Proof.
  induction rs as [|[p action] rs IH]; cbn [existsb dispatch fst]; [reflexivity|].
  unfold matches at 1. destruct (rmatch p l); cbn [bound orb]; [discriminate|exact IH].
Qed.

Lemma body_unrecognised st line : recognised line = false -> body st line = Ok st.
Proof.
  unfold recognised, body, normal. cbv zeta.
  destruct (Str.truthy _); cbn [negb andb]; [|reflexivity].
  apply dispatch_unmatched.
Qed.

Lemma loop_filter_recognised lines : forall st,
  loop st (filter recognised lines) = loop st lines.
Proof.
  induction lines as [|l lines IH]; intros st; cbn [filter loop]; [reflexivity|].
  destruct (recognised l) eqn:E.
  - cbn [loop]. destruct (body st l); cbn [bind]; [apply IH|reflexivity].
  - rewrite (body_unrecognised st l E). cbn [bind]. apply IH.
Qed.

Lemma body_normal st a b : normal a = normal b -> body st a = body st b.
Proof. unfold body, normal. cbv zeta. now intros ->. Qed.

Lemma loop_normal l1 : forall l2 st,
  map normal l1 = map normal l2 -> loop st l1 = loop st l2.
Proof.
  induction l1 as [|a l1 IH]; intros [|b l2] st H; cbn [map] in H; try discriminate;
    [reflexivity|].
  injection H as Hab H. cbn [loop]. rewrite (body_normal st a b Hab).
  destruct (body st b); cbn [bind]; [now apply IH|reflexivity].
Qed.

(** X12.  The outcome of [cli], the dictionary or the exception, depends
    only on the lines some pattern matches, taken after the replacement
    of tabs and the strip: two texts that agree on these give the same
    outcome.  Lines no pattern matches, blank lines, indentation and
    trailing blanks play no part. *)
Theorem cli_reads_recognised_lines_only
  (Device : Type) (execute : Device -> string -> string * Device)
  (device : Device) (interface : option string) (out1 out2 : string) :
  map normal (filter recognised (Str.splitlines out1))
  = map normal (filter recognised (Str.splitlines out2)) ->
  fst (cli Device execute device interface (Some out1))
  = fst (cli Device execute device interface (Some out2)).
Proof.
  intros H. rewrite !cli_output. cbn [fst]. unfold parse.
  rewrite <- (loop_filter_recognised (Str.splitlines out1)).
  rewrite <- (loop_filter_recognised (Str.splitlines out2)).
  now rewrite (loop_normal _ _ _ H).
Qed.

Lemma cli_reads_recognised_lines_only_witness :
  fst (cli unit no_device tt None (Some (unlines two_lines)))
  = fst (cli unit no_device tt None (Some (unlines noisy_lines))).
Proof.
  apply (cli_reads_recognised_lines_only unit no_device tt None
           (unlines two_lines) (unlines noisy_lines)).
  vm_compute. reflexivity.
Defined.
